(** * Roach Parlor frontend: utility, auth, cache, socket and navigation logic

    A shallow embedding of the TypeScript sources of the single-page
    frontend, together with the parts of the JavaScript platform the
    sources call (binary64 numbers, [parseFloat], [atob], [JSON.parse],
    truthiness and property access).

    Layout: the platform model and the embedded sources come first, module
    by module; the properties proved about them follow in the second half. *)

From Stdlib Require Import ZArith NArith Bool Ascii String List Lia Sorted.
From Stdlib Require Import Floats.SpecFloat.
From stdpp Require Import base gmap list.
Import ListNotations.

Set Warnings "-register-all".

(* ===================================================================== *)
(** ** JavaScript numbers: IEEE 754 binary64 *)
(* ===================================================================== *)

(** A JavaScript [number] is a binary64 float.  [spec_float] at precision 53
    and maximal exponent 1024 is the executable specification of binary64
    arithmetic (round to nearest, ties to even); NaN carries no payload,
    exactly as JavaScript observes it. *)
Module Num.

Definition prec : Z := 53.
Definition emax : Z := 1024.

Definition number : Type := spec_float.

Definition NaN : number := S754_nan.
Definition Infinity : number := S754_infinity false.
Definition zero : number := S754_zero false.

(** The Number value of a mathematical integer. *)
Definition of_Z (z : Z) : number := binary_normalize prec emax z 0 false.

Definition mul (x y : number) : number := SFmul prec emax x y.
Definition div (x y : number) : number := SFdiv prec emax x y.
Definition ltb (x y : number) : bool := SFltb x y.
Definition leb (x y : number) : bool := SFleb x y.
Definition eqb (x y : number) : bool := SFeqb x y.

(** [Math.abs]. *)
Definition Math_abs (x : number) : number := SFabs x.

(** The global [isNaN] applied to a value that already is a number. *)
Definition isNaN (x : number) : bool :=
  match x with S754_nan => true | _ => false end.

(** [Number.isFinite]. *)
Definition isFinite (x : number) : bool :=
  match x with
  | S754_zero _ | S754_finite _ _ _ => true
  | S754_infinity _ | S754_nan => false
  end.

(** The Number value of the decimal [(-1)^neg * m * 10^e]: the exact
    quotient or product is rounded once.  A zero mantissa keeps the sign of
    the literal, as StringNumericValue prescribes. *)
Definition of_decimal (neg : bool) (m : N) (e : Z) : number :=
  match m with
  | N0 => S754_zero neg
  | Npos p =>
      match e with
      | Zneg k => div (S754_finite neg p 0) (S754_finite false (10 ^ k)%positive 0)
      | Z0 => binary_round prec emax neg p 0
      | Zpos k => binary_round prec emax neg (p * 10 ^ k)%positive 0
      end
  end.

End Num.

Abbreviation number := Num.number.

(* ===================================================================== *)
(** ** JavaScript strings *)
(* ===================================================================== *)

(** A JavaScript string is a sequence of UTF-16 code units. *)
Definition jschar : Type := N.
Definition jsstring : Type := list N.

(** Source literals are written as Rocq strings and read as code units. *)
Definition str (s : string) : jsstring :=
  List.map N_of_ascii (list_ascii_of_string s).

Definition ch (a : ascii) : jschar := N_of_ascii a.

(** Literals stay folded under [simpl] and [cbn]. *)
Arguments str : simpl never.
Arguments ch : simpl never.

Definition jseqb (s t : jsstring) : bool := bool_decide (s = t).

Fixpoint startsWith (s p : jsstring) : bool :=
  match p, s with
  | [], _ => true
  | _ :: _, [] => false
  | c :: p', d :: s' => (d =? c)%N && startsWith s' p'
  end.

Module Lex.

Definition isDigit (c : jschar) : bool := (48 <=? c)%N && (c <=? 57)%N.

Definition digitVal (c : jschar) : N := (c - 48)%N.

(** WhiteSpace and LineTerminator code units (StrWhiteSpaceChar). *)
Definition isStrWhiteSpaceChar (c : jschar) : bool :=
  ((9 <=? c) && (c <=? 13) || (c =? 32) || (c =? 160) || (c =? 5760)
   || (8192 <=? c) && (c <=? 8202)
   || (c =? 8232) || (c =? 8233) || (c =? 8239) || (c =? 8287)
   || (c =? 12288) || (c =? 65279))%N.

Fixpoint trimStart (s : jsstring) : jsstring :=
  match s with
  | c :: r => if isStrWhiteSpaceChar c then trimStart r else s
  | [] => []
  end.

Definition trim (s : jsstring) : jsstring :=
  rev (trimStart (rev (trimStart s))).

(** Longest run of decimal digits at the front, and what follows it. *)
Fixpoint takeDigits (s : jsstring) : jsstring * jsstring :=
  match s with
  | c :: r =>
      if isDigit c then let (d, r') := takeDigits r in (c :: d, r')
      else ([], s)
  | [] => ([], [])
  end.

Definition digitsValue (d : jsstring) : N :=
  fold_left (fun acc c => (acc * 10 + digitVal c)%N) d 0%N.

(** StrUnsignedDecimalLiteral. *)
Inductive unsignedLit :=
| LitInfinity
| LitDecimal (intPart fracPart : jsstring) (exponent : Z).

(** ExponentPart, optional: when the text after [e] is not a SignedInteger
    the literal ends before the [e]. *)
Definition scanExponent (s : jsstring) : Z * jsstring :=
  match s with
  | c :: r =>
      if ((c =? ch "e") || (c =? ch "E"))%N then
        let '(neg, r1) :=
          match r with
          | c1 :: r' =>
              if (c1 =? ch "-")%N then (true, r')
              else if (c1 =? ch "+")%N then (false, r')
              else (false, r)
          | [] => (false, r)
          end in
        let '(ds, r2) := takeDigits r1 in
        match ds with
        | [] => (0%Z, s)
        | _ :: _ =>
            let v := Z.of_N (digitsValue ds) in
            ((if neg then - v else v)%Z, r2)
        end
      else (0%Z, s)
  | [] => (0%Z, s)
  end.

(** Longest prefix that is a StrUnsignedDecimalLiteral, with the rest. *)
Definition scanUnsigned (s : jsstring) : option (unsignedLit * jsstring) :=
  if startsWith s (str "Infinity") then Some (LitInfinity, List.skipn 8 s)
  else
    let '(ip, r1) := takeDigits s in
    match r1 with
    | c :: r2 =>
        if (c =? ch ".")%N then
          let '(fp, r3) := takeDigits r2 in
          match ip, fp with
          | [], [] => None
          | _, _ =>
              let '(e, r4) := scanExponent r3 in
              Some (LitDecimal ip fp e, r4)
          end
        else
          match ip with
          | [] => None
          | _ :: _ =>
              let '(e, r4) := scanExponent r1 in
              Some (LitDecimal ip [] e, r4)
          end
    | [] =>
        match ip with
        | [] => None
        | _ :: _ => Some (LitDecimal ip [] 0%Z, [])
        end
    end.

(** Longest prefix that is a StrDecimalLiteral: an optional sign, then an
    unsigned literal. *)
Definition scanSigned (s : jsstring) : option (bool * unsignedLit * jsstring) :=
  let '(neg, r) :=
    match s with
    | c :: r' =>
        if (c =? ch "-")%N then (true, r')
        else if (c =? ch "+")%N then (false, r')
        else (false, s)
    | [] => (false, s)
    end in
  match scanUnsigned r with
  | Some (lit, rest) => Some (neg, lit, rest)
  | None => None
  end.

(** StringNumericValue of a signed literal. *)
Definition litValue (neg : bool) (lit : unsignedLit) : number :=
  match lit with
  | LitInfinity => S754_infinity neg
  | LitDecimal ip fp e =>
      Num.of_decimal neg (digitsValue (ip ++ fp)) (e - Z.of_nat (length fp))
  end.

End Lex.

(** The global [parseFloat]: leading white space is skipped and the longest
    prefix that is a StrDecimalLiteral is converted; NaN when there is
    none. *)
Definition parseFloat (s : jsstring) : number :=
  match Lex.scanSigned (Lex.trimStart s) with
  | Some (neg, lit, _) => Lex.litValue neg lit
  | None => Num.NaN
  end.

(* ===================================================================== *)
(** ** JavaScript values, completions and coercions *)
(* ===================================================================== *)

Module JS.

(** The values the sources handle: primitives, arrays and plain objects.
    An object is the list of its own properties, each name at most once,
    in the order of its own property keys: the array indices in ascending
    order, then the other names in creation order. *)
Inductive value :=
| VUndefined
| VNull
| VBool (b : bool)
| VNumber (n : number)
| VString (s : jsstring)
| VArray (elems : list value)
| VObject (props : list (jsstring * value)).

Inductive error := TypeError | SyntaxError | InvalidCharacterError.

(** A computation either returns or throws. *)
Inductive completion (A : Type) :=
| Return (a : A)
| Throw (e : error).
Arguments Return {A} a.
Arguments Throw {A} e.

#[global] Instance completion_ret : MRet completion := @Return.
#[global] Instance completion_bind : MBind completion :=
  fun A B (k : A -> completion B) (c : completion A) =>
    match c with
    | Return a => k a
    | Throw e => Throw e
    end.

(** [try { body } catch { return fallback }]. *)
Definition tryCatch {A} (body : completion A) (fallback : A) : A :=
  match body with
  | Return a => a
  | Throw _ => fallback
  end.

Fixpoint lookupProp (props : list (jsstring * value)) (k : jsstring) : option value :=
  match props with
  | [] => None
  | (k', v) :: rest => if jseqb k' k then Some v else lookupProp rest k
  end.

(** CreateDataProperty for a name that is not an array index, as the
    sources set [token]: an existing name keeps its place and takes the
    new value, a new one comes last. *)
Fixpoint setProp (props : list (jsstring * value)) (k : jsstring) (v : value)
  : list (jsstring * value) :=
  match props with
  | [] => [(k, v)]
  | (k', v') :: rest =>
      if jseqb k' k then (k', v) :: rest else (k', v') :: setProp rest k v
  end.

(** A canonical array index: decimal digits with no leading zero. *)
Definition arrayIndex (k : jsstring) : option nat :=
  match k with
  | [] => None
  | c :: r =>
      if forallb Lex.isDigit k && (negb (c =? ch "0")%N || bool_decide (r = []))
      then Some (N.to_nat (Lex.digitsValue k))
      else None
  end.

(** An array index as a property key: a canonical numeric string whose
    number is below 2^32 - 1. *)
Definition propertyIndex (k : jsstring) : option N :=
  match k with
  | [] => None
  | c :: r =>
      if forallb Lex.isDigit k && (negb (c =? ch "0")%N || bool_decide (r = []))
         && (Lex.digitsValue k <? 4294967295)%N
      then Some (Lex.digitsValue k)
      else None
  end.

(** The place a new property takes among the own properties: an array
    index goes after the indices that are not above it and before
    everything else, any other name goes last. *)
Fixpoint insertProp {A} (props : list (jsstring * A)) (k : jsstring) (v : A)
  : list (jsstring * A) :=
  match props with
  | [] => [(k, v)]
  | (k', v') :: rest =>
      match propertyIndex k, propertyIndex k' with
      | Some i, Some i' =>
          if (i' <=? i)%N then (k', v') :: insertProp rest k v else (k, v) :: props
      | Some _, None => (k, v) :: props
      | None, _ => (k', v') :: insertProp rest k v
      end
  end.

(** A property that is there takes the new value and keeps its place. *)
Fixpoint replaceProp {A} (props : list (jsstring * A)) (k : jsstring) (v : A)
  : list (jsstring * A) :=
  match props with
  | [] => []
  | (k', v') :: rest =>
      if jseqb k' k then (k', v) :: rest else (k', v') :: replaceProp rest k v
  end.

Definition hasProp {A} (props : list (jsstring * A)) (k : jsstring) : bool :=
  existsb (fun kv => jseqb kv.1 k) props.

(** CreateDataProperty on an ordinary object. *)
Definition createDataProperty {A} (props : list (jsstring * A)) (k : jsstring) (v : A)
  : list (jsstring * A) :=
  if hasProp props k then replaceProp props k v else insertProp props k v.

(** Property read [v.k].  Reading from [undefined] or [null] throws.
    Methods inherited from the built-in prototypes are functions and are
    not values of this model; the sources read only the data properties
    [exp], [response], [data], [detail], [status] and [message]. *)
Definition getProp (v : value) (k : jsstring) : completion value :=
  match v with
  | VUndefined | VNull => Throw TypeError
  | VObject props => Return (default VUndefined (lookupProp props k))
  | VArray elems =>
      if jseqb k (str "length") then Return (VNumber (Num.of_Z (Z.of_nat (length elems))))
      else Return (default VUndefined (i ← arrayIndex k; nth_error elems i))
  | VString s =>
      if jseqb k (str "length") then Return (VNumber (Num.of_Z (Z.of_nat (length s))))
      else Return (default VUndefined
                     (i ← arrayIndex k; c ← nth_error s i; Some (VString [c])))
  | VBool _ | VNumber _ => Return VUndefined
  end.

(** Optional chaining [v?.k]. *)
Definition optProp (v : value) (k : jsstring) : completion value :=
  match v with
  | VUndefined | VNull => Return VUndefined
  | _ => getProp v k
  end.

(** ToBoolean. *)
Definition toBoolean (v : value) : bool :=
  match v with
  | VUndefined | VNull => false
  | VBool b => b
  | VNumber n =>
      match n with
      | S754_zero _ | S754_nan => false
      | _ => true
      end
  | VString s => negb (bool_decide (s = []))
  | VArray _ | VObject _ => true
  end.

(** Digits of a NonDecimalIntegerLiteral in the given radix. *)
Definition radixDigit (radix : N) (c : jschar) : option N :=
  let d :=
    if Lex.isDigit c then Some (c - 48)%N
    else if ((97 <=? c) && (c <=? 102))%N then Some (c - 87)%N
    else if ((65 <=? c) && (c <=? 70))%N then Some (c - 55)%N
    else None in
  match d with
  | Some n => if (n <? radix)%N then Some n else None
  | None => None
  end.

Fixpoint radixValue (radix : N) (s : jsstring) (acc : N) : option N :=
  match s with
  | [] => Some acc
  | c :: r =>
      match radixDigit radix c with
      | Some d => radixValue radix r (acc * radix + d)%N
      | None => None
      end
  end.

Definition nonDecimalLiteral (s : jsstring) : option N :=
  match s with
  | z :: x :: (_ :: _) as ds =>
      if (z =? ch "0")%N then
        if ((x =? ch "x") || (x =? ch "X"))%N then radixValue 16 ds 0
        else if ((x =? ch "o") || (x =? ch "O"))%N then radixValue 8 ds 0
        else if ((x =? ch "b") || (x =? ch "B"))%N then radixValue 2 ds 0
        else None
      else None
  | _ => None
  end.

(** StringToNumber: white space is trimmed; the empty string is [+0]; the
    whole of what remains must be a numeric literal. *)
Definition stringToNumber (s : jsstring) : number :=
  let t := Lex.trim s in
  match t with
  | [] => Num.zero
  | _ :: _ =>
      match nonDecimalLiteral t with
      | Some n => Num.of_Z (Z.of_N n)
      | None =>
          match Lex.scanSigned t with
          | Some (neg, lit, []) => Lex.litValue neg lit
          | _ => Num.NaN
          end
      end
  end.

(** Whether the conversion of a value to a primitive throws.  No value of
    this model is callable, so an own property [toString] of an object
    shadows [Object.prototype.toString] with something that cannot be
    called; the inherited [valueOf] returns the object itself, and
    OrdinaryToPrimitive is left without a primitive: a [TypeError].  An
    array is joined by [Array.prototype.toString], which converts every
    element other than [undefined] and [null] to a string and so throws
    when one of them does. *)
Fixpoint toPrimitiveThrows (v : value) : bool :=
  match v with
  | VObject props =>
      match lookupProp props (str "toString") with
      | Some _ => true
      | None => false
      end
  | VArray elems => existsb toPrimitiveThrows elems
  | VUndefined | VNull | VBool _ | VNumber _ | VString _ => false
  end.

(** The number of a value whose conversion to a primitive does not throw.
    An object without a [toString] of its own is the string
    [[object Object]], which is no number.  An array is first turned into
    the string that joins its elements with commas, so several elements
    give NaN, none gives [+0], and a single one gives the number of its
    own string; the string of a number reads back as that number, a
    negative zero as [+0]. *)
Fixpoint numericValue (v : value) : number :=
  match v with
  | VUndefined => Num.NaN
  | VNull => Num.zero
  | VBool b => if b then Num.of_Z 1 else Num.zero
  | VNumber n => n
  | VString s => stringToNumber s
  | VObject _ => Num.NaN
  | VArray [] => Num.zero
  | VArray [x] =>
      match x with
      | VUndefined | VNull => Num.zero
      | VBool _ | VObject _ => Num.NaN
      | VNumber n => match n with S754_zero _ => Num.zero | _ => n end
      | VString s => stringToNumber s
      | VArray _ => numericValue x
      end
  | VArray (_ :: _ :: _) => Num.NaN
  end.

(** ToNumber: the conversion to a primitive may throw. *)
Definition toNumber (v : value) : completion number :=
  if toPrimitiveThrows v then Throw TypeError else Return (numericValue v).

(** [v < n] with a number on the right: the left side is converted to a
    number, which may throw; an undefined comparison (a NaN) is false. *)
Definition lessThanNumber (v : value) (n : number) : completion bool :=
  x ← toNumber v;
  mret (Num.ltb x n).

(** [v >= n] with a number on the right. *)
Definition greaterEqualNumber (v : value) (n : number) : completion bool :=
  x ← toNumber v;
  mret (Num.leb n x).

(** [v === n] with a number on the right. *)
Definition strictEqualsNumber (v : value) (n : number) : bool :=
  match v with
  | VNumber m => Num.eqb m n
  | _ => false
  end.

End JS.

Export JS.

(* ===================================================================== *)
(** ** [String.prototype.split], [atob] and [JSON.parse] *)
(* ===================================================================== *)

(** [s.split(sep)] for a separator of one code unit: the empty string
    splits into one empty segment. *)
Fixpoint split (sep : jschar) (s : jsstring) : list jsstring :=
  match s with
  | [] => [[]]
  | c :: r =>
      if (c =? sep)%N then [] :: split sep r
      else
        match split sep r with
        | h :: t => (c :: h) :: t
        | [] => [[c]]
        end
  end.

(** ToString of an array element that may be missing: [arr[i]] is
    [undefined] past the end, and [undefined] reads as that word. *)
Definition toStringOrUndefined (o : option jsstring) : jsstring :=
  match o with
  | Some s => s
  | None => str "undefined"
  end.

Module Base64.

Definition isAsciiWhitespace (c : jschar) : bool :=
  ((c =? 9) || (c =? 10) || (c =? 12) || (c =? 13) || (c =? 32))%N.

(** The six-bit value of a character of the base64 alphabet. *)
Definition sextet (c : jschar) : option N :=
  if ((65 <=? c) && (c <=? 90))%N then Some (c - 65)%N
  else if ((97 <=? c) && (c <=? 122))%N then Some (c - 71)%N
  else if ((48 <=? c) && (c <=? 57))%N then Some (c + 4)%N
  else if (c =? ch "+")%N then Some 62%N
  else if (c =? ch "/")%N then Some 63%N
  else None.

Fixpoint sextets (s : jsstring) : option (list N) :=
  match s with
  | [] => Some []
  | c :: r =>
      match sextet c, sextets r with
      | Some v, Some vs => Some (v :: vs)
      | _, _ => None
      end
  end.

(** One or two [=] at the end are dropped when the length is a multiple of
    four. *)
Definition stripPadding (s : jsstring) : jsstring :=
  if (length s mod 4 =? 0)%nat then
    match rev s with
    | a :: b :: r =>
        if ((a =? ch "=") && (b =? ch "="))%N then rev r
        else if (a =? ch "=")%N then rev (b :: r)
        else s
    | _ => s
    end
  else s.

(** Four sextets give three bytes; a final pair gives one byte and a final
    triple two, the left-over bits being dropped. *)
Fixpoint bytesOfSextets (l : list N) : list N :=
  match l with
  | a :: b :: c :: d :: r =>
      let n := (a * 262144 + b * 4096 + c * 64 + d)%N in
      (n / 65536)%N :: ((n / 256) mod 256)%N :: (n mod 256)%N :: bytesOfSextets r
  | [a; b; c] =>
      let n := ((a * 4096 + b * 64 + c) / 4)%N in
      [(n / 256)%N; (n mod 256)%N]
  | [a; b] => [((a * 64 + b) / 16)%N]
  | _ => []
  end.

(** Forgiving base64 decoding. *)
Definition decode (data : jsstring) : option jsstring :=
  let d := stripPadding (List.filter (fun c => negb (isAsciiWhitespace c)) data) in
  if (length d mod 4 =? 1)%nat then None
  else
    match sextets d with
    | Some vs => Some (bytesOfSextets vs)
    | None => None
    end.

End Base64.

(** The global [atob]: the decoded bytes as a string of code units below
    256, or an [InvalidCharacterError]. *)
Definition atob (data : jsstring) : completion jsstring :=
  match Base64.decode data with
  | Some bytes => Return bytes
  | None => Throw InvalidCharacterError
  end.

Module Json.

Definition isWs (c : jschar) : bool :=
  ((c =? 9) || (c =? 10) || (c =? 13) || (c =? 32))%N.

Fixpoint skipWs (s : jsstring) : jsstring :=
  match s with
  | c :: r => if isWs c then skipWs r else s
  | [] => []
  end.

Definition hexVal (c : jschar) : option N := radixDigit 16 c.

(** The character a one-letter escape stands for. *)
Definition escapeChar (c : jschar) : option jschar :=
  if (c =? 34)%N then Some 34%N
  else if (c =? 92)%N then Some 92%N
  else if (c =? ch "/")%N then Some 47%N
  else if (c =? ch "b")%N then Some 8%N
  else if (c =? ch "f")%N then Some 12%N
  else if (c =? ch "n")%N then Some 10%N
  else if (c =? ch "r")%N then Some 13%N
  else if (c =? ch "t")%N then Some 9%N
  else None.

(** The rest of a string literal after its opening quote: the characters
    up to the closing quote, escapes decoded, and what follows the quote.
    A raw control character or a malformed escape is an error. *)
Fixpoint scanString (s : jsstring) (acc : jsstring) : option (jsstring * jsstring) :=
  match s with
  | [] => None
  | c :: r =>
      if (c =? 34)%N then Some (rev acc, r)
      else if (c =? 92)%N then
        match r with
        | [] => None
        | e :: r' =>
            if (e =? ch "u")%N then
              match r' with
              | h1 :: h2 :: h3 :: h4 :: r'' =>
                  match hexVal h1, hexVal h2, hexVal h3, hexVal h4 with
                  | Some a, Some b, Some c', Some d =>
                      scanString r'' ((a * 4096 + b * 256 + c' * 16 + d)%N :: acc)
                  | _, _, _, _ => None
                  end
              | _ => None
              end
            else
              match escapeChar e with
              | Some x => scanString r' (x :: acc)
              | None => None
              end
        end
      else if (c <? 32)%N then None
      else scanString r (c :: acc)
  end.

(** The parts of a JSON number, each with the text after it. *)

(** An optional minus sign. *)
Definition scanMinus (s : jsstring) : bool * jsstring :=
  match s with
  | c :: r => if (c =? ch "-")%N then (true, r) else (false, s)
  | [] => (false, s)
  end.

(** The integer part: a single zero, or digits of which the first is not
    zero. *)
Definition scanInt (s : jsstring) : option (jsstring * jsstring) :=
  match s with
  | c :: r =>
      if negb (Lex.isDigit c) then None
      else if (c =? ch "0")%N then Some ([c], r)
      else Some (Lex.takeDigits s)
  | [] => None
  end.

(** The optional fraction: a dot and at least one digit. *)
Definition scanFraction (s : jsstring) : option (jsstring * jsstring) :=
  match s with
  | d :: r =>
      if (d =? ch ".")%N then
        match Lex.takeDigits r with
        | ([], _) => None
        | (fp, rest) => Some (fp, rest)
        end
      else Some ([], s)
  | [] => Some ([], s)
  end.

(** The optional exponent: [e] or [E], an optional sign and at least one
    digit. *)
Definition scanExponentPart (s : jsstring) : option (Z * jsstring) :=
  match s with
  | e :: r =>
      if ((e =? ch "e") || (e =? ch "E"))%N then
        let '(eneg, r1) :=
          match r with
          | g :: r' =>
              if (g =? ch "-")%N then (true, r')
              else if (g =? ch "+")%N then (false, r')
              else (false, r)
          | [] => (false, r)
          end in
        match Lex.takeDigits r1 with
        | ([], _) => None
        | (ds, rest) =>
            let v := Z.of_N (Lex.digitsValue ds) in
            Some ((if eneg then - v else v)%Z, rest)
        end
      else Some (0%Z, s)
  | [] => Some (0%Z, s)
  end.

(** A JSON number at the front of the text. *)
Definition scanNumber (s : jsstring) : option (number * jsstring) :=
  let '(neg, r) := scanMinus s in
  match scanInt r with
  | None => None
  | Some (ip, r1) =>
      match scanFraction r1 with
      | None => None
      | Some (fp, r2) =>
          match scanExponentPart r2 with
          | None => None
          | Some (e, rest) =>
              Some (Num.of_decimal neg (Lex.digitsValue (ip ++ fp))
                      (e - Z.of_nat (length fp)), rest)
          end
      end
  end.

(** A value that is not an array or an object: a string, one of the three
    literal names, or a number. *)
Definition scanScalar (s : jsstring) : option (value * jsstring) :=
  match s with
  | [] => None
  | c :: r =>
      if (c =? 34)%N then
        match scanString r [] with
        | Some (v, rest) => Some (VString v, rest)
        | None => None
        end
      else if startsWith s (str "true") then Some (VBool true, skipn 4 s)
      else if startsWith s (str "false") then Some (VBool false, skipn 5 s)
      else if startsWith s (str "null") then Some (VNull, skipn 4 s)
      else
        match scanNumber s with
        | Some (n, rest) => Some (VNumber n, rest)
        | None => None
        end
  end.

(** Recursive descent over values, array elements and object members.
    Every call hands its callees one unit of fuel less. *)
Fixpoint parseValue (fuel : nat) (s : jsstring) : option (value * jsstring) :=
  match fuel with
  | O => None
  | S f =>
      match skipWs s with
      | [] => None
      | c :: r =>
          if (c =? ch "{")%N then
            match skipWs r with
            | c' :: r' =>
                if (c' =? ch "}")%N then Some (VObject [], r')
                else parseMembers f (c' :: r') []
            | [] => None
            end
          else if (c =? ch "[")%N then
            match skipWs r with
            | c' :: r' =>
                if (c' =? ch "]")%N then Some (VArray [], r')
                else parseElements f (c' :: r') []
            | [] => None
            end
          else scanScalar (c :: r)
      end
  end
with parseElements (fuel : nat) (s : jsstring) (acc : list value)
  : option (value * jsstring) :=
  match fuel with
  | O => None
  | S f =>
      match parseValue f s with
      | Some (v, r) =>
          match skipWs r with
          | c :: r' =>
              if (c =? ch ",")%N then parseElements f r' (v :: acc)
              else if (c =? ch "]")%N then Some (VArray (rev (v :: acc)), r')
              else None
          | [] => None
          end
      | None => None
      end
  end
with parseMembers (fuel : nat) (s : jsstring) (acc : list (jsstring * value))
  : option (value * jsstring) :=
  match fuel with
  | O => None
  | S f =>
      match skipWs s with
      | q :: r =>
          if (q =? 34)%N then
            match scanString r [] with
            | Some (k, r1) =>
                match skipWs r1 with
                | c :: r2 =>
                    if (c =? ch ":")%N then
                      match parseValue f r2 with
                      | Some (v, r3) =>
                          match skipWs r3 with
                          | d :: r4 =>
                              if (d =? ch ",")%N
                              then parseMembers f r4 (createDataProperty acc k v)
                              else if (d =? ch "}")%N
                              then Some (VObject (createDataProperty acc k v), r4)
                              else None
                          | [] => None
                          end
                      | None => None
                      end
                    else None
                | [] => None
                end
            | None => None
            end
          else None
      | [] => None
      end
  end.

(** Each call consumes a character before it recurses, or its callee
    does, so twice the length of the text is fuel enough. *)
Definition fuelFor (s : jsstring) : nat := 2 * length s + 2.

End Json.

(** [JSON.parse] of a string: the value of the whole text, or a
    [SyntaxError]. *)
Definition JSON_parse (text : jsstring) : completion value :=
  match Json.parseValue (Json.fuelFor text) text with
  | Some (v, rest) =>
      match Json.skipWs rest with
      | [] => Return v
      | _ :: _ => Throw SyntaxError
      end
  | None => Throw SyntaxError
  end.

(* ===================================================================== *)
(** ** types/index.ts *)
(* ===================================================================== *)

Inductive WagerStatus := pending | won | lost | push | cancelled.

#[global] Instance WagerStatus_eq_dec : EqDecision WagerStatus.
Proof. solve_decision. Defined.

Record WagerLeg := {
  leg_id : Z;
  leg_description : jsstring;
  leg_status : WagerStatus;
}.

Record WagerMatchup := {
  homeTeam : jsstring;
  awayTeam : jsstring;
  league : jsstring;
}.

Record GameScore := {
  homeScore : number;
  awayScore : number;
}.

Record Wager := {
  id : Z;
  description : jsstring;
  amount : number;
  line : jsstring;
  status : WagerStatus;
  isFrePlay : bool;
  isLiveBet : bool;
  autoCalculate : bool;
  liveTrackingEnabled : bool;
  archived : bool;
  legs : list WagerLeg;
  matchup : option WagerMatchup;
  payout : option number;
  liveScore : option GameScore;
}.

(* ===================================================================== *)
(** ** utils/helpers.ts *)
(* ===================================================================== *)

Module Helpers.

(** The characters [line.replace(/[^-\d.]/g, '')] keeps: the minus sign,
    the ASCII digits and the dot. *)
Definition keptByStrip (c : jschar) : bool :=
  (c =? ch "-")%N || Lex.isDigit c || (c =? ch ".")%N.

Definition stripLine (line : jsstring) : jsstring :=
  List.filter keptByStrip line.

(** [calculatePayout(amount, line)]; [None] is the [null] result. *)
Definition calculatePayout (amount : number) (line : jsstring) : option number :=
  let odds := parseFloat (stripLine line) in
  if Num.isNaN odds then None
  else if Num.ltb Num.zero odds then
    Some (Num.mul (Num.div odds (Num.of_Z 100)) amount)
  else
    Some (Num.mul (Num.div (Num.of_Z 100) (Num.Math_abs odds)) amount).

End Helpers.

(* ===================================================================== *)
(** ** utils/auth.ts and services/auth.ts *)
(* ===================================================================== *)

Module Auth.

Definition AUTH_STORAGE_KEYS_TOKEN : jsstring := str "roach_parlor_token".
Definition AUTH_STORAGE_KEYS_REFRESH_TOKEN : jsstring := str "roach_parlor_refresh_token".
Definition AUTH_STORAGE_KEYS_USER : jsstring := str "roach_parlor_user".

(** [localStorage]: string keys to string values; [getItem] of a key that
    is not stored is [null], here [None]. *)
Abbreviation localStorage := (gmap jsstring jsstring).

Definition getItem (ls : localStorage) (key : jsstring) : option jsstring :=
  ls !! key.

Definition setItem (ls : localStorage) (key v : jsstring) : localStorage :=
  <[key := v]> ls.

Definition removeItem (ls : localStorage) (key : jsstring) : localStorage :=
  delete key ls.

(** [tokenStorage.getToken]. *)
Definition getToken (ls : localStorage) : option jsstring :=
  getItem ls AUTH_STORAGE_KEYS_TOKEN.

(** [tokenStorage.getUser]: [userStr ? JSON.parse(userStr) : null]. *)
Definition getUser (ls : localStorage) : completion value :=
  match getItem ls AUTH_STORAGE_KEYS_USER with
  | Some userStr =>
      if toBoolean (VString userStr) then JSON_parse userStr else Return VNull
  | None => Return VNull
  end.

(** [tokenStorage.clearAll]. *)
Definition clearAll (ls : localStorage) : localStorage :=
  removeItem
    (removeItem (removeItem ls AUTH_STORAGE_KEYS_TOKEN) AUTH_STORAGE_KEYS_REFRESH_TOKEN)
    AUTH_STORAGE_KEYS_USER.

(** The body of the [try] block of [isTokenExpired]; [dateNow] is what
    [Date.now()] returns, in milliseconds. *)
Definition isTokenExpiredBody (dateNow : number) (token : jsstring) : completion bool :=
  decoded ← atob (toStringOrUndefined (split (ch ".") token !! 1%nat));
  payload ← JSON_parse decoded;
  let currentTime := Num.div dateNow (Num.of_Z 1000) in
  exp ← getProp payload (str "exp");
  lessThanNumber exp currentTime.

(** [isTokenExpired(token)]: any exception of the body gives [true]. *)
Definition isTokenExpired (dateNow : number) (token : jsstring) : bool :=
  tryCatch (isTokenExpiredBody dateNow token) true.

(** [error.response?.data?.detail]. *)
Definition responseDataDetail (error : value) : completion value :=
  response ← getProp error (str "response");
  data ← optProp response (str "data");
  optProp data (str "detail").

(** [error.response?.status]. *)
Definition responseStatus (error : value) : completion value :=
  response ← getProp error (str "response");
  optProp response (str "status").

(** [formatAuthError(error)]. *)
Definition formatAuthError (error : value) : completion value :=
  detail ← responseDataDetail error;
  if toBoolean detail then
    response ← getProp error (str "response");
    data ← getProp response (str "data");
    getProp data (str "detail")
  else
    status401 ← responseStatus error;
    if strictEqualsNumber status401 (Num.of_Z 401) then
      mret (VString (str "Invalid username or password"))
    else
      status403 ← responseStatus error;
      if strictEqualsNumber status403 (Num.of_Z 403) then
        mret (VString (str "Access denied"))
      else
        status5xx ← responseStatus error;
        serverError ← greaterEqualNumber status5xx (Num.of_Z 500);
        if (serverError : bool) then
          mret (VString (str "Server error. Please try again later."))
        else
          message ← getProp error (str "message");
          if toBoolean message then getProp error (str "message")
          else mret (VString (str "An unexpected error occurred")).

End Auth.

(* ===================================================================== *)
(** ** components/wagers/WagerCard.tsx and WagerDetail.tsx *)
(* ===================================================================== *)

Module WagerUI.

(** What a render puts on the page: the badges, chips, figures, buttons
    and menus whose presence the component decides.  Layout, styling, the
    time stamps, and the current-odds and calculation-history panels of
    the detail view (none of which holds a status control or depends on
    the active state) are left out.  A menu is in the tree whether open or
    not, and shows its items only while it has an anchor. *)
Inductive element :=
| EStatusBadge (s : WagerStatus)
| EChip (label : string)
| EIconButton (ariaLabel : string) (disabled : bool)
| EAmount (a : number)
| ELine (l : jsstring)
| EPotentialPayout (p : number)
| EActualPayout (p : number)
| ENumberText (n : number)
| EMatchup (m : WagerMatchup)
| ELegs (ls : list WagerLeg)
| ELiveScore (g : GameScore)
| EUpdateStatusButton (disabled : bool)
| EStatusButton (label : string) (target : WagerStatus) (disabled : bool)
| ECloseButton
| EActionsMenu (open : bool) (items : list string)
| EStatusMenu (open : bool) (targets : list WagerStatus).

(** [cond && <X/>] in JSX. *)
Definition when (cond : bool) (es : list element) : list element :=
  if cond then es else [].

(** [{n && <X/>}] for an optional number: [null] and [undefined] render
    nothing, a truthy number renders the element, and a falsy number is
    itself rendered as text. *)
Definition whenNumber (o : option number) (el : number -> element) : list element :=
  match o with
  | None => []
  | Some n => if toBoolean (VNumber n) then [el n] else [ENumberText n]
  end.

Definition ofOption {A} (o : option A) (el : A -> element) : list element :=
  match o with
  | Some a => [el a]
  | None => []
  end.

(** [wager.status === 'pending' && !wager.archived], the same line in both
    components. *)
Definition isActive (wager : Wager) : bool :=
  bool_decide (status wager = pending) && negb (archived wager).

Record WagerCardProps := {
  card_wager : Wager;
  card_onEdit : bool;                 (* an edit handler was passed *)
  card_showActions : option bool;     (* default true *)
  card_loading : option bool;         (* default false *)
}.

Record WagerCardState := {
  anchorEl : bool;                    (* the actions menu has an anchor *)
  statusMenuAnchor : bool;            (* the status menu has an anchor *)
}.

(** Both anchors start as [null]. *)
Definition initialCardState : WagerCardState :=
  {| anchorEl := false; statusMenuAnchor := false |}.

Definition handleMenuOpen (st : WagerCardState) : WagerCardState :=
  {| anchorEl := true; statusMenuAnchor := statusMenuAnchor st |}.

Definition handleMenuClose (st : WagerCardState) : WagerCardState :=
  {| anchorEl := false; statusMenuAnchor := statusMenuAnchor st |}.

(** The click handler of the Update Status button, and of nothing else. *)
Definition handleStatusMenuOpen (st : WagerCardState) : WagerCardState :=
  {| anchorEl := anchorEl st; statusMenuAnchor := true |}.

Definition handleStatusMenuClose (st : WagerCardState) : WagerCardState :=
  {| anchorEl := anchorEl st; statusMenuAnchor := false |}.

Definition WagerCard (props : WagerCardProps) (st : WagerCardState) : list element :=
  let wager := card_wager props in
  let showActions := default true (card_showActions props) in
  let loading := default false (card_loading props) in
  let potentialPayout := Helpers.calculatePayout (amount wager) (line wager) in
  let isActive := isActive wager in
  [EStatusBadge (status wager)]
  ++ when (isFrePlay wager) [EChip "Free Play"]
  ++ when (isLiveBet wager) [EChip "Live Bet"]
  ++ when (archived wager) [EChip "Archived"]
  ++ when showActions [EIconButton "Wager actions" loading]
  ++ [EAmount (amount wager); ELine (line wager)]
  ++ whenNumber potentialPayout EPotentialPayout
  ++ ofOption (matchup wager) EMatchup
  ++ when (negb (bool_decide (legs wager = []))) [ELegs (legs wager)]
  ++ ofOption (liveScore wager) ELiveScore
  ++ when (isActive && showActions) [EUpdateStatusButton loading]
  ++ [EActionsMenu (anchorEl st)
        ((if card_onEdit props then ["Edit"%string] else [])
         ++ [if archived wager then "Unarchive"%string else "Archive"%string;
             "Delete"%string])]
  ++ [EStatusMenu (statusMenuAnchor st) [won; lost; push; cancelled; pending]].

Record WagerDetailProps := {
  detail_wager : Wager;
  detail_onEdit : bool;
  detail_onClose : bool;
  detail_loading : option bool;       (* default false *)
}.

Definition WagerDetail (props : WagerDetailProps) : list element :=
  let wager := detail_wager props in
  let loading := default false (detail_loading props) in
  let potentialPayout := Helpers.calculatePayout (amount wager) (line wager) in
  let isActive := isActive wager in
  [EStatusBadge (status wager)]
  ++ when (isFrePlay wager) [EChip "Free Play"]
  ++ when (isLiveBet wager) [EChip "Live Bet"]
  ++ when (archived wager) [EChip "Archived"]
  ++ when (autoCalculate wager) [EChip "Auto Calculate"]
  ++ when (liveTrackingEnabled wager) [EChip "Live Tracking"]
  ++ when (detail_onEdit props) [EIconButton "Edit wager" loading]
  ++ [EIconButton (if archived wager then "Unarchive" else "Archive") loading;
      EIconButton "Delete wager" loading]
  ++ when (detail_onClose props) [ECloseButton]
  ++ [EAmount (amount wager); ELine (line wager)]
  ++ whenNumber potentialPayout EPotentialPayout
  ++ whenNumber (payout wager) EActualPayout
  ++ when isActive
       [EStatusButton "Mark as Won" won loading;
        EStatusButton "Mark as Lost" lost loading;
        EStatusButton "Mark as Push" push loading;
        EStatusButton "Cancel" cancelled loading]
  ++ ofOption (matchup wager) EMatchup
  ++ ofOption (liveScore wager) ELiveScore
  ++ when (negb (bool_decide (legs wager = []))) [ELegs (legs wager)].

(** The controls that change a wager's status: the card's Update Status
    button and the status menu it opens, while open; the detail view's
    Mark-as buttons. *)
Definition isStatusControl (e : element) : bool :=
  match e with
  | EUpdateStatusButton _ | EStatusButton _ _ _ => true
  | EStatusMenu open _ => open
  | _ => false
  end.

Definition showsStatusControl (tree : list element) : bool :=
  existsb isStatusControl tree.

Definition isUpdateStatusButton (e : element) : bool :=
  match e with
  | EUpdateStatusButton _ => true
  | _ => false
  end.

Definition showsUpdateStatusButton (tree : list element) : bool :=
  existsb isUpdateStatusButton tree.

End WagerUI.

(* ===================================================================== *)
(** ** hooks/useWagers.ts over the React Query cache *)
(* ===================================================================== *)

Module Hooks.

Definition QUERY_KEYS_WAGERS : jsstring := str "wagers".
Definition QUERY_KEYS_WAGER : jsstring := str "wager".

Section QueryClient.

(** [Params] are the list parameters of [useWagers], taken up to the hash
    React Query computes of them; [Data] is what a query function or a
    mutation resolves to. *)
Context {Params : Type} `{Countable Params}.
Context {Data : Type}.

(** The parts of a query key the hooks build: the [QUERY_KEYS] strings,
    wager ids and list parameters. *)
Inductive keyPart :=
| KString (s : jsstring)
| KNumber (n : Z)
| KParams (p : Params).

#[global] Instance keyPart_eq_dec : EqDecision keyPart.
Proof. solve_decision. Defined.

#[global] Instance keyPart_countable : Countable keyPart.
Proof.
  refine (inj_countable'
            (fun k => match k with
                      | KString s => inl s
                      | KNumber n => inr (inl n)
                      | KParams p => inr (inr p)
                      end)
            (fun x => match x with
                      | inl s => KString s
                      | inr (inl n) => KNumber n
                      | inr (inr p) => KParams p
                      end) _).
  intros []; reflexivity.
Defined.

(** The state of one query, as far as the hooks touch it. *)
Record queryState := {
  data : option Data;
  isInvalidated : bool;
}.

(** The query cache: one entry per query key. *)
#[local] Abbreviation queryCache := (gmap (list keyPart) queryState).

(** Query filters match by key prefix. *)
Definition partialMatchKey (queryKey filterKey : list keyPart) : bool :=
  bool_decide (filterKey `prefix_of` queryKey).

(** [queryClient.setQueryData(key, data)]: the entry is created or
    overwritten with fresh data. *)
Definition setQueryData (key : list keyPart) (d : Data) (c : queryCache) : queryCache :=
  <[key := {| data := Some d; isInvalidated := false |}]> c.

(** [queryClient.invalidateQueries({ queryKey })]: every matching entry is
    marked invalidated and keeps its data. *)
Definition invalidateQueries (filterKey : list keyPart) (c : queryCache) : queryCache :=
  map_imap
    (fun k st =>
       Some (if partialMatchKey k filterKey
             then {| data := data st; isInvalidated := true |}
             else st))
    c.

(** [queryClient.removeQueries({ queryKey })]. *)
Definition removeQueries (filterKey : list keyPart) (c : queryCache) : queryCache :=
  filter (fun kv => partialMatchKey kv.1 filterKey = false) c.

(** A read through [useQuery] fetches when the entry is missing or
    invalidated; the time-based staleness of [staleTime: 30000] is not
    modelled. *)
Definition refetchOnRead (key : list keyPart) (c : queryCache) : bool :=
  match c !! key with
  | Some st => isInvalidated st || bool_decide (data st = None)
  | None => true
  end.

Definition wagerKey (id : Z) : list keyPart := [KString QUERY_KEYS_WAGER; KNumber id].
Definition wagersKey (p : Params) : list keyPart := [KString QUERY_KEYS_WAGERS; KParams p].

(** The [onSuccess] handlers of the mutation hooks. *)
Definition useCreateWager_onSuccess (c : queryCache) : queryCache :=
  invalidateQueries [KString QUERY_KEYS_WAGERS] c.

Definition useUpdateWager_onSuccess (d : Data) (id : Z) (c : queryCache) : queryCache :=
  invalidateQueries [KString QUERY_KEYS_WAGERS] (setQueryData (wagerKey id) d c).

Definition useUpdateWagerStatus_onSuccess
  (d : Data) (id : Z) (st : WagerStatus) (c : queryCache) : queryCache :=
  invalidateQueries [KString QUERY_KEYS_WAGERS] (setQueryData (wagerKey id) d c).

Definition useArchiveWager_onSuccess
  (d : Data) (id : Z) (arch : bool) (c : queryCache) : queryCache :=
  invalidateQueries [KString QUERY_KEYS_WAGERS] (setQueryData (wagerKey id) d c).

Definition useDeleteWager_onSuccess (id : Z) (c : queryCache) : queryCache :=
  invalidateQueries [KString QUERY_KEYS_WAGERS] (removeQueries (wagerKey id) c).

Definition useBulkUpdateStatus_onSuccess (c : queryCache) : queryCache :=
  invalidateQueries [KString QUERY_KEYS_WAGER]
    (invalidateQueries [KString QUERY_KEYS_WAGERS] c).

End QueryClient.

Arguments keyPart : clear implicits.
Arguments queryState : clear implicits.

Abbreviation queryCache Params Data :=
  (gmap (list (keyPart Params)) (queryState Data)).

End Hooks.

(* ===================================================================== *)
(** ** services/wagers.ts and pages/Wagers.tsx *)
(* ===================================================================== *)

Module Service.

(** The methods of [wagerService] that write. *)
Inductive serviceCall :=
| updateWagerStatus (id : Z) (st : WagerStatus)
| archiveWager (id : Z) (arch : bool)
| deleteWager (id : Z)
| bulkUpdateStatus (ids : list Z) (st : WagerStatus)
| bulkArchive (ids : list Z) (arch : bool)
| bulkDelete (ids : list Z).

Definition isBulk (c : serviceCall) : bool :=
  match c with
  | bulkUpdateStatus _ _ | bulkArchive _ _ | bulkDelete _ => true
  | _ => false
  end.

(** The page's handlers: each starts its single-item mutation, whose
    mutation function is one service call. *)
Definition handleWagerStatusUpdate (wagerId : Z) (st : WagerStatus) : list serviceCall :=
  [updateWagerStatus wagerId st].

Definition handleWagerArchive (wagerId : Z) (arch : bool) : list serviceCall :=
  [archiveWager wagerId arch].

Definition handleWagerDelete (wagerId : Z) : list serviceCall :=
  [deleteWager wagerId].

End Service.

(* ===================================================================== *)
(** ** components/wagers/WagerList.tsx *)
(* ===================================================================== *)

Module WagerList.

(** A JavaScript [Set] of wager ids: its elements in insertion order, each
    once. *)
Definition Set_add (s : list Z) (x : Z) : list Z :=
  if bool_decide (x ∈ s) then s else s ++ [x].

Definition Set_delete (s : list Z) (x : Z) : list Z :=
  List.filter (fun y => negb (bool_decide (y = x))) s.

Definition Set_of (l : list Z) : list Z := fold_left Set_add l [].

Section Component.

(** [E] is what a call of a handler prop does; a handler is a function
    from its arguments to the effects it performs, in order. *)
Context {E : Type}.

Record WagerListProps := {
  wagers : list Wager;
  onWagerStatusUpdate : Z -> WagerStatus -> list E;
  onWagerArchive : Z -> bool -> list E;
  onWagerDelete : Z -> list E;
  showBulkActions : bool;
}.

Record WagerListState := {
  showFilters : bool;
  selectedWagers : list Z;
  bulkMenuAnchor : bool;
}.

Definition initialState : WagerListState :=
  {| showFilters := false; selectedWagers := []; bulkMenuAnchor := false |}.

Definition setSelectedWagers (st : WagerListState) (sel : list Z) : WagerListState :=
  {| showFilters := showFilters st; selectedWagers := sel;
     bulkMenuAnchor := bulkMenuAnchor st |}.

Definition handleSelectAll (props : WagerListProps) (st : WagerListState) (checked : bool)
  : WagerListState :=
  if checked then setSelectedWagers st (Set_of (List.map id (wagers props)))
  else setSelectedWagers st [].

Definition handleSelectWager (st : WagerListState) (wagerId : Z) (checked : bool)
  : WagerListState :=
  if checked then setSelectedWagers st (Set_add (selectedWagers st) wagerId)
  else setSelectedWagers st (Set_delete (selectedWagers st) wagerId).

Definition handleBulkMenuOpen (st : WagerListState) : WagerListState :=
  {| showFilters := showFilters st; selectedWagers := selectedWagers st;
     bulkMenuAnchor := true |}.

Definition handleBulkMenuClose (st : WagerListState) : WagerListState :=
  {| showFilters := showFilters st; selectedWagers := selectedWagers st;
     bulkMenuAnchor := false |}.

(** [selectedWagers.forEach(f)]. *)
Definition forEach (sel : list Z) (f : Z -> list E) : list E :=
  flat_map f sel.

(** The bulk handlers return the effects of the handler calls they make
    and the next state. *)
Definition handleBulkStatusUpdate
  (props : WagerListProps) (st : WagerListState) (status : WagerStatus)
  : list E * WagerListState :=
  (forEach (selectedWagers st) (fun wagerId => onWagerStatusUpdate props wagerId status),
   handleBulkMenuClose (setSelectedWagers st [])).

Definition handleBulkArchive
  (props : WagerListProps) (st : WagerListState) (arch : bool)
  : list E * WagerListState :=
  (forEach (selectedWagers st) (fun wagerId => onWagerArchive props wagerId arch),
   handleBulkMenuClose (setSelectedWagers st [])).

Definition handleBulkDelete (props : WagerListProps) (st : WagerListState)
  : list E * WagerListState :=
  (forEach (selectedWagers st) (fun wagerId => onWagerDelete props wagerId),
   handleBulkMenuClose (setSelectedWagers st [])).

Definition hasSelection (st : WagerListState) : bool :=
  (0 <? length (selectedWagers st))%nat.

End Component.

Arguments WagerListProps : clear implicits.

(** The list as the Wagers page mounts it. *)
Definition pageProps (ws : list Wager) : WagerListProps Service.serviceCall :=
  {| wagers := ws;
     onWagerStatusUpdate := Service.handleWagerStatusUpdate;
     onWagerArchive := Service.handleWagerArchive;
     onWagerDelete := Service.handleWagerDelete;
     showBulkActions := true |}.

End WagerList.

(* ===================================================================== *)
(** ** services/socket.ts *)
(* ===================================================================== *)

Module Socket.

Record SocketService := {
  reconnectAttempts : nat;
  maxReconnectAttempts : nat;
}.

(** Field initialisers of the class. *)
Definition newSocketService : SocketService :=
  {| reconnectAttempts := 0; maxReconnectAttempts := 5 |}.

(** The socket events the service listens to. *)
Inductive event :=
| connect
| disconnect (reason : jsstring)
| connect_error.

(** [attemptReconnect]: the next state and the delays, in milliseconds, of
    the timers it sets; each timer calls [socket.connect()] when it
    fires. *)
Definition attemptReconnect (s : SocketService) : SocketService * list Z :=
  if (reconnectAttempts s <? maxReconnectAttempts s)%nat then
    let attempts := S (reconnectAttempts s) in
    let delay := (2 ^ Z.of_nat attempts * 1000)%Z in
    ({| reconnectAttempts := attempts;
        maxReconnectAttempts := maxReconnectAttempts s |}, [delay])
  else (s, []).

(** The listeners [setupEventListeners] registers. *)
Definition onEvent (s : SocketService) (e : event) : SocketService * list Z :=
  match e with
  | connect =>
      ({| reconnectAttempts := 0; maxReconnectAttempts := maxReconnectAttempts s |}, [])
  | disconnect reason =>
      if jseqb reason (str "io server disconnect") then (s, [])
      else attemptReconnect s
  | connect_error => attemptReconnect s
  end.

(** The service over a sequence of events: the final state and every
    timer set on the way, in order. *)
Fixpoint run (s : SocketService) (es : list event) : SocketService * list Z :=
  match es with
  | [] => (s, [])
  | e :: rest =>
      let '(s1, t1) := onEvent s e in
      let '(s2, t2) := run s1 rest in
      (s2, t1 ++ t2)
  end.

(** An event after which the service tries to reconnect. *)
Definition isFailure (e : event) : bool :=
  match e with
  | connect => false
  | disconnect reason => negb (jseqb reason (str "io server disconnect"))
  | connect_error => true
  end.

Definition isConnect (e : event) : bool :=
  match e with
  | connect => true
  | _ => false
  end.

End Socket.

(* ===================================================================== *)
(** ** components/layout/Navigation.tsx *)
(* ===================================================================== *)

Module Navigation.

Record NavigationItem := {
  label : string;
  path : jsstring;
  adminOnly : bool;
}.

Definition navigationItems : list NavigationItem :=
  [ {| label := "Dashboard"; path := str "/"; adminOnly := false |};
    {| label := "Wagers"; path := str "/wagers"; adminOnly := false |};
    {| label := "Live Tracking"; path := str "/live"; adminOnly := false |};
    {| label := "Analytics"; path := str "/analytics"; adminOnly := false |};
    {| label := "Admin"; path := str "/admin"; adminOnly := true |} ].

Inductive role := user | admin.

#[global] Instance role_eq_dec : EqDecision role.
Proof. solve_decision. Defined.

(** [navigationItems.filter(...)]: admin-only items are dropped unless the
    signed-in user is an admin. *)
Definition visibleItems (u : option role) : list NavigationItem :=
  List.filter
    (fun item =>
       if adminOnly item && negb (bool_decide (u = Some admin)) then false else true)
    navigationItems.

(** The predicate handed to [findIndex]. *)
Definition isCurrent (currentPath : jsstring) (item : NavigationItem) : bool :=
  if jseqb (path item) (str "/") then jseqb currentPath (str "/")
  else startsWith currentPath (path item).

(** [Array.prototype.findIndex]: the first index whose element passes, or
    [-1]. *)
Fixpoint findIndex {A} (p : A -> bool) (l : list A) : Z :=
  match l with
  | [] => (-1)%Z
  | x :: rest =>
      if p x then 0%Z
      else
        let i := findIndex p rest in
        if (i <? 0)%Z then (-1)%Z else (i + 1)%Z
  end.

Definition currentIndex (currentPath : jsstring) (items : list NavigationItem) : Z :=
  findIndex (isCurrent currentPath) items.

(** The [value] of the tab bar: [currentIndex >= 0 ? currentIndex : 0]. *)
Definition selectedTab (currentPath : jsstring) (items : list NavigationItem) : Z :=
  let i := currentIndex currentPath items in
  if (0 <=? i)%Z then i else 0%Z.

End Navigation.

(* ===================================================================== *)
(** ** Decimal text of integers *)
(* ===================================================================== *)

(** The decimal digits of a natural number, most significant first, with
    no leading zero; zero is the single digit 0. *)
Fixpoint decimalDigitsFrom (fuel : nat) (n : N) (acc : jsstring) : jsstring :=
  let acc' := (48 + n mod 10)%N :: acc in
  match fuel with
  | O => acc'
  | S fuel' => if (n / 10 =? 0)%N then acc' else decimalDigitsFrom fuel' (n / 10)%N acc'
  end.

Definition decimalDigits (n : N) : jsstring :=
  decimalDigitsFrom (N.size_nat n) n [].

(* ===================================================================== *)
(** ** services/auth.ts: the rest of [tokenStorage] *)
(* ===================================================================== *)

Module AuthService.

Import Auth.

(** [tokenStorage.setToken]. *)
Definition setToken (ls : localStorage) (token : jsstring) : localStorage :=
  setItem ls AUTH_STORAGE_KEYS_TOKEN token.

(** [tokenStorage.getRefreshToken]. *)
Definition getRefreshToken (ls : localStorage) : option jsstring :=
  getItem ls AUTH_STORAGE_KEYS_REFRESH_TOKEN.

(** [tokenStorage.setRefreshToken]. *)
Definition setRefreshToken (ls : localStorage) (token : jsstring) : localStorage :=
  setItem ls AUTH_STORAGE_KEYS_REFRESH_TOKEN token.

End AuthService.

(* ===================================================================== *)
(** ** utils/auth.ts: expiry date, roles and the authenticated user *)
(* ===================================================================== *)

Module AuthUtils.

Import Auth.

(** A [Date] object: its time value, in milliseconds; NaN is an invalid
    date. *)
Record Date := { timeValue : number }.

(** ToIntegerOrInfinity of a finite number, as a number: the fraction is
    dropped and a zero result is [+0]. *)
Definition truncate (x : number) : number :=
  match x with
  | S754_finite s m (Zneg k) =>
      let q := Z.shiftr (Zpos m) (Zpos k) in
      Num.of_Z (if s then - q else q)
  | S754_zero _ => Num.zero
  | _ => x
  end.

(** TimeClip: a time value beyond 8.64e15 milliseconds is no date. *)
Definition TimeClip (time : number) : number :=
  if negb (Num.isFinite time) then Num.NaN
  else if Num.ltb (Num.of_Z 8640000000000000) (Num.Math_abs time) then Num.NaN
  else truncate time.

(** [new Date(value)] for a value that is a number. *)
Definition newDate (value : number) : Date :=
  {| timeValue := TimeClip value |}.

(** The body of the [try] block of [getTokenExpiration]. *)
Definition getTokenExpirationBody (token : jsstring) : completion Date :=
  decoded ← atob (toStringOrUndefined (split (ch ".") token !! 1%nat));
  payload ← JSON_parse decoded;
  exp ← getProp payload (str "exp");
  seconds ← toNumber exp;
  mret (newDate (Num.mul seconds (Num.of_Z 1000))).

(** [getTokenExpiration(token)]: [None] is the [null] of the [catch]. *)
Definition getTokenExpiration (token : jsstring) : option Date :=
  tryCatch (d ← getTokenExpirationBody token; mret (Some d)) None.

(** [v === s] with a string on the right. *)
Definition strictEqualsString (v : value) (s : jsstring) : bool :=
  match v with
  | VString t => jseqb t s
  | _ => false
  end.

(** [hasRole(user, requiredRole)]. *)
Definition hasRole (user : value) (requiredRole : jsstring) : completion bool :=
  if negb (toBoolean user) then mret false
  else if jseqb requiredRole (str "admin") then
    role ← getProp user (str "role");
    mret (strictEqualsString role (str "admin"))
  else
    role ← getProp user (str "role");
    if strictEqualsString role (str "user") then mret true
    else
      role' ← getProp user (str "role");
      mret (strictEqualsString role' (str "admin")).

(** The decimal digits of an array index. *)
Definition indexKey (i : nat) : jsstring :=
  decimalDigits (N.of_nat i).

(** The own enumerable properties an object spread [{...v}] copies: those
    of an object, the indexed elements of an array, the indexed code units
    of a string, and none of any other primitive. *)
Definition ownProperties (v : value) : list (jsstring * value) :=
  match v with
  | VObject props => props
  | VArray elems => imap (fun i x => (indexKey i, x)) elems
  | VString s => imap (fun i c => (indexKey i, VString [c])) s
  | VUndefined | VNull | VBool _ | VNumber _ => []
  end.

(** [createAuthenticatedUser(user, token)]: [{ ...user, token }]. *)
Definition createAuthenticatedUser (user : value) (token : jsstring) : value :=
  VObject (setProp (ownProperties user) (str "token") (VString token)).

End AuthUtils.

(* ===================================================================== *)
(** ** contexts/AuthContext.tsx: the reducer *)
(* ===================================================================== *)

Module AuthContext.

(** [AuthState]; [user] and [error] are [null] ([VNull]) when unset. *)
Record AuthState := {
  user : value;
  isAuthenticated : bool;
  isLoading : bool;
  error : value;
}.

Inductive AuthAction :=
| LOGIN_START
| LOGIN_SUCCESS (payload : value)
| LOGIN_FAILURE (payload : value)
| LOGOUT
| REFRESH_TOKEN_SUCCESS (payload : jsstring)
| REFRESH_TOKEN_FAILURE
| CLEAR_ERROR
| SET_LOADING (payload : bool).

Definition initialState : AuthState :=
  {| user := VNull; isAuthenticated := false; isLoading := true; error := VNull |}.

Definition authReducer (state : AuthState) (action : AuthAction) : AuthState :=
  match action with
  | LOGIN_START =>
      {| user := user state; isAuthenticated := isAuthenticated state;
         isLoading := true; error := VNull |}
  | LOGIN_SUCCESS payload =>
      {| user := payload; isAuthenticated := true; isLoading := false; error := VNull |}
  | LOGIN_FAILURE payload =>
      {| user := VNull; isAuthenticated := false; isLoading := false; error := payload |}
  | LOGOUT =>
      {| user := VNull; isAuthenticated := false; isLoading := false; error := VNull |}
  | REFRESH_TOKEN_SUCCESS payload =>
      {| user :=
           if toBoolean (user state)
           then VObject (setProp (AuthUtils.ownProperties (user state))
                           (str "token") (VString payload))
           else VNull;
         isAuthenticated := isAuthenticated state;
         isLoading := false; error := VNull |}
  | REFRESH_TOKEN_FAILURE =>
      {| user := VNull; isAuthenticated := false; isLoading := false;
         error := VString (str "Session expired. Please log in again.") |}
  | CLEAR_ERROR =>
      {| user := user state; isAuthenticated := isAuthenticated state;
         isLoading := isLoading state; error := VNull |}
  | SET_LOADING payload =>
      {| user := user state; isAuthenticated := isAuthenticated state;
         isLoading := payload; error := error state |}
  end.

(** The state after a sequence of dispatches. *)
Definition dispatchAll (state : AuthState) (actions : list AuthAction) : AuthState :=
  fold_left authReducer actions state.

End AuthContext.

(* ===================================================================== *)
(** ** hooks/useWagers.ts: the other bulk mutations *)
(* ===================================================================== *)

Module BulkHooks.

Import Hooks.

Section QueryClient.

Context {Params : Type} `{Countable Params}.
Context {Data : Type}.

(** [useBulkArchive]: both families of queries are invalidated. *)
Definition useBulkArchive_onSuccess (c : queryCache Params Data) : queryCache Params Data :=
  invalidateQueries [KString QUERY_KEYS_WAGER]
    (invalidateQueries [KString QUERY_KEYS_WAGERS] c).

(** [useBulkDelete]: [ids.forEach] removes the entry of each deleted
    wager, then the list is invalidated. *)
Definition useBulkDelete_onSuccess (ids : list Z) (c : queryCache Params Data)
  : queryCache Params Data :=
  invalidateQueries [KString QUERY_KEYS_WAGERS]
    (fold_left (fun cache id => removeQueries (wagerKey id) cache) ids c).

End QueryClient.

End BulkHooks.

(* ===================================================================== *)
(** ** components/layout/Navigation.tsx: tab clicks *)
(* ===================================================================== *)

Module NavigationEvents.

Import Navigation.

(** The [onChange] of the tab bar: the path handed to [navigate] when
    [visibleItems[newValue]] is an item, and nothing otherwise. *)
Definition onChange (items : list NavigationItem) (newValue : nat) : option jsstring :=
  match items !! newValue with
  | Some item => Some (path item)
  | None => None
  end.

End NavigationEvents.

(* ===================================================================== *)
(** ** components/wagers/WagerList.tsx: selection state and the cards *)
(* ===================================================================== *)

Module WagerListView.

Import WagerList.

Section View.

Context {E : Type}.

(** [wagers.length > 0 && selectedWagers.size === wagers.length]. *)
Definition allSelected (props : WagerListProps E) (st : WagerListState) : bool :=
  (0 <? length (wagers props))%nat
  && (length (selectedWagers st) =? length (wagers props))%nat.

(** [selectedWagers.size > 0 && selectedWagers.size < wagers.length]. *)
Definition someSelected (props : WagerListProps E) (st : WagerListState) : bool :=
  (0 <? length (selectedWagers st))%nat
  && (length (selectedWagers st) <? length (wagers props))%nat.

(** [selectedWagers.has(wager.id)], the state of a card's checkbox. *)
Definition checked (st : WagerListState) (wager : Wager) : bool :=
  bool_decide (id wager ∈ selectedWagers st).

(** The props the grid hands to the card of one wager: with bulk actions
    on, [showActions={!hasSelection}]; without, [showActions] is left to
    its default.  [onWagerEdit] says whether the list got an edit
    handler. *)
Definition cardProps
  (props : WagerListProps E) (onWagerEdit : bool) (st : WagerListState) (wager : Wager)
  : WagerUI.WagerCardProps :=
  {| WagerUI.card_wager := wager;
     WagerUI.card_onEdit := onWagerEdit;
     WagerUI.card_showActions :=
       if showBulkActions props then Some (negb (hasSelection st)) else None;
     WagerUI.card_loading := None |}.

End View.

End WagerListView.

(* ===================================================================== *)
(** ** components/wagers/WagerCard.tsx: handlers and clicks *)
(* ===================================================================== *)

Module WagerCardEvents.

Import WagerUI.

Section Handlers.

(** [E] is what a call of a handler prop does. *)
Context {E : Type}.

Record WagerCardHandlers := {
  onStatusUpdate : Z -> WagerStatus -> list E;
  onArchive : Z -> bool -> list E;
  onDelete : Z -> list E;
  onEdit : option (Wager -> list E);
}.

(** Each handler returns the effects of the call it makes and the next
    state of the card. *)
Definition handleStatusUpdate
  (h : WagerCardHandlers) (wager : Wager) (st : WagerCardState) (status : WagerStatus)
  : list E * WagerCardState :=
  (onStatusUpdate h (id wager) status, handleStatusMenuClose st).

Definition handleArchive (h : WagerCardHandlers) (wager : Wager) (st : WagerCardState)
  : list E * WagerCardState :=
  (onArchive h (id wager) (negb (archived wager)), handleMenuClose st).

Definition handleDelete (h : WagerCardHandlers) (wager : Wager) (st : WagerCardState)
  : list E * WagerCardState :=
  (onDelete h (id wager), handleMenuClose st).

Definition handleEdit (h : WagerCardHandlers) (wager : Wager) (st : WagerCardState)
  : list E * WagerCardState :=
  (match onEdit h with Some edit => edit wager | None => [] end, handleMenuClose st).

(** What a user can do to a card: click one of its two buttons, click an
    item of one of its two menus, or dismiss a menu. *)
Inductive click :=
| ClickActionsButton
| ClickUpdateStatus
| ClickActionsItem (label : string)
| ClickStatusItem (target : WagerStatus)
| DismissActionsMenu
| DismissStatusMenu.

(** An enabled button of the tree. *)
Definition hasActionsButton (tree : list element) : bool :=
  existsb (fun e => match e with
                    | EIconButton label disabled =>
                        String.eqb label "Wager actions" && negb disabled
                    | _ => false
                    end) tree.

Definition hasUpdateStatusButton (tree : list element) : bool :=
  existsb (fun e => match e with
                    | EUpdateStatusButton disabled => negb disabled
                    | _ => false
                    end) tree.

(** An item of a menu that is open. *)
Definition hasActionsItem (label : string) (tree : list element) : bool :=
  existsb (fun e => match e with
                    | EActionsMenu open items =>
                        open && existsb (String.eqb label) items
                    | _ => false
                    end) tree.

Definition hasStatusItem (target : WagerStatus) (tree : list element) : bool :=
  existsb (fun e => match e with
                    | EStatusMenu open targets =>
                        open && existsb (fun t => bool_decide (t = target)) targets
                    | _ => false
                    end) tree.

(** One click on the rendered card: [None] when the element clicked is
    not on the page (or is disabled); otherwise the [onClick] or
    [onClose] wired to it runs. *)
Definition onClick
  (h : WagerCardHandlers) (props : WagerCardProps) (st : WagerCardState) (c : click)
  : option (list E * WagerCardState) :=
  let tree := WagerCard props st in
  let wager := card_wager props in
  match c with
  | ClickActionsButton =>
      if hasActionsButton tree then Some ([], handleMenuOpen st) else None
  | ClickUpdateStatus =>
      if hasUpdateStatusButton tree then Some ([], handleStatusMenuOpen st) else None
  | ClickActionsItem label =>
      if hasActionsItem label tree then
        if String.eqb label "Edit" then Some (handleEdit h wager st)
        else if String.eqb label "Delete" then Some (handleDelete h wager st)
        else Some (handleArchive h wager st)
      else None
  | ClickStatusItem target =>
      if hasStatusItem target tree then Some (handleStatusUpdate h wager st target)
      else None
  | DismissActionsMenu =>
      if anchorEl st then Some ([], handleMenuClose st) else None
  | DismissStatusMenu =>
      if statusMenuAnchor st then Some ([], handleStatusMenuClose st) else None
  end.

(** A sequence of clicks on a card whose props stay the same: the effects
    of all handler calls, in order, and the last state; a click that is not
    possible is skipped. *)
Fixpoint clicks
  (h : WagerCardHandlers) (props : WagerCardProps) (st : WagerCardState) (cs : list click)
  : list E * WagerCardState :=
  match cs with
  | [] => ([], st)
  | c :: rest =>
      match onClick h props st c with
      | Some (effects, st1) =>
          let '(effects', st2) := clicks h props st1 rest in
          (effects ++ effects', st2)
      | None => clicks h props st rest
      end
  end.

End Handlers.

Arguments WagerCardHandlers : clear implicits.

End WagerCardEvents.

(* ===================================================================== *)
(** ** components/auth/ProtectedRoute.tsx *)
(* ===================================================================== *)

Module Routes.

Import AuthContext.

(** What a protected route renders. *)
Inductive routeView :=
| CheckingAuthentication
| NavigateTo (to : jsstring)
| AccessDenied
| Children.

(** [ProtectedRoute]; [requiredRole] is [None] when the prop is left out,
    and [redirectTo] defaults to [/login]. *)
Definition ProtectedRoute
  (auth : AuthState) (requiredRole : option jsstring) (redirectTo : option jsstring)
  : completion routeView :=
  if isLoading auth then mret CheckingAuthentication
  else if negb (isAuthenticated auth) || negb (toBoolean (user auth)) then
    mret (NavigateTo (default (str "/login") redirectTo))
  else
    match requiredRole with
    | Some required =>
        if toBoolean (VString required) then
          role ← getProp (user auth) (str "role");
          if negb (AuthUtils.strictEqualsString role required) then
            if jseqb required (str "admin") then
              role' ← getProp (user auth) (str "role");
              if negb (AuthUtils.strictEqualsString role' (str "admin"))
              then mret AccessDenied
              else mret Children
            else mret Children
          else mret Children
        else mret Children
    | None => mret Children
    end.

(** [AdminRoute] and [AuthenticatedRoute]. *)
Definition AdminRoute (auth : AuthState) : completion routeView :=
  ProtectedRoute auth (Some (str "admin")) None.

Definition AuthenticatedRoute (auth : AuthState) : completion routeView :=
  ProtectedRoute auth None None.

End Routes.

(* ===================================================================== *)
(** ** services/auth.ts: the interceptors and [authService] *)
(* ===================================================================== *)

Module AuthApi.

Import Auth AuthService.

(** How a request to the backend ends: its promise resolves, here with
    the [access_token] of the response body, or rejects with a reason. *)
Inductive settled (A : Type) :=
| Resolved (a : A)
| Rejected (reason : value).
Arguments Resolved {A} a.
Arguments Rejected {A} reason.

(** [axios.post('/auth/refresh', { refresh_token })], as a function of
    the refresh token sent. *)
Definition refreshEndpoint : Type := jsstring -> settled jsstring.

(** A request configuration, as far as the interceptors touch it. *)
Record requestConfig := {
  Authorization : option jsstring;
  _retry : bool;
}.

(** The request interceptor: [Bearer] and the token, when one is
    stored. *)
Definition onRequest (ls : localStorage) (config : requestConfig) : requestConfig :=
  match getToken ls with
  | Some token =>
      if toBoolean (VString token)
      then {| Authorization := Some (str "Bearer " ++ token); _retry := _retry config |}
      else config
  | None => config
  end.

(** What the response interceptor returns for a failed request: the
    rejection it passes on, or the original request sent again. *)
Inductive recovery :=
| Reject (reason : value)
| SendAgain (config : requestConfig).

Record intercepted := {
  storage : localStorage;
  location : option jsstring;      (* [window.location.href], when set *)
  config : requestConfig;          (* [error.config] afterwards *)
  result : recovery;
}.

(** The response interceptor for a failed request; [error] is the error
    object and [originalRequest] its [config]. *)
Definition onResponseError
  (post : refreshEndpoint) (ls : localStorage) (error : value)
  (originalRequest : requestConfig) : completion intercepted :=
  status ← responseStatus error;
  if strictEqualsNumber status (Num.of_Z 401) && negb (_retry originalRequest) then
    let originalRequest :=
      {| Authorization := Authorization originalRequest; _retry := true |} in
    match getRefreshToken ls with
    | Some refreshToken =>
        if toBoolean (VString refreshToken) then
          match post refreshToken with
          | Resolved access_token =>
              let originalRequest :=
                {| Authorization := Some (str "Bearer " ++ access_token);
                   _retry := _retry originalRequest |} in
              mret {| storage := setToken ls access_token; location := None;
                      config := originalRequest; result := SendAgain originalRequest |}
          | Rejected refreshError =>
              mret {| storage := clearAll ls; location := Some (str "/login");
                      config := originalRequest; result := Reject refreshError |}
          end
        else
          mret {| storage := ls; location := None;
                  config := originalRequest; result := Reject error |}
    | None =>
        mret {| storage := ls; location := None;
                config := originalRequest; result := Reject error |}
    end
  else
    mret {| storage := ls; location := None;
            config := originalRequest; result := Reject error |}.

(** The [Error] that [authService.refreshToken] throws. *)
Definition noRefreshToken : value :=
  VObject [(str "message", VString (str "No refresh token available"))].

(** [authService.refreshToken]. *)
Definition refreshToken (post : refreshEndpoint) (ls : localStorage) : settled jsstring :=
  match getRefreshToken ls with
  | Some refreshToken =>
      if toBoolean (VString refreshToken) then post refreshToken
      else Rejected noRefreshToken
  | None => Rejected noRefreshToken
  end.

(** [authService.logout]: whether or not the request to the server
    succeeded, the [finally] block clears the storage; what the response
    interceptor may have stored meanwhile is under the keys cleared. *)
Definition logout (serverAnswer : settled unit) (ls : localStorage) : localStorage :=
  clearAll ls.

End AuthApi.

(* ===================================================================== *)
(** ** contexts/AuthContext.tsx: the provider's functions *)
(* ===================================================================== *)

Module AuthProvider.

Import Auth AuthService AuthContext.

(** What a function of the provider leaves behind: the storage, the
    actions it dispatched, in order, and the reason it rejected with, if it
    did. *)
Record outcome := {
  storage : localStorage;
  dispatched : list AuthAction;
  rejected : option value;
}.

(** The exception objects of the language, as rejection reasons. *)
Definition errorValue (e : JS.error) : value :=
  VObject [(str "name",
            VString (match e with
                     | TypeError => str "TypeError"
                     | SyntaxError => str "SyntaxError"
                     | InvalidCharacterError => str "InvalidCharacterError"
                     end))].

(** [initializeAuth], run once when the provider mounts; [dateNow] is
    the clock. *)
Definition initializeAuth
  (dateNow : number) (post : AuthApi.refreshEndpoint) (ls : localStorage) : outcome :=
  let token := getToken ls in
  match getUser ls with
  | Throw e => {| storage := ls; dispatched := []; rejected := Some (errorValue e) |}
  | Return user =>
      match token with
      | Some token =>
          if toBoolean (VString token) && toBoolean user then
            if isTokenExpired dateNow token then
              match AuthApi.refreshToken post ls with
              | AuthApi.Resolved newToken =>
                  {| storage := setToken ls newToken;
                     dispatched :=
                       [LOGIN_SUCCESS (AuthUtils.createAuthenticatedUser user newToken)];
                     rejected := None |}
              | AuthApi.Rejected _ =>
                  {| storage := clearAll ls;
                     dispatched := [REFRESH_TOKEN_FAILURE];
                     rejected := None |}
              end
            else
              {| storage := ls;
                 dispatched := [LOGIN_SUCCESS (AuthUtils.createAuthenticatedUser user token)];
                 rejected := None |}
          else {| storage := ls; dispatched := [SET_LOADING false]; rejected := None |}
      | None => {| storage := ls; dispatched := [SET_LOADING false]; rejected := None |}
      end
  end.

(** [logout] of the context. *)
Definition logout (serverAnswer : AuthApi.settled unit) (ls : localStorage) : outcome :=
  {| storage := AuthApi.logout serverAnswer ls; dispatched := [LOGOUT]; rejected := None |}.

(** [refreshToken] of the context. *)
Definition refreshToken (post : AuthApi.refreshEndpoint) (ls : localStorage) : outcome :=
  match AuthApi.refreshToken post ls with
  | AuthApi.Resolved newToken =>
      {| storage := setToken ls newToken;
         dispatched := [REFRESH_TOKEN_SUCCESS newToken]; rejected := None |}
  | AuthApi.Rejected reason =>
      {| storage := clearAll ls;
         dispatched := [REFRESH_TOKEN_FAILURE]; rejected := Some reason |}
  end.

End AuthProvider.

(* ===================================================================== *)
(** ** Regular expressions of the helpers *)
(* ===================================================================== *)

Module RegExp.

(** The patterns the helpers use are sequences of character classes, each
    taken once, optionally, or one or more times (greedily). *)
Inductive quantifier := Once | Optional | OneOrMore.

Record term := {
  class : jschar -> bool;
  quantified : quantifier;
}.

(** A greedy run of a class: the longest run is tried first, then shorter
    ones, until what follows matches; [continue] is the rest of the
    pattern. *)
Fixpoint greedy {A} (cls : jschar -> bool) (continue : jsstring -> option A)
  (s : jsstring) : option A :=
  match s with
  | c :: r =>
      if cls c then
        match greedy cls continue r with
        | Some a => Some a
        | None => continue s
        end
      else continue s
  | [] => continue []
  end.

(** The backtracking matcher: the terms are matched at the front of [s]
    and [continue] receives what is left of it. *)
Fixpoint matchTerms {A} (p : list term) (s : jsstring) (continue : jsstring -> option A)
  : option A :=
  match p with
  | [] => continue s
  | t :: p' =>
      let one :=
        match s with
        | c :: r => if class t c then Some r else None
        | [] => None
        end in
      match quantified t with
      | Once =>
          match one with
          | Some r => matchTerms p' r continue
          | None => None
          end
      | Optional =>
          match one with
          | Some r =>
              match matchTerms p' r continue with
              | Some a => Some a
              | None => matchTerms p' s continue
              end
          | None => matchTerms p' s continue
          end
      | OneOrMore =>
          match one with
          | Some r => greedy (class t) (fun r' => matchTerms p' r' continue) r
          | None => None
          end
      end
  end.

(** [/^p$/.test(s)]. *)
Definition testWhole (p : list term) (s : jsstring) : bool :=
  match matchTerms p s (fun r => match r with [] => Some tt | _ :: _ => None end) with
  | Some _ => true
  | None => false
  end.

(** [s.match(/(p)/)]: the first position, from the left, at which the
    pattern matches; the result is the text matched, which is also the
    first group. *)
Fixpoint firstMatch (p : list term) (s : jsstring) : option jsstring :=
  match matchTerms p s Some with
  | Some rest => Some (firstn (length s - length rest) s)
  | None =>
      match s with
      | _ :: r => firstMatch p r
      | [] => None
      end
  end.

End RegExp.

(* ===================================================================== *)
(** ** utils/helpers.ts: betting lines and e-mail addresses *)
(* ===================================================================== *)

Module LineHelpers.

Import RegExp.

(** [parseInt(text)] of a text that is an optional sign and decimal
    digits: the integer read, as a Number. *)
Definition parseInt (text : jsstring) : number :=
  match text with
  | c :: r =>
      if (c =? ch "-")%N then Num.of_decimal true (Lex.digitsValue r) 0
      else if (c =? ch "+")%N then Num.of_decimal false (Lex.digitsValue r) 0
      else Num.of_decimal false (Lex.digitsValue text) 0
  | [] => Num.NaN
  end.

Definition isSign (c : jschar) : bool := ((c =? ch "+") || (c =? ch "-"))%N.

(** [/([+-]?\d+)/]. *)
Definition americanOdds : list term :=
  [ {| class := isSign; quantified := Optional |};
    {| class := Lex.isDigit; quantified := OneOrMore |} ].

Record BettingLine := {
  odds : number;
  type : jsstring;
}.

(** [parseBettingLine(line)]. *)
Definition parseBettingLine (line : jsstring) : option BettingLine :=
  match firstMatch americanOdds line with
  | Some americanOddsMatch =>
      Some {| odds := parseInt americanOddsMatch; type := str "american" |}
  | None => None
  end.

(** [[^\s@]]: any code unit but white space and the at sign. *)
Definition notSpaceNorAt (c : jschar) : bool :=
  negb (Lex.isStrWhiteSpaceChar c || (c =? ch "@")%N).

(** [/^[^\s@]+@[^\s@]+\.[^\s@]+$/]. *)
Definition emailRegex : list term :=
  [ {| class := notSpaceNorAt; quantified := OneOrMore |};
    {| class := fun c => (c =? ch "@")%N; quantified := Once |};
    {| class := notSpaceNorAt; quantified := OneOrMore |};
    {| class := fun c => (c =? ch ".")%N; quantified := Once |};
    {| class := notSpaceNorAt; quantified := OneOrMore |} ].

(** [isValidEmail(email)]. *)
Definition isValidEmail (email : jsstring) : bool :=
  testWhole emailRegex email.

End LineHelpers.

(* ===================================================================== *)
(** ** [JSON.stringify] and [tokenStorage.setUser] *)
(* ===================================================================== *)

Module JsonText.

(** The data the application serializes: the user record the server
    sends, whose numbers are integers (its [id]).  The members of an
    object are listed in the order in which they were created. *)
Inductive json :=
| JNull
| JBool (b : bool)
| JInteger (z : Z)
| JString (s : jsstring)
| JArray (elems : list json)
| JObject (members : list (jsstring * json)).

(** The own properties of an object created with the given members, in
    the order of its own property keys. *)
Definition ownOrder {A} (members : list (jsstring * A)) : list (jsstring * A) :=
  fold_left (fun props kv => createDataProperty props kv.1 kv.2) members [].

(** The data with the members of every object in the order of its own
    property keys, which is the order every enumeration follows. *)
Fixpoint ownPropertyOrder (j : json) : json :=
  match j with
  | JArray elems => JArray (List.map ownPropertyOrder elems)
  | JObject members =>
      JObject
        (ownOrder
           (List.map (fun kv => match kv with (k, v) => (k, ownPropertyOrder v) end)
              members))
  | JNull | JBool _ | JInteger _ | JString _ => j
  end.

(** The value of data whose members are listed in own-property order. *)
Fixpoint listedValue (j : json) : value :=
  match j with
  | JNull => VNull
  | JBool b => VBool b
  | JInteger z => VNumber (Num.of_Z z)
  | JString s => VString s
  | JArray elems => VArray (List.map listedValue elems)
  | JObject members =>
      VObject (List.map (fun kv => match kv with (k, v) => (k, listedValue v) end) members)
  end.

(** The value a piece of data is at run time. *)
Definition toValue (j : json) : value := listedValue (ownPropertyOrder j).

(** A lower-case hexadecimal digit. *)
Definition hexDigit (n : N) : jschar :=
  if (n <? 10)%N then (48 + n)%N else (87 + n)%N.

(** The escape [\uXXXX] of a code unit. *)
Definition unicodeEscape (c : jschar) : jsstring :=
  [92; 117; hexDigit (c / 4096); hexDigit ((c / 256) mod 16);
   hexDigit ((c / 16) mod 16); hexDigit (c mod 16)]%N.

Definition isLeadingSurrogate (c : jschar) : bool := (55296 <=? c)%N && (c <=? 56319)%N.
Definition isTrailingSurrogate (c : jschar) : bool := (56320 <=? c)%N && (c <=? 57343)%N.

(** One code unit that is not half of a surrogate pair, as
    QuoteJSONString writes it. *)
Definition quoteCodeUnit (c : jschar) : jsstring :=
  if (c =? 8)%N then str "\b"
  else if (c =? 9)%N then str "\t"
  else if (c =? 10)%N then str "\n"
  else if (c =? 12)%N then str "\f"
  else if (c =? 13)%N then str "\r"
  else if (c =? 34)%N then [92; 34]%N
  else if (c =? 92)%N then [92; 92]%N
  else if (c <? 32)%N || isLeadingSurrogate c || isTrailingSurrogate c
  then unicodeEscape c
  else [c].

(** The code units between the quotes: a surrogate pair is written as it
    is, a lone surrogate is escaped. *)
Fixpoint quoteCodeUnits (s : jsstring) : jsstring :=
  match s with
  | [] => []
  | c :: r =>
      if isLeadingSurrogate c then
        match r with
        | d :: r' =>
            if isTrailingSurrogate d then c :: d :: quoteCodeUnits r'
            else unicodeEscape c ++ quoteCodeUnits r
        | [] => unicodeEscape c
        end
      else quoteCodeUnit c ++ quoteCodeUnits r
  end.

(** QuoteJSONString. *)
Definition quote (s : jsstring) : jsstring :=
  [34%N] ++ quoteCodeUnits s ++ [34%N].

(** Number::toString of an integer. *)
Definition integerText (z : Z) : jsstring :=
  if (z <? 0)%Z then ch "-" :: decimalDigits (Z.to_N (- z))
  else decimalDigits (Z.to_N z).

Fixpoint joinComma (parts : list jsstring) : jsstring :=
  match parts with
  | [] => []
  | [p] => p
  | p :: rest => p ++ ch "," :: joinComma rest
  end.

(** SerializeJSONProperty, with no indentation, of data whose members are
    listed in own-property order. *)
Fixpoint stringify (j : json) : jsstring :=
  match j with
  | JNull => str "null"
  | JBool b => if b then str "true" else str "false"
  | JInteger z => integerText z
  | JString s => quote s
  | JArray elems => ch "[" :: joinComma (List.map stringify elems) ++ [ch "]"]
  | JObject members =>
      ch "{"
      :: joinComma
           (List.map (fun kv => match kv with (k, v) => quote k ++ ch ":" :: stringify v end)
              members)
      ++ [ch "}"]
  end.

(** [JSON.stringify(value)]: the properties of every object are written
    in the order of its own property keys. *)
Definition JSON_stringify (j : json) : jsstring := stringify (ownPropertyOrder j).

(** [tokenStorage.setUser]. *)
Definition setUser (ls : Auth.localStorage) (user : json) : Auth.localStorage :=
  Auth.setItem ls Auth.AUTH_STORAGE_KEYS_USER (JSON_stringify user).

End JsonText.

(* ===================================================================== *)
(** ** contexts/AuthContext.tsx: [login] *)
(* ===================================================================== *)

Module AuthLogin.

Import Auth AuthService.

(** The body of the response to a login, as far as [login] reads it. *)
Record LoginResponse := {
  user : JsonText.json;
  access_token : jsstring;
}.

(** [login] of the context; [answer] is how [authService.login] settled
    and [ls] the storage at that moment. *)
Definition login (answer : AuthApi.settled LoginResponse) (ls : localStorage)
  : AuthProvider.outcome :=
  match answer with
  | AuthApi.Resolved response =>
      let authenticatedUser :=
        AuthUtils.createAuthenticatedUser
          (JsonText.toValue (user response)) (access_token response) in
      {| AuthProvider.storage :=
           JsonText.setUser (setToken ls (access_token response)) (user response);
         AuthProvider.dispatched :=
           [AuthContext.LOGIN_START; AuthContext.LOGIN_SUCCESS authenticatedUser];
         AuthProvider.rejected := None |}
  | AuthApi.Rejected error =>
      match formatAuthError error with
      | Return errorMessage =>
          {| AuthProvider.storage := ls;
             AuthProvider.dispatched :=
               [AuthContext.LOGIN_START; AuthContext.LOGIN_FAILURE errorMessage];
             AuthProvider.rejected := Some error |}
      | Throw e =>
          {| AuthProvider.storage := ls;
             AuthProvider.dispatched := [AuthContext.LOGIN_START];
             AuthProvider.rejected := Some (AuthProvider.errorValue e) |}
      end
  end.

End AuthLogin.

(* ===================================================================== *)
(** ** Vocabulary of the properties, and sample data *)
(* ===================================================================== *)

(** Text with double quotes is written with apostrophes in their place. *)
Definition quoted (s : string) : jsstring :=
  List.map (fun c => if (c =? 39)%N then 34%N else c) (str s).

(** Character and string literals are closed terms: evaluate them where
    they stand. *)
Ltac eval_literals :=
  repeat match goal with
         | |- context [ch ?a] =>
             let v := eval vm_compute in (ch a) in change (ch a) with v
         | |- context [str ?a] =>
             let v := eval vm_compute in (str a) in change (str a) with v
         end.

(** *** Wagers *)

(** A pending wager that is not archived, as the list shows it. *)
Definition sampleWager : Wager :=
  {| id := 1; description := str "Lakers ML"; amount := Num.of_Z 100;
     line := str "-110"; status := pending;
     isFrePlay := false; isLiveBet := false; autoCalculate := false;
     liveTrackingEnabled := false; archived := false;
     legs := []; matchup := None; payout := None; liveScore := None |}.

(** The same wager once archived. *)
Definition archivedWager : Wager :=
  {| id := 1; description := str "Lakers ML"; amount := Num.of_Z 100;
     line := str "-110"; status := pending;
     isFrePlay := false; isLiveBet := false; autoCalculate := false;
     liveTrackingEnabled := false; archived := true;
     legs := []; matchup := None; payout := None; liveScore := None |}.

(** The card of [sampleWager] while the list has a bulk selection: the list
    passes [showActions = false]. *)
Definition cardInSelection : WagerUI.WagerCardProps :=
  {| WagerUI.card_wager := sampleWager; WagerUI.card_onEdit := true;
     WagerUI.card_showActions := Some false; WagerUI.card_loading := None |}.

(** *** Stored user and tokens *)

(** A stored user record cut short, as a crashed write could leave it. *)
Definition truncatedUser : jsstring := quoted "{'id':1,'username':'ann'".

Definition storedUser : jsstring :=
  quoted "{'id':1,'username':'ann','role':'admin'}".

(** The middle segment of a token as [atob] receives it. *)
Definition middleSegment (token : jsstring) : jsstring :=
  toStringOrUndefined (split (ch ".") token !! 1%nat).

(** A token whose payload is [{"exp":1700000000}]. *)
Definition tokenExp1700000000 : jsstring :=
  str "header.eyJleHAiOjE3MDAwMDAwMDB9.signature".



(** The JSON values that are neither [null] nor an object: booleans,
    numbers, strings and arrays. *)
Definition isNotObject (v : value) : bool :=
  match v with
  | VBool _ | VNumber _ | VString _ | VArray _ => true
  | VUndefined | VNull | VObject _ => false
  end.

(** A token whose payload is the JSON text [null]. *)
Definition tokenNull : jsstring := str "header.bnVsbA==.signature".

(** What a successful parse with some fuel says about every larger fuel:
    the rest is shorter than the text, and twice the number of characters
    consumed is fuel enough for the same result. *)
Definition stable {X} (parse : nat -> jsstring -> X -> option (value * jsstring))
  (f : nat) : Prop :=
  forall s x v r,
    parse f s x = Some (v, r) ->
    (length r < length s)%nat
    /\ forall f', (2 * (length s - length r) <= f')%nat -> parse f' s x = Some (v, r).

(** *** Authentication errors *)

(** The field [k] of [v] as an optional chain reads it: [undefined] when
    [v] is [null] or [undefined] or has no such field. *)
Definition field (v : value) (k : string) : value :=
  match optProp v (str k) with
  | Return x => x
  | Throw _ => VUndefined
  end.





(** *** Reconnect timers *)

(** The delay of attempt [k], in milliseconds. *)
Definition backoff (k : nat) : Z := (2 ^ Z.of_nat k * 1000)%Z.

(** The timers set by [n] failures in a row when [a] attempts were already
    made: attempts [a+1], [a+2], ... up to the fifth. *)
Definition timersAfter (a n : nat) : list Z :=
  List.map backoff (seq (S a) (Nat.min n (5 - a))).

(** The attempt counter after [n] failures in a row, from [a]. *)
Definition attemptsAfter (a n : nat) : nat :=
  if (a <? 5)%nat then Nat.min 5 (a + n) else a.

(** How many events of a trace make the service try to reconnect. *)
Definition failures (es : list Socket.event) : nat :=
  length (List.filter Socket.isFailure es).

(** *** Bulk actions *)

Definition occurrences {A} `{EqDecision A} (x : A) (l : list A) : nat :=
  length (List.filter (fun y => bool_decide (y = x)) l).

(** A list whose status handler records the arguments of each call. *)
Definition recordingProps (ws : list Wager) : WagerList.WagerListProps (Z * WagerStatus) :=
  {| WagerList.wagers := ws;
     WagerList.onWagerStatusUpdate := fun wagerId st => [(wagerId, st)];
     WagerList.onWagerArchive := fun _ _ => [];
     WagerList.onWagerDelete := fun _ => [];
     WagerList.showBulkActions := true |}.

(** *** Query cache *)

(** A cache holding wagers 1 and 2 and one page of the list; the cached
    data is the status the server last reported. *)
Definition sampleCache : Hooks.queryCache nat WagerStatus :=
  <[Hooks.wagerKey 1 := {| Hooks.data := Some pending; Hooks.isInvalidated := false |}]>
    (<[Hooks.wagerKey 2 := {| Hooks.data := Some pending; Hooks.isInvalidated := false |}]>
       (<[Hooks.wagersKey 0%nat := {| Hooks.data := Some pending; Hooks.isInvalidated := false |}]>
          ∅)).

(** *** The authentication state *)

(** The user a [LOGIN_SUCCESS] carries is an object, as
    [createAuthenticatedUser] builds it; every other action is free. *)
Definition carriesUser (a : AuthContext.AuthAction) : bool :=
  match a with
  | AuthContext.LOGIN_SUCCESS payload => toBoolean payload
  | _ => true
  end.

Definition isLoginSuccess (a : AuthContext.AuthAction) : bool :=
  match a with
  | AuthContext.LOGIN_SUCCESS _ => true
  | _ => false
  end.

(** The actions that end a session. *)
Definition endsSession (a : AuthContext.AuthAction) : bool :=
  match a with
  | AuthContext.LOGIN_FAILURE _ | AuthContext.LOGOUT
  | AuthContext.REFRESH_TOKEN_FAILURE => true
  | _ => false
  end.

(** A key of [localStorage] that [tokenStorage] does not use. *)
Definition foreignKey (k : jsstring) : Prop :=
  k <> Auth.AUTH_STORAGE_KEYS_TOKEN
  /\ k <> Auth.AUTH_STORAGE_KEYS_REFRESH_TOKEN
  /\ k <> Auth.AUTH_STORAGE_KEYS_USER.

(** *** Families of queries *)

(** The entries of the wager list, under [['wagers', ...]], and those of
    single wagers, under [['wager', ...]]. *)
Definition isListKey {Params} `{Countable Params} (k : list (Hooks.keyPart Params)) : bool :=
  Hooks.partialMatchKey k [Hooks.KString Hooks.QUERY_KEYS_WAGERS].

Definition isWagerKey {Params} `{Countable Params} (k : list (Hooks.keyPart Params)) : bool :=
  Hooks.partialMatchKey k [Hooks.KString Hooks.QUERY_KEYS_WAGER].

(** An entry marked invalidated, its data kept. *)
Definition invalidated {Data} (entry : Hooks.queryState Data) : Hooks.queryState Data :=
  {| Hooks.data := Hooks.data entry; Hooks.isInvalidated := true |}.

(** *** Traces of socket events *)

(** How many [connect] events a trace holds. *)
Definition connects (es : list Socket.event) : nat :=
  length (List.filter Socket.isConnect es).

(** Each delay of the list is twice the one before it, or starts over at
    two seconds. *)
Fixpoint doubling (timers : list Z) : Prop :=
  match timers with
  | d :: ((d' :: _) as rest) => (d' = 2 * d \/ d' = 2000)%Z /\ doubling rest
  | _ => True
  end.

(** *** Cards and their handlers *)

(** What a card's handlers were called with. *)
Inductive cardCall :=
| StatusUpdateCall (wagerId : Z) (st : WagerStatus)
| ArchiveCall (wagerId : Z) (arch : bool)
| DeleteCall (wagerId : Z)
| EditCall (wagerId : Z).

(** Handlers that record each call. *)
Definition recordingHandlers : WagerCardEvents.WagerCardHandlers cardCall :=
  {| WagerCardEvents.onStatusUpdate := fun wagerId st => [StatusUpdateCall wagerId st];
     WagerCardEvents.onArchive := fun wagerId arch => [ArchiveCall wagerId arch];
     WagerCardEvents.onDelete := fun wagerId => [DeleteCall wagerId];
     WagerCardEvents.onEdit := Some (fun w => [EditCall (id w)]) |}.

Definition isStatusUpdateCall (c : cardCall) : bool :=
  match c with
  | StatusUpdateCall _ _ => true
  | _ => false
  end.

(** The ids of the wagers of a list, in order. *)
Definition wagerIds (ws : list Wager) : list Z := List.map id ws.

(** *** Sessions *)

(** A stored string that is present and not empty. *)
Definition stored (o : option jsstring) : bool :=
  match o with
  | Some s => toBoolean (VString s)
  | None => false
  end.

(** The state of the context once the actions of an outcome went through
    the reducer, from the initial state. *)
Definition stateAfter (actions : list AuthContext.AuthAction) : AuthContext.AuthState :=
  AuthContext.dispatchAll AuthContext.initialState actions.

(** A refresh endpoint that is never reached. *)
Definition unreachable : AuthApi.refreshEndpoint :=
  fun _ => AuthApi.Rejected VUndefined.

(** An error object with the given response status. *)
Definition errorWithStatus (status : Z) : value :=
  VObject [(str "response", VObject [(str "status", VNumber (Num.of_Z status))])].

(** *** Texts *)

(** A text that holds no decimal digit, and one made of digits only. *)
Definition noDigit (s : jsstring) : Prop := Forall (fun c => Lex.isDigit c = false) s.
Definition allDigits (s : jsstring) : Prop := Forall (fun c => Lex.isDigit c = true) s.

(** A text without white space and without an at sign. *)
Definition plainText (s : jsstring) : Prop :=
  Forall (fun c => LineHelpers.notSpaceNorAt c = true) s.

(** The text does not go on with a digit. *)
Definition endsRun (rest : jsstring) : Prop :=
  match rest with
  | c :: _ => Lex.isDigit c = false
  | [] => True
  end.

(** The sign a digit run is read with: the code unit just before it, when
    that is a plus or a minus sign. *)
Definition signBefore (before : jsstring) : jsstring :=
  match last before with
  | Some c => if LineHelpers.isSign c then [c] else []
  | None => []
  end.

(** *** Serialized data *)

(** Data whose objects have pairwise distinct keys, as every object has,
    and whose integers are safe integers, so that Number::toString writes
    them digit by digit. *)
Fixpoint wellFormed (j : JsonText.json) : bool :=
  match j with
  | JsonText.JInteger z => (Z.abs z <=? 9007199254740991)%Z
  | JsonText.JArray elems => forallb wellFormed elems
  | JsonText.JObject members =>
      bool_decide (NoDup (List.map fst members))
      && forallb (fun kv => match kv with (_, v) => wellFormed v end) members
  | _ => true
  end.

(** Fuel that is enough to parse the text of a piece of data. *)
Fixpoint weight (j : JsonText.json) : nat :=
  match j with
  | JsonText.JArray elems => S (list_sum (List.map (fun e => S (weight e)) elems))
  | JsonText.JObject members =>
      S (list_sum (List.map (fun kv => match kv with (_, v) => S (weight v) end) members))
  | _ => 1
  end.

(** What may follow a value inside a text: nothing, a comma, or a closing
    bracket or brace. *)
Definition endsValue (rest : jsstring) : Prop :=
  match rest with
  | [] => True
  | c :: _ => c = ch "," \/ c = ch "]" \/ c = ch "}"
  end.

(** The text of a member of an object, and the property it stands for. *)
Definition memberText (kv : jsstring * JsonText.json) : jsstring :=
  match kv with (k, v) => JsonText.quote k ++ ch ":" :: JsonText.stringify v end.

Definition memberValue (kv : jsstring * JsonText.json) : jsstring * value :=
  match kv with (k, v) => (k, JsonText.listedValue v) end.

(** The parser reads the text of a piece of data back, whatever follows
    it, with any fuel from its weight on. *)
Definition readsBack (j : JsonText.json) : Prop :=
  forall (rest : jsstring) (fuel : nat),
    endsValue rest -> (weight j <= fuel)%nat ->
    Json.parseValue fuel (JsonText.stringify j ++ rest) = Some (JsonText.listedValue j, rest).

(** One property key may come before another among the own property
    keys: array indices in ascending order, and before every other
    name. *)
Definition keyBefore (k k' : jsstring) : Prop :=
  match propertyIndex k, propertyIndex k' with
  | Some i, Some i' => (i <= i')%N
  | Some _, None => True
  | None, Some _ => False
  | None, None => True
  end.

(** The keys of a list of properties. *)
Definition keys {A} (props : list (jsstring * A)) : list jsstring := List.map fst props.

(** The user record of the sample storage, as data. *)
Definition annUser : JsonText.json :=
  JsonText.JObject
    [(str "id", JsonText.JInteger 1);
     (str "username", JsonText.JString (str "ann"));
     (str "role", JsonText.JString (str "admin"))].

(** A login response: the user record and an access token. *)
Definition annResponse : AuthLogin.LoginResponse :=
  {| AuthLogin.user := annUser; AuthLogin.access_token := tokenExp1700000000 |}.

(* ===================================================================== *)
(** * Properties *)
(* ===================================================================== *)


(* --------------------------------------------------------------------- *)
(** ** Payout calculation *)
(* --------------------------------------------------------------------- *)


Section Payout.

Import Helpers.

Lemma stripLine_kept (l : jsstring) :
  Forall (fun c => c = ch "-" \/ Lex.isDigit c = true \/ c = ch ".") (stripLine l).
Proof.
  unfold stripLine. induction l as [|c l IH]; simpl.
  - constructor.
  - destruct (keptByStrip c) eqn:K; auto.
    constructor; auto. unfold keptByStrip in K.
    apply orb_true_iff in K as [K|K]; [apply orb_true_iff in K as [K|K]|].
    + left. now apply N.eqb_eq in K.
    + right. now left.
    + right. right. now apply N.eqb_eq in K.
Qed.

(** Without a digit, all that is left is minus signs and dots. *)
Lemma stripLine_no_digit (l : jsstring) :
  Forall (fun c => Lex.isDigit c = false) l ->
  Forall (fun c => c = 45%N \/ c = 46%N) (stripLine l).
Proof.
  unfold stripLine. induction 1 as [|c l Hc Hl IH]; simpl.
  - constructor.
  - destruct (keptByStrip c) eqn:K; auto.
    constructor; auto.
    unfold keptByStrip in K. rewrite Hc in K. cbn in K.
    rewrite orb_false_r in K.
    apply orb_true_iff in K as [K|K]; apply N.eqb_eq in K; auto.
Qed.

Lemma takeDigits_not_digit (s : jsstring) :
  match s with
  | c :: _ => Lex.isDigit c = false
  | [] => True
  end ->
  Lex.takeDigits s = ([], s).
Proof. destruct s as [|c r]; simpl; intros H; [reflexivity|now rewrite H]. Qed.

Lemma scanUnsigned_signs_dots (s : jsstring) :
  Forall (fun c => c = 45%N \/ c = 46%N) s ->
  Lex.scanUnsigned s = None.
Proof.
  intros H. unfold Lex.scanUnsigned.
  assert (Hinf : startsWith s (str "Infinity") = false).
  { destruct H as [|c r [->| ->] _]; reflexivity. }
  rewrite Hinf.
  rewrite takeDigits_not_digit.
  2:{ destruct H as [|c r [->| ->] _]; [exact I|reflexivity|reflexivity]. }
  destruct H as [|c r Hc Hr]; [reflexivity|].
  destruct Hc as [->| ->]; cbn; [reflexivity|].
  rewrite takeDigits_not_digit; [reflexivity|].
  destruct Hr as [|c' r' [->| ->] _]; [exact I|reflexivity|reflexivity].
Qed.

Lemma parseFloat_signs_dots (s : jsstring) :
  Forall (fun c => c = 45%N \/ c = 46%N) s ->
  parseFloat s = Num.NaN.
Proof.
  intros H. unfold parseFloat.
  assert (Ht : Lex.trimStart s = s).
  { destruct H as [|c r [->| ->] _]; reflexivity. }
  rewrite Ht. unfold Lex.scanSigned.
  destruct H as [|c r Hc Hr].
  - reflexivity.
  - eval_literals. destruct Hc as [->| ->]; cbn -[Lex.scanUnsigned].
    + now rewrite scanUnsigned_signs_dots.
    + rewrite scanUnsigned_signs_dots; [reflexivity|].
      constructor; auto.
Qed.

(** [n <= 0] holds of a number exactly when it is neither NaN nor
    positive. *)
Lemma leb_zero_branch (n : number) :
  Num.leb n Num.zero = true <->
  Num.isNaN n = false /\ Num.ltb Num.zero n = false.
Proof.
  destruct n as [s|s| |s m e]; try destruct s; cbn; intuition congruence.
Qed.

Lemma of_Z_100 : Num.of_Z 100 = S754_finite false 7036874417766400 (-46).
Proof. vm_compute. reflexivity. Qed.

(** Dividing by a zero and multiplying on never gives a finite number. *)
Lemma payout_of_zero_odds (s : number) (sg : bool) :
  Num.isFinite
    (Num.mul (Num.div (Num.of_Z 100) (Num.Math_abs (S754_zero sg))) s) = false.
Proof. rewrite of_Z_100. destruct s as [b|b| |b m e]; reflexivity. Qed.

End Payout.

(** C1.  For every stake [s] and line [l], [calculatePayout] parses what
    [replace] leaves of the line (minus signs, digits and dots) as a number
    [n].  A line with no digit, and more generally any line whose remains
    parse to NaN, gives [null] ([None]); no input makes the function
    throw, it is total.  When [n > 0] the result is [(n / 100) * s]; when
    [n <= 0] it is [(100 / |n|) * s], and for [n = 0] that value is not
    finite.  Arithmetic is binary64, in the order the source writes it. *)
Theorem calculatePayout_spec (s : number) (l : jsstring) :
  let n := parseFloat (Helpers.stripLine l) in
  Forall (fun c => c = ch "-" \/ Lex.isDigit c = true \/ c = ch ".") (Helpers.stripLine l)
  /\ (Forall (fun c => Lex.isDigit c = false) l -> Helpers.calculatePayout s l = None)
  /\ (Num.isNaN n = true <-> Helpers.calculatePayout s l = None)
  /\ (Num.ltb Num.zero n = true ->
      Helpers.calculatePayout s l = Some (Num.mul (Num.div n (Num.of_Z 100)) s))
  /\ (Num.leb n Num.zero = true ->
      Helpers.calculatePayout s l
      = Some (Num.mul (Num.div (Num.of_Z 100) (Num.Math_abs n)) s))
  /\ (Num.eqb n Num.zero = true ->
      exists r, Helpers.calculatePayout s l = Some r /\ Num.isFinite r = false).
Proof.
  intros n. split; [apply stripLine_kept|].
  unfold Helpers.calculatePayout. fold n.
  split; [|split; [split|split; [|split]]].
  - intros Hd.
    assert (Hn : n = Num.NaN).
    { apply parseFloat_signs_dots, stripLine_no_digit, Hd. }
    now rewrite Hn.
  - intros Hnan. now rewrite Hnan.
  - destruct (Num.isNaN n); [reflexivity|].
    destruct (Num.ltb Num.zero n); discriminate.
  - intros Hpos.
    assert (Hnan : Num.isNaN n = false).
    { destruct n as [b|b| |b m e]; try reflexivity. discriminate Hpos. }
    now rewrite Hnan, Hpos.
  - intros Hle. apply leb_zero_branch in Hle as [Hnan Hlt].
    now rewrite Hnan, Hlt.
  - intros Hz.
    destruct n as [b|b| |b m e] eqn:En; try destruct b; try discriminate Hz;
      cbn [Num.isNaN]; (eexists; split; [reflexivity|apply payout_of_zero_odds]).
Qed.

(** The spec's examples, read off the theorem: stake 100 at [+150] pays
    exactly 150; at [-110] it pays 90.909..., which lies strictly between
    90.905 and 90.915; the line [PK] pays nothing computable; the line [0]
    pays a value that is not finite. *)
Lemma calculatePayout_spec_witness :
  Helpers.calculatePayout (Num.of_Z 100) (str "+150") = Some (Num.of_Z 150)
  /\ (exists r,
        Helpers.calculatePayout (Num.of_Z 100) (str "-110") = Some r
        /\ Num.ltb (Num.of_decimal false 90905 (-3)) r = true
        /\ Num.ltb r (Num.of_decimal false 90915 (-3)) = true)
  /\ Helpers.calculatePayout (Num.of_Z 100) (str "PK") = None
  /\ (exists r,
        Helpers.calculatePayout (Num.of_Z 100) (str "0") = Some r
        /\ Num.isFinite r = false).
Proof.
  split; [|split; [|split]].
  - destruct (calculatePayout_spec (Num.of_Z 100) (str "+150")) as (_ & _ & _ & Hpos & _).
    rewrite Hpos; [|vm_compute; reflexivity].
    vm_compute. reflexivity.
  - destruct (calculatePayout_spec (Num.of_Z 100) (str "-110"))
      as (_ & _ & _ & _ & Hneg & _).
    eexists. split; [apply Hneg; vm_compute; reflexivity|].
    split; vm_compute; reflexivity.
  - destruct (calculatePayout_spec (Num.of_Z 100) (str "PK")) as (_ & Hnone & _).
    apply Hnone. repeat constructor.
  - destruct (calculatePayout_spec (Num.of_Z 100) (str "0")) as (_ & _ & _ & _ & _ & Hz).
    apply Hz. vm_compute. reflexivity.
Defined.

(* --------------------------------------------------------------------- *)
(** ** Status controls of active wagers *)
(* --------------------------------------------------------------------- *)

Section StatusControls.

Import WagerUI.

Variable p : element -> bool.

Lemma existsb_when (b : bool) (es : list element) :
  existsb p (when b es) = b && existsb p es.
Proof. destruct b; reflexivity. Qed.

Lemma existsb_whenNumber (o : option number) (el : number -> element) :
  (forall n, p (el n) = false) ->
  p (ENumberText Num.NaN) = false ->
  (forall n, p (ENumberText n) = p (ENumberText Num.NaN)) ->
  existsb p (whenNumber o el) = false.
Proof.
  intros Hel Htext Hany. destruct o as [n|]; [|reflexivity].
  unfold whenNumber. destruct (toBoolean (VNumber n)); cbn.
  - now rewrite Hel.
  - now rewrite Hany, Htext.
Qed.

Lemma existsb_ofOption {A} (o : option A) (el : A -> element) :
  (forall a, p (el a) = false) ->
  existsb p (ofOption o el) = false.
Proof. intros Hel. destruct o as [a|]; cbn; [now rewrite Hel|reflexivity]. Qed.

End StatusControls.

Section ActiveGating.

Import WagerUI.

Lemma isActive_iff (w : Wager) :
  isActive w = true <-> status w = pending /\ archived w = false.
Proof.
  unfold isActive. rewrite andb_true_iff, bool_decide_eq_true, negb_true_iff.
  reflexivity.
Qed.

Ltac scan_tree :=
  rewrite !existsb_app, !existsb_when;
  rewrite !existsb_whenNumber by reflexivity;
  rewrite !existsb_ofOption by reflexivity;
  cbn [existsb]; cbn beta iota;
  rewrite ?andb_false_r, ?orb_false_r, ?andb_true_r; cbn [orb];
  rewrite ?orb_false_r.

Lemma WagerCard_status_control (props : WagerCardProps) (st : WagerCardState) :
  showsStatusControl (WagerCard props st)
  = isActive (card_wager props) && default true (card_showActions props)
    || statusMenuAnchor st.
Proof. unfold showsStatusControl, WagerCard. scan_tree. reflexivity. Qed.

Lemma WagerCard_update_button (props : WagerCardProps) (st : WagerCardState) :
  showsUpdateStatusButton (WagerCard props st)
  = isActive (card_wager props) && default true (card_showActions props).
Proof. unfold showsUpdateStatusButton, WagerCard. scan_tree. reflexivity. Qed.

Lemma WagerDetail_status_control (props : WagerDetailProps) :
  showsStatusControl (WagerDetail props) = isActive (detail_wager props).
Proof. unfold showsStatusControl, WagerDetail. scan_tree. reflexivity. Qed.

End ActiveGating.


(** C2, as stated, fails: a pending wager that is not archived is active,
    yet its card renders no status-change control when [showActions] is
    false. *)
Lemma status_control_counterexample :
  WagerUI.isActive sampleWager = true
  /\ status sampleWager = pending
  /\ archived sampleWager = false
  /\ WagerUI.showsStatusControl (WagerUI.WagerCard cardInSelection WagerUI.initialCardState) = false.
Proof. vm_compute. auto. Qed.

(** C2, amended.  A wager is active exactly when its status is [pending]
    and it is not archived.  WagerDetail renders its status-change buttons
    exactly when the wager is active.  WagerCard renders its Update Status
    button exactly when the wager is active and [showActions] is true (the
    default); the status menu that button opens is in the tree closed on
    mount and shows its items only while open.  So, menu closed, an
    archived wager and a wager whose status is not [pending] show no
    status-change control in either component. *)
Theorem status_controls_gated
  (card : WagerUI.WagerCardProps) (st : WagerUI.WagerCardState)
  (detail : WagerUI.WagerDetailProps) :
  (forall w, WagerUI.isActive w = true <-> status w = pending /\ archived w = false)
  /\ WagerUI.showsStatusControl (WagerUI.WagerDetail detail)
     = WagerUI.isActive (WagerUI.detail_wager detail)
  /\ WagerUI.showsUpdateStatusButton (WagerUI.WagerCard card st)
     = WagerUI.isActive (WagerUI.card_wager card)
       && default true (WagerUI.card_showActions card)
  /\ WagerUI.showsStatusControl (WagerUI.WagerCard card st)
     = WagerUI.isActive (WagerUI.card_wager card)
       && default true (WagerUI.card_showActions card)
       || WagerUI.statusMenuAnchor st
  /\ WagerUI.statusMenuAnchor WagerUI.initialCardState = false
  /\ (WagerUI.statusMenuAnchor st = false ->
      WagerUI.isActive (WagerUI.card_wager card) = false ->
      WagerUI.showsStatusControl (WagerUI.WagerCard card st) = false).
Proof.
  split; [exact isActive_iff|].
  split; [apply WagerDetail_status_control|].
  split; [apply WagerCard_update_button|].
  split; [apply WagerCard_status_control|].
  split; [reflexivity|].
  intros Hclosed Hin. now rewrite WagerCard_status_control, Hin, Hclosed.
Qed.

(** The theorem at work on the sample wager: with default props the card
    and the detail view both show the control; once the wager is archived
    the card shows none. *)
Lemma status_controls_gated_witness :
  let card :=
    {| WagerUI.card_wager := sampleWager; WagerUI.card_onEdit := false;
       WagerUI.card_showActions := None; WagerUI.card_loading := None |} in
  let detail :=
    {| WagerUI.detail_wager := sampleWager; WagerUI.detail_onEdit := false;
       WagerUI.detail_onClose := false; WagerUI.detail_loading := None |} in
  let archivedCard :=
    {| WagerUI.card_wager := archivedWager; WagerUI.card_onEdit := false;
       WagerUI.card_showActions := None; WagerUI.card_loading := None |} in
  WagerUI.showsStatusControl (WagerUI.WagerCard card WagerUI.initialCardState) = true
  /\ WagerUI.showsStatusControl (WagerUI.WagerDetail detail) = true
  /\ WagerUI.showsStatusControl (WagerUI.WagerCard archivedCard WagerUI.initialCardState)
     = false.
Proof.
  intros card detail archivedCard.
  destruct (status_controls_gated card WagerUI.initialCardState detail)
    as (_ & Hd & _ & Hc & _).
  destruct (status_controls_gated archivedCard WagerUI.initialCardState detail)
    as (_ & _ & _ & _ & _ & Hinactive).
  rewrite Hd, Hc. split; [reflexivity|]. split; [reflexivity|].
  apply Hinactive; reflexivity.
Defined.

(* --------------------------------------------------------------------- *)
(** ** The fuel of the JSON parser *)
(* --------------------------------------------------------------------- *)

Section JsonFuel.

Import Json.

Lemma skipWs_length (s : jsstring) : (length (skipWs s) <= length s)%nat.
Proof.
  induction s as [|c s IH]; cbn; [lia|].
  destruct (isWs c); cbn; lia.
Qed.

Lemma takeDigits_length (s d r : jsstring) :
  Lex.takeDigits s = (d, r) -> (length r <= length s)%nat.
Proof.
  revert d r. induction s as [|c s IH]; intros d r; cbn.
  - intros [= <- <-]. cbn. lia.
  - destruct (Lex.isDigit c).
    + destruct (Lex.takeDigits s) as [d' r'] eqn:E. intros [= <- <-].
      specialize (IH _ _ eq_refl). lia.
    + intros [= <- <-]. cbn. lia.
Qed.

Lemma scanString_length (s acc v r : jsstring) :
  scanString s acc = Some (v, r) -> (length r < length s)%nat.
Proof.
  remember (length s) as n eqn:Hn. revert s acc Hn.
  induction n as [n IH] using lt_wf_ind. intros s acc Hn.
  destruct s as [|c s]; [discriminate|]. cbn [scanString].
  destruct (c =? 34)%N; [intros [= <- <-]; cbn in *; lia|].
  destruct (c =? 92)%N.
  - destruct s as [|e s]; [discriminate|].
    destruct (e =? ch "u")%N.
    + destruct s as [|h1 [|h2 [|h3 [|h4 s]]]]; try discriminate.
      destruct (hexVal h1), (hexVal h2), (hexVal h3), (hexVal h4); try discriminate.
      intros H. apply (IH (length s)) in H; cbn in *; [lia|lia|reflexivity].
    + destruct (escapeChar e); [|discriminate].
      intros H. apply (IH (length s)) in H; cbn in *; [lia|lia|reflexivity].
  - destruct (c <? 32)%N; [discriminate|].
    intros H. apply (IH (length s)) in H; cbn in *; [lia|lia|reflexivity].
Qed.

Lemma scanMinus_length (s r : jsstring) (neg : bool) :
  scanMinus s = (neg, r) -> (length r <= length s)%nat.
Proof.
  destruct s as [|c s]; cbn; [intros [= <- <-]; cbn; lia|].
  destruct (c =? ch "-")%N; intros [= <- <-]; cbn; lia.
Qed.

Lemma scanInt_length (s ip r : jsstring) :
  scanInt s = Some (ip, r) -> (length r < length s)%nat.
Proof.
  destruct s as [|c s]; [discriminate|]. cbn [scanInt].
  destruct (Lex.isDigit c) eqn:Hd; [|discriminate]. cbn [negb].
  destruct (c =? ch "0")%N; [intros [= <- <-]; cbn; lia|].
  cbn [Lex.takeDigits]. rewrite Hd.
  destruct (Lex.takeDigits s) as [d' r'] eqn:E. intros [= <- <-].
  apply takeDigits_length in E. cbn. lia.
Qed.

Lemma scanFraction_length (s fp r : jsstring) :
  scanFraction s = Some (fp, r) -> (length r <= length s)%nat.
Proof.
  destruct s as [|c s]; cbn [scanFraction]; [intros [= <- <-]; cbn; lia|].
  destruct (c =? ch ".")%N; [|intros [= <- <-]; cbn; lia].
  destruct (Lex.takeDigits s) as [[|d ds] r'] eqn:E; [discriminate|].
  intros [= <- <-]. apply takeDigits_length in E. cbn. lia.
Qed.

Lemma scanExponentPart_length (s r : jsstring) (e : Z) :
  scanExponentPart s = Some (e, r) -> (length r <= length s)%nat.
Proof.
  destruct s as [|c s]; cbn [scanExponentPart]; [intros [= <- <-]; cbn; lia|].
  destruct ((c =? ch "e") || (c =? ch "E"))%N; [|intros [= <- <-]; cbn; lia].
  destruct s as [|g s].
  - cbn. discriminate.
  - destruct (g =? ch "-")%N; [|destruct (g =? ch "+")%N].
    all: match goal with
         | |- context [Lex.takeDigits ?x] =>
             destruct (Lex.takeDigits x) as [[|d ds] r'] eqn:E; [discriminate|]
         end.
    all: intros [= <- <-]; apply takeDigits_length in E; cbn in *; lia.
Qed.

Lemma scanNumber_length (s : jsstring) (n : number) (r : jsstring) :
  scanNumber s = Some (n, r) -> (length r < length s)%nat.
Proof.
  unfold scanNumber.
  destruct (scanMinus s) as [neg r0] eqn:E0.
  destruct (scanInt r0) as [[ip r1]|] eqn:E1; [|discriminate].
  destruct (scanFraction r1) as [[fp r2]|] eqn:E2; [|discriminate].
  destruct (scanExponentPart r2) as [[e r3]|] eqn:E3; [|discriminate].
  intros [= <- <-].
  apply scanMinus_length in E0. apply scanInt_length in E1.
  apply scanFraction_length in E2. apply scanExponentPart_length in E3. lia.
Qed.

Lemma startsWith_length (s p : jsstring) :
  startsWith s p = true -> (length p <= length s)%nat.
Proof.
  revert s. induction p as [|c p IH]; intros s; [cbn; lia|].
  destruct s as [|d s]; [discriminate|]. cbn.
  intros H. apply andb_true_iff in H as [_ H]. apply IH in H. lia.
Qed.

Lemma scanScalar_length (s : jsstring) (v : value) (r : jsstring) :
  scanScalar s = Some (v, r) -> (length r < length s)%nat.
Proof.
  unfold scanScalar. destruct s as [|c s]; [discriminate|].
  destruct (c =? 34)%N.
  - destruct (scanString s []) as [[w rest]|] eqn:E; [|discriminate].
    intros [= <- <-]. apply scanString_length in E. cbn. lia.
  - destruct (startsWith (c :: s) (str "true")) eqn:Ht.
    { intros [= <- <-]. apply startsWith_length in Ht.
      rewrite length_skipn. cbn in *. lia. }
    destruct (startsWith (c :: s) (str "false")) eqn:Hf.
    { intros [= <- <-]. apply startsWith_length in Hf.
      rewrite length_skipn. cbn in *. lia. }
    destruct (startsWith (c :: s) (str "null")) eqn:Hn.
    { intros [= <- <-]. apply startsWith_length in Hn.
      rewrite length_skipn. cbn in *. lia. }
    destruct (scanNumber (c :: s)) as [[n rest]|] eqn:E; [|discriminate].
    intros [= <- <-]. now apply scanNumber_length in E.
Qed.


Lemma parse_stable (f : nat) :
  stable (fun f s (_ : unit) => parseValue f s) f
  /\ stable parseElements f
  /\ stable parseMembers f.
Proof.
  induction f as [|f (IHv & IHe & IHm)].
  { repeat split; discriminate. }
  split; [|split].
  - intros s [] v r. cbn [parseValue].
    pose proof (skipWs_length s) as Hs.
    destruct (skipWs s) as [|c r0] eqn:Es; [discriminate|]. cbn [length] in Hs.
    destruct (c =? ch "{")%N eqn:Ec1.
    + pose proof (skipWs_length r0) as Hr0.
      destruct (skipWs r0) as [|c' r'] eqn:Er0; [discriminate|]. cbn [length] in Hr0.
      destruct (c' =? ch "}")%N eqn:Ec2.
      * intros [= <- <-]. split; [lia|].
        intros [|f'] Hf'; [lia|]. cbn [parseValue]. now rewrite Es, Ec1, Er0, Ec2.
      * intros Hm. apply IHm in Hm as [Hlen Hfuel]. cbn [length] in *.
        split; [lia|].
        intros [|f'] Hf'; [lia|]. cbn [parseValue]. rewrite Es, Ec1, Er0, Ec2.
        apply Hfuel. cbn [length]. lia.
    + destruct (c =? ch "[")%N eqn:Ec3.
      * pose proof (skipWs_length r0) as Hr0.
        destruct (skipWs r0) as [|c' r'] eqn:Er0; [discriminate|]. cbn [length] in Hr0.
        destruct (c' =? ch "]")%N eqn:Ec2.
        -- intros [= <- <-]. split; [lia|].
           intros [|f'] Hf'; [lia|]. cbn [parseValue]. now rewrite Es, Ec1, Ec3, Er0, Ec2.
        -- intros He. apply IHe in He as [Hlen Hfuel]. cbn [length] in *.
           split; [lia|].
           intros [|f'] Hf'; [lia|]. cbn [parseValue]. rewrite Es, Ec1, Ec3, Er0, Ec2.
           apply Hfuel. cbn [length]. lia.
      * intros Hsc. pose proof (scanScalar_length _ _ _ Hsc) as Hlen. cbn [length] in Hlen.
        split; [lia|].
        intros [|f'] Hf'; [lia|]. cbn [parseValue]. now rewrite Es, Ec1, Ec3.
  - intros s acc v r. cbn [parseElements].
    destruct (parseValue f s) as [[v1 r1]|] eqn:Ev; [|discriminate].
    apply (IHv s tt) in Ev as [Hlen1 Hfuel1].
    pose proof (skipWs_length r1) as Hr1.
    destruct (skipWs r1) as [|c r'] eqn:Er1; [discriminate|]. cbn [length] in Hr1.
    destruct (c =? ch ",")%N eqn:Ec1.
    + intros He. apply IHe in He as [Hlen Hfuel].
      split; [lia|].
      intros [|f'] Hf'; [lia|]. cbn [parseElements].
      rewrite Hfuel1 by lia. rewrite Er1, Ec1. apply Hfuel. lia.
    + destruct (c =? ch "]")%N eqn:Ec2; [|discriminate].
      intros [= <- <-]. split; [lia|].
      intros [|f'] Hf'; [lia|]. cbn [parseElements].
      rewrite Hfuel1 by lia. now rewrite Er1, Ec1, Ec2.
  - intros s acc v r. cbn [parseMembers].
    pose proof (skipWs_length s) as Hs.
    destruct (skipWs s) as [|q r0] eqn:Es; [discriminate|]. cbn [length] in Hs.
    destruct (q =? 34)%N eqn:Eq; [|discriminate].
    destruct (scanString r0 []) as [[k r1]|] eqn:Ek; [|discriminate].
    pose proof (scanString_length _ _ _ _ Ek) as Hk.
    pose proof (skipWs_length r1) as Hr1.
    destruct (skipWs r1) as [|c r2] eqn:Er1; [discriminate|]. cbn [length] in Hr1.
    destruct (c =? ch ":")%N eqn:Ec; [|discriminate].
    destruct (parseValue f r2) as [[v1 r3]|] eqn:Ev; [|discriminate].
    apply (IHv r2 tt) in Ev as [Hlen1 Hfuel1].
    pose proof (skipWs_length r3) as Hr3.
    destruct (skipWs r3) as [|d r4] eqn:Er3; [discriminate|]. cbn [length] in Hr3.
    destruct (d =? ch ",")%N eqn:Ed1.
    + intros Hm. apply IHm in Hm as [Hlen Hfuel].
      split; [lia|].
      intros [|f'] Hf'; [lia|]. cbn [parseMembers].
      rewrite Es, Eq, Ek, Er1, Ec. rewrite Hfuel1 by lia. rewrite Er3, Ed1.
      apply Hfuel. lia.
    + destruct (d =? ch "}")%N eqn:Ed2; [|discriminate].
      intros [= <- <-]. split; [lia|].
      intros [|f'] Hf'; [lia|]. cbn [parseMembers].
      rewrite Es, Eq, Ek, Er1, Ec. rewrite Hfuel1 by lia. now rewrite Er3, Ed1, Ed2.
Qed.

(** The fuel [JSON_parse] gives the parser loses nothing: whatever some
    amount of fuel parses, [fuelFor] parses to the same result. *)
Lemma fuelFor_enough (f : nat) (s : jsstring) (v : value) (r : jsstring) :
  parseValue f s = Some (v, r) -> parseValue (fuelFor s) s = Some (v, r).
Proof.
  intros Hp. destruct (parse_stable f) as (Hv & _).
  destruct (Hv s tt v r Hp) as [_ Hfuel]. apply Hfuel.
  unfold fuelFor. lia.
Qed.

(** So a text that [JSON_parse] rejects is rejected with any fuel: no
    amount parses the whole of it. *)
Lemma JSON_parse_rejects (s : jsstring) (e : error) :
  JSON_parse s = Throw e ->
  forall f v r, parseValue f s = Some (v, r) -> skipWs r <> [].
Proof.
  unfold JSON_parse. intros Hthrow f v r Hp Hrest.
  rewrite (fuelFor_enough _ _ _ _ Hp), Hrest in Hthrow. discriminate.
Qed.

End JsonFuel.

(* --------------------------------------------------------------------- *)
(** ** Reading the stored user *)
(* --------------------------------------------------------------------- *)

Section StoredUser.

Import Auth.

Lemma JSON_parse_error (text : jsstring) (e : error) :
  JSON_parse text = Throw e -> e = SyntaxError.
Proof.
  unfold JSON_parse.
  destruct (Json.parseValue _ _) as [[v rest]|]; [|congruence].
  destruct (Json.skipWs rest); congruence.
Qed.

Lemma JSON_parse_empty : JSON_parse [] = Throw SyntaxError.
Proof. reflexivity. Qed.

Lemma getUser_absent (ls : localStorage) :
  ls !! AUTH_STORAGE_KEYS_USER = None -> getUser ls = Return VNull.
Proof. intros H. unfold getUser, getItem. now rewrite H. Qed.

Lemma getUser_present (ls : localStorage) (text : jsstring) :
  ls !! AUTH_STORAGE_KEYS_USER = Some text ->
  getUser ls = if bool_decide (text = []) then Return VNull else JSON_parse text.
Proof.
  intros H. unfold getUser, getItem. rewrite H. cbn.
  now destruct (bool_decide (text = [])).
Qed.

End StoredUser.


(** C3, as stated, fails: with malformed text under the user key,
    [getUser] raises a [SyntaxError] instead of returning [null]. *)
Lemma getUser_counterexample :
  JSON_parse truncatedUser = Throw SyntaxError
  /\ Auth.getUser (<[Auth.AUTH_STORAGE_KEYS_USER := truncatedUser]> ∅)
     = Throw SyntaxError.
Proof. split; vm_compute; reflexivity. Qed.

(** C3, amended.  [getUser] returns [null] when nothing is stored under the
    user key or the stored text is empty; it returns the deserialized
    value when the stored text is valid JSON; and when the stored text is
    not empty and not valid JSON it raises the [SyntaxError] of
    [JSON.parse]. *)
Theorem getUser_spec (ls : gmap jsstring jsstring) :
  (ls !! Auth.AUTH_STORAGE_KEYS_USER = None -> Auth.getUser ls = Return VNull)
  /\ (ls !! Auth.AUTH_STORAGE_KEYS_USER = Some [] -> Auth.getUser ls = Return VNull)
  /\ (forall text v,
        ls !! Auth.AUTH_STORAGE_KEYS_USER = Some text ->
        JSON_parse text = Return v ->
        Auth.getUser ls = Return v)
  /\ (forall text e,
        ls !! Auth.AUTH_STORAGE_KEYS_USER = Some text ->
        text <> [] ->
        JSON_parse text = Throw e ->
        Auth.getUser ls = Throw SyntaxError).
Proof.
  repeat split.
  - apply getUser_absent.
  - intros H. now rewrite (getUser_present _ _ H).
  - intros text v H Hv. rewrite (getUser_present _ _ H).
    case_bool_decide as Ht; [|exact Hv].
    subst text. rewrite JSON_parse_empty in Hv. discriminate.
  - intros text e H Hne He. rewrite (getUser_present _ _ H).
    case_bool_decide; [contradiction|].
    rewrite He. f_equal. exact (JSON_parse_error _ _ He).
Qed.


(** A well-formed record is read back as the object it spells. *)
Lemma getUser_spec_witness :
  Auth.getUser (<[Auth.AUTH_STORAGE_KEYS_USER := storedUser]> ∅)
  = Return (VObject [(str "id", VNumber (Num.of_Z 1));
                     (str "username", VString (str "ann"));
                     (str "role", VString (str "admin"))])
  /\ Auth.getUser ∅ = Return VNull.
Proof.
  split.
  - destruct (getUser_spec (<[Auth.AUTH_STORAGE_KEYS_USER := storedUser]> ∅))
      as (_ & _ & Hvalid & _).
    apply (Hvalid storedUser).
    + apply lookup_insert_eq.
    + vm_compute. reflexivity.
  - destruct (getUser_spec ∅) as (Habsent & _).
    apply Habsent. apply lookup_empty.
Defined.

(* --------------------------------------------------------------------- *)
(** ** Token expiry *)
(* --------------------------------------------------------------------- *)

Section TokenExpiry.

Import Auth.





Lemma isTokenExpired_decoded
  (dateNow : number) (token text : jsstring) (payload : value) :
  atob (middleSegment token) = Return text ->
  JSON_parse text = Return payload ->
  isTokenExpired dateNow token
  = tryCatch
      (exp ← getProp payload (str "exp");
       lessThanNumber exp (Num.div dateNow (Num.of_Z 1000)))
      true.
Proof.
  intros Ha Hj. unfold isTokenExpired, isTokenExpiredBody.
  fold (middleSegment token). rewrite Ha. cbn. now rewrite Hj.
Qed.



Lemma getProp_object (props : list (jsstring * value)) (k : jsstring) :
  getProp (VObject props) k = Return (default VUndefined (lookupProp props k)).
Proof. reflexivity. Qed.




End TokenExpiry.





(** C10, as stated, fails: the payload [null] is valid JSON with no [exp]
    field, yet the token is reported expired, because reading a property
    of [null] throws and the [catch] branch answers. *)
Lemma no_exp_counterexample :
  atob (middleSegment tokenNull) = Return (str "null")
  /\ JSON_parse (str "null") = Return VNull
  /\ Auth.isTokenExpired (Num.of_Z 1700000000000) tokenNull = true.
Proof. repeat split; vm_compute; reflexivity. Qed.

(** C10, amended.  When the middle segment decodes to a JSON value other
    than [null] from which [exp] reads as [undefined] (an object with no
    [exp] member such as [{}], an array, a string, a number or a boolean),
    [isTokenExpired] is false; when it decodes to [null] it is true. *)
Theorem isTokenExpired_no_exp (dateNow : number) (token text : jsstring) (payload : value) :
  atob (middleSegment token) = Return text ->
  JSON_parse text = Return payload ->
  (getProp payload (str "exp") = Return VUndefined ->
   Auth.isTokenExpired dateNow token = false)
  /\ (forall props,
        payload = VObject props ->
        lookupProp props (str "exp") = None ->
        Auth.isTokenExpired dateNow token = false)
  /\ (isNotObject payload = true -> Auth.isTokenExpired dateNow token = false)
  /\ (payload = VNull -> Auth.isTokenExpired dateNow token = true).
Proof.
  intros Ha Hj. rewrite (isTokenExpired_decoded _ _ _ _ Ha Hj).
  split; [|split; [|split]].
  - intros Hexp. now rewrite Hexp.
  - intros props -> Hnone. rewrite getProp_object, Hnone. reflexivity.
  - destruct payload; try discriminate; intros _; reflexivity.
  - intros ->. reflexivity.
Qed.

(** The payload [{}]: not expired, whatever the clock says. *)
Lemma isTokenExpired_no_exp_witness :
  Auth.isTokenExpired (Num.of_Z 1700000000000) (str "header.e30.signature") = false.
Proof.
  destruct (isTokenExpired_no_exp (Num.of_Z 1700000000000)
              (str "header.e30.signature") (str "{}") (VObject []))
    as (_ & Hobj & _).
  - vm_compute. reflexivity.
  - vm_compute. reflexivity.
  - apply (Hobj []); reflexivity.
Defined.

(* --------------------------------------------------------------------- *)
(** ** Formatting authentication errors *)
(* --------------------------------------------------------------------- *)


Section AuthErrors.

Import Auth.










End AuthErrors.





(* --------------------------------------------------------------------- *)
(** ** The selected navigation tab *)
(* --------------------------------------------------------------------- *)

Section SelectedTab.

Import Navigation.

Lemma startsWith_prefix (s p : jsstring) :
  startsWith s p = true <-> p `prefix_of` s.
Proof.
  revert s. induction p as [|c p IH]; intros s.
  - split; [intros _; apply prefix_nil|now destruct s].
  - destruct s as [|d s]; simpl.
    + split; [discriminate|]. intros Hp. now apply prefix_nil_inv in Hp.
    + rewrite andb_true_iff, N.eqb_eq, IH. split.
      * intros [-> Hp]. now apply prefix_cons.
      * intros Hp. split.
        -- symmetry. exact (prefix_cons_inv_1 _ _ _ _ Hp).
        -- exact (prefix_cons_inv_2 _ _ _ _ Hp).
Qed.

Lemma jseqb_eq (s t : jsstring) : jseqb s t = true <-> s = t.
Proof. unfold jseqb. apply bool_decide_eq_true. Qed.

Lemma isCurrent_iff (currentPath : jsstring) (item : NavigationItem) :
  isCurrent currentPath item = true <->
  (path item = str "/" /\ currentPath = str "/")
  \/ (path item <> str "/" /\ path item `prefix_of` currentPath).
Proof.
  unfold isCurrent. destruct (jseqb (path item) (str "/")) eqn:Hroot.
  - apply jseqb_eq in Hroot. rewrite jseqb_eq. split.
    + intros Hp. left. now split.
    + intros [[_ Hp]|[Hne _]]; [exact Hp|contradiction].
  - assert (Hne : path item <> str "/").
    { intros Heq. apply jseqb_eq in Heq. congruence. }
    rewrite startsWith_prefix. split.
    + intros Hp. right. now split.
    + intros [[Heq _]|[_ Hp]]; [contradiction|exact Hp].
Qed.

Lemma findIndex_none {A} (p : A -> bool) (l : list A) :
  Forall (fun x => p x = false) l -> findIndex p l = (-1)%Z.
Proof.
  induction 1 as [|x l Hx Hl IH]; simpl; [reflexivity|].
  rewrite Hx, IH. reflexivity.
Qed.

Lemma findIndex_first {A} (p : A -> bool) (l : list A) (k : nat) (x : A) :
  l !! k = Some x ->
  p x = true ->
  (forall j y, (j < k)%nat -> l !! j = Some y -> p y = false) ->
  findIndex p l = Z.of_nat k.
Proof.
  revert k. induction l as [|h l IH]; intros k Hk Hx Hbefore.
  - discriminate.
  - destruct k as [|k]; simpl in *.
    + injection Hk as ->. now rewrite Hx.
    + rewrite (Hbefore 0%nat h) by (lia || reflexivity).
      rewrite (IH k Hk Hx).
      * destruct (Z.ltb_spec (Z.of_nat k) 0); lia.
      * intros j y Hj Hy. apply (Hbefore (S j) y); [lia|exact Hy].
Qed.

End SelectedTab.

(** C9.  An item is current when its path is a prefix of the current URL
    path, the root item ['/'] only when the URL path is exactly ['/'].  The
    selected tab is the first current item of the visible list, and the
    first tab (index 0) when no item is current. *)
Theorem selectedTab_spec (currentPath : jsstring) (items : list Navigation.NavigationItem) :
  let tab := Navigation.selectedTab currentPath items in
  (forall item,
     Navigation.isCurrent currentPath item = true <->
     (Navigation.path item = str "/" /\ currentPath = str "/")
     \/ (Navigation.path item <> str "/"
         /\ Navigation.path item `prefix_of` currentPath))
  /\ (forall k item,
        items !! k = Some item ->
        Navigation.isCurrent currentPath item = true ->
        (forall j other, (j < k)%nat -> items !! j = Some other ->
                         Navigation.isCurrent currentPath other = false) ->
        tab = Z.of_nat k)
  /\ (Forall (fun item => Navigation.isCurrent currentPath item = false) items ->
      tab = 0%Z).
Proof.
  intros tab. split; [apply isCurrent_iff|]. split.
  - intros k item Hk Hcur Hfirst. unfold tab, Navigation.selectedTab, Navigation.currentIndex.
    rewrite (findIndex_first _ _ _ _ Hk Hcur Hfirst).
    destruct (Z.leb_spec 0 (Z.of_nat k)); [reflexivity|lia].
  - intros Hnone. unfold tab, Navigation.selectedTab, Navigation.currentIndex.
    now rewrite (findIndex_none _ _ Hnone).
Qed.

(** The spec's examples on the tabs every signed-in user sees: at
    [/wagers/123] the Wagers tab (index 1) is selected; at [/] the
    Dashboard tab (index 0), and no other item is current there; at an
    unknown path the first tab is the fallback. *)
Lemma selectedTab_spec_witness :
  let items := Navigation.visibleItems (Some Navigation.user) in
  Navigation.selectedTab (str "/wagers/123") items = 1%Z
  /\ Navigation.path <$> items !! 1%nat = Some (str "/wagers")
  /\ Navigation.selectedTab (str "/") items = 0%Z
  /\ List.filter (Navigation.isCurrent (str "/")) items
     = [ {| Navigation.label := "Dashboard"; Navigation.path := str "/";
            Navigation.adminOnly := false |} ]
  /\ Navigation.selectedTab (str "/nowhere") items = 0%Z.
Proof.
  intros items.
  destruct (selectedTab_spec (str "/wagers/123") items) as (_ & Hfirst & _).
  destruct (selectedTab_spec (str "/") items) as (_ & Hroot & _).
  destruct (selectedTab_spec (str "/nowhere") items) as (_ & _ & Hnone).
  split; [|split; [reflexivity|split; [|split; [reflexivity|]]]].
  - apply (Hfirst 1%nat {| Navigation.label := "Wagers"; Navigation.path := str "/wagers";
                           Navigation.adminOnly := false |}).
    + reflexivity.
    + vm_compute. reflexivity.
    + intros j other Hj Hother.
      assert (j = 0%nat) as -> by lia.
      vm_compute in Hother. injection Hother as <-. vm_compute. reflexivity.
  - apply (Hroot 0%nat {| Navigation.label := "Dashboard"; Navigation.path := str "/";
                          Navigation.adminOnly := false |}).
    + reflexivity.
    + vm_compute. reflexivity.
    + intros j other Hj. lia.
  - apply Hnone. vm_compute. repeat constructor.
Defined.

(* --------------------------------------------------------------------- *)
(** ** The reconnect budget of the socket service *)
(* --------------------------------------------------------------------- *)

Section Reconnect.

Import Socket.


Lemma attemptReconnect_below (s : SocketService) :
  maxReconnectAttempts s = 5%nat ->
  (reconnectAttempts s < 5)%nat ->
  attemptReconnect s
  = ({| reconnectAttempts := S (reconnectAttempts s); maxReconnectAttempts := 5 |},
     [backoff (S (reconnectAttempts s))]).
Proof.
  intros Hmax Hlt. unfold attemptReconnect. rewrite Hmax.
  destruct (Nat.ltb_spec (reconnectAttempts s) 5); [reflexivity|lia].
Qed.

Lemma attemptReconnect_exhausted (s : SocketService) :
  maxReconnectAttempts s = 5%nat ->
  (5 <= reconnectAttempts s)%nat ->
  attemptReconnect s = (s, []).
Proof.
  intros Hmax Hge. unfold attemptReconnect. rewrite Hmax.
  destruct (Nat.ltb_spec (reconnectAttempts s) 5); [lia|reflexivity].
Qed.

Lemma onEvent_not_failure (s : SocketService) (e : event) :
  isConnect e = false -> isFailure e = false -> onEvent s e = (s, []).
Proof.
  destruct e as [|reason|]; cbn; try discriminate.
  intros _ Hf. apply negb_false_iff in Hf. now rewrite Hf.
Qed.

Lemma onEvent_failure (s : SocketService) (e : event) :
  isFailure e = true -> onEvent s e = attemptReconnect s.
Proof.
  destruct e as [|reason|]; cbn; try discriminate; [|reflexivity].
  intros Hf. apply negb_true_iff in Hf. now rewrite Hf.
Qed.

Lemma timersAfter_step (a n : nat) :
  (a < 5)%nat -> timersAfter a (S n) = backoff (S a) :: timersAfter (S a) n.
Proof.
  intros Ha. unfold timersAfter.
  replace (Nat.min (S n) (5 - a)) with (S (Nat.min n (5 - S a))) by lia.
  reflexivity.
Qed.

Lemma timersAfter_exhausted (a n : nat) : (5 <= a)%nat -> timersAfter a n = [].
Proof.
  intros Ha. unfold timersAfter.
  replace (Nat.min n (5 - a)) with 0%nat by lia. reflexivity.
Qed.

Lemma timersAfter_0 (a : nat) : timersAfter a 0 = [].
Proof. reflexivity. Qed.


Lemma attemptsAfter_0 (a : nat) : attemptsAfter a 0 = a.
Proof. unfold attemptsAfter. destruct (Nat.ltb_spec a 5); lia. Qed.

Lemma attemptsAfter_step (a n : nat) :
  (a < 5)%nat -> attemptsAfter (S a) n = attemptsAfter a (S n).
Proof.
  intros Ha. unfold attemptsAfter.
  destruct (Nat.ltb_spec a 5); [|lia].
  destruct (Nat.ltb_spec (S a) 5); lia.
Qed.

Lemma attemptsAfter_exhausted (a n : nat) : (5 <= a)%nat -> attemptsAfter a n = a.
Proof. intros Ha. unfold attemptsAfter. destruct (Nat.ltb_spec a 5); lia. Qed.

(** Without a [connect] event in between, the timers set are those of the
    attempts still within the budget. *)
Lemma run_without_connect (es : list event) (s : SocketService) :
  maxReconnectAttempts s = 5%nat ->
  Forall (fun e => isConnect e = false) es ->
  run s es
  = ({| reconnectAttempts := attemptsAfter (reconnectAttempts s) (failures es);
        maxReconnectAttempts := 5 |},
     timersAfter (reconnectAttempts s) (failures es)).
Proof.
  intros Hmax Hes. revert s Hmax.
  induction Hes as [|e es He Hes IH]; intros s Hmax.
  - destruct s as [a m]. cbn [run failures List.filter length reconnectAttempts] in *.
    cbn in Hmax. subst m. now rewrite attemptsAfter_0, timersAfter_0.
  - cbn [run]. unfold failures. cbn [List.filter].
    destruct (isFailure e) eqn:Hf.
    + rewrite (onEvent_failure _ _ Hf). cbn [length]. fold (failures es).
      destruct (Nat.lt_ge_cases (reconnectAttempts s) 5) as [Hlt|Hge].
      * rewrite (attemptReconnect_below _ Hmax Hlt).
        rewrite IH by reflexivity. cbn [reconnectAttempts app].
        now rewrite (timersAfter_step _ _ Hlt), (attemptsAfter_step _ _ Hlt).
      * rewrite (attemptReconnect_exhausted _ Hmax Hge).
        rewrite IH by exact Hmax. cbn [app].
        now rewrite !timersAfter_exhausted, !attemptsAfter_exhausted by exact Hge.
    + rewrite (onEvent_not_failure _ _ He Hf). fold (failures es).
      rewrite IH by exact Hmax. reflexivity.
Qed.

End Reconnect.

(** C7.  Take any sequence of socket events with no successful [connect]
    in it, starting from a fresh service.  The reconnect timers set are, in
    order, those of attempts 1, 2, ... with attempt [k] delayed by [2^k]
    seconds, one per failure (a disconnect the server did not initiate, or
    a connection error), and at most five: 2, 4, 8, 16 and 32 seconds.
    Once five attempts were made, no later failure sets a timer, until a
    [connect] event puts the counter back to zero; no other event lowers
    it. *)
Theorem reconnect_backoff_bound (es : list Socket.event) :
  Forall (fun e => Socket.isConnect e = false) es ->
  let '(s', timers) := Socket.run Socket.newSocketService es in
  timers = firstn (failures es) [2000; 4000; 8000; 16000; 32000]%Z
  /\ (length timers <= 5)%nat
  /\ (forall k d, timers !! k = Some d -> d = (2 ^ Z.of_nat (S k) * 1000)%Z)
  /\ Socket.reconnectAttempts s' = Nat.min 5 (failures es)
  /\ ((5 <= failures es)%nat ->
      forall es',
        Forall (fun e => Socket.isConnect e = false) es' ->
        Socket.run s' es' = (s', []))
  /\ (forall e, Socket.isConnect e = false ->
        (Socket.reconnectAttempts s'
         <= Socket.reconnectAttempts (Socket.onEvent s' e).1)%nat)
  /\ (Socket.onEvent s' Socket.connect).1 = Socket.newSocketService.
Proof.
  intros Hes.
  rewrite (run_without_connect es Socket.newSocketService eq_refl Hes).
  cbn [Socket.reconnectAttempts Socket.newSocketService].
  assert (Htimers : timersAfter 0 (failures es)
                    = firstn (failures es) [2000; 4000; 8000; 16000; 32000]%Z).
  { unfold timersAfter. generalize (failures es) as n. intros n.
    do 5 (destruct n as [|n]; [reflexivity|]). destruct n; reflexivity. }
  assert (Hattempts : attemptsAfter 0 (failures es) = Nat.min 5 (failures es)).
  { reflexivity. }
  rewrite Htimers, Hattempts.
  split; [reflexivity|]. split; [|split; [|split; [|split; [|split]]]].
  - rewrite length_take. cbn [length]. lia.
  - intros k d Hk. apply lookup_take_Some in Hk as [Hk _].
    do 5 (destruct k as [|k]; [injection Hk as <-; reflexivity|]).
    discriminate.
  - reflexivity.
  - intros Hfive es' Hes'.
    replace (Nat.min 5 (failures es)) with 5%nat by lia.
    rewrite (run_without_connect es'
               {| Socket.reconnectAttempts := 5; Socket.maxReconnectAttempts := 5 |}
               eq_refl Hes').
    cbn [Socket.reconnectAttempts].
    now rewrite timersAfter_exhausted, attemptsAfter_exhausted.
  - intros e He. destruct (Socket.isFailure e) eqn:Hf.
    + rewrite (onEvent_failure _ _ Hf). unfold Socket.attemptReconnect.
      destruct (_ <? _)%nat; cbn [fst Socket.reconnectAttempts]; lia.
    + now rewrite (onEvent_not_failure _ _ He Hf).
  - reflexivity.
Qed.

(** Seven connection errors in a row: five timers, then nothing more. *)
Lemma reconnect_backoff_bound_witness :
  Socket.run Socket.newSocketService (repeat Socket.connect_error 7)
  = ({| Socket.reconnectAttempts := 5; Socket.maxReconnectAttempts := 5 |},
     [2000; 4000; 8000; 16000; 32000]%Z).
Proof.
  pose proof (reconnect_backoff_bound (repeat Socket.connect_error 7)) as H.
  destruct (Socket.run Socket.newSocketService (repeat Socket.connect_error 7))
    as [s' timers] eqn:Hrun.
  destruct H as (Ht & _ & _ & Ha & _).
  - repeat constructor.
  - destruct s' as [a m]. cbn in Ha. subst a timers.
    assert (Hm : m = 5%nat).
    { vm_compute in Hrun. now injection Hrun as <-. }
    subst m. reflexivity.
Defined.


(* --------------------------------------------------------------------- *)
(** ** Bulk status updates from the wager list *)
(* --------------------------------------------------------------------- *)

Section BulkActions.

Import WagerList.

Lemma Set_add_NoDup (s : list Z) (x : Z) : NoDup s -> NoDup (Set_add s x).
Proof.
  intros Hs. unfold Set_add. case_bool_decide as Hx; [exact Hs|].
  apply NoDup_app. split; [exact Hs|]. split.
  - intros y Hy Hy'. apply list_elem_of_singleton in Hy'. subst y. contradiction.
  - apply NoDup_singleton.
Qed.

Lemma Set_delete_NoDup (s : list Z) (x : Z) : NoDup s -> NoDup (Set_delete s x).
Proof.
  intros Hs. unfold Set_delete. induction Hs as [|y s Hy Hs IH]; cbn.
  - constructor.
  - destruct (negb (bool_decide (y = x))); [|exact IH].
    constructor; [|exact IH].
    intros Hin. apply Hy. apply list_elem_of_In in Hin.
    apply filter_In in Hin as [Hin _]. now apply list_elem_of_In.
Qed.

Lemma Set_of_NoDup (l : list Z) : NoDup (Set_of l).
Proof.
  unfold Set_of. assert (Hacc : NoDup (@nil Z)) by constructor.
  revert Hacc. generalize (@nil Z) as acc.
  induction l as [|x l IH]; intros acc Hacc; cbn; [exact Hacc|].
  apply IH, Set_add_NoDup, Hacc.
Qed.

(** The selection stays a set under the handlers that change it. *)
Lemma selection_NoDup {E} (props : WagerListProps E) (st : WagerListState) :
  NoDup (selectedWagers st) ->
  (forall checked, NoDup (selectedWagers (handleSelectAll props st checked)))
  /\ (forall wagerId checked,
        NoDup (selectedWagers (handleSelectWager st wagerId checked))).
Proof.
  intros Hst. split.
  - intros [|]; cbn; [apply Set_of_NoDup|constructor].
  - intros wagerId [|]; cbn; [now apply Set_add_NoDup|now apply Set_delete_NoDup].
Qed.


Lemma occurrences_not_in (status : WagerStatus) (sel : list Z) (wagerId : Z) :
  wagerId ∉ sel ->
  occurrences (wagerId, status) (List.map (fun i => (i, status)) sel) = 0%nat.
Proof.
  unfold occurrences. induction sel as [|x sel IH]; intros Hnot; cbn; [reflexivity|].
  apply not_elem_of_cons in Hnot as [Hne Hnot].
  case_bool_decide as Heq; [congruence|]. now apply IH.
Qed.

Lemma occurrences_once (status : WagerStatus) (sel : list Z) (wagerId : Z) :
  NoDup sel ->
  wagerId ∈ sel ->
  occurrences (wagerId, status) (List.map (fun i => (i, status)) sel) = 1%nat.
Proof.
  unfold occurrences. induction 1 as [|x sel Hx Hsel IH]; intros Hin.
  - now apply elem_of_nil in Hin.
  - cbn. case_bool_decide as Heq.
    + injection Heq as ->. cbn. f_equal.
      now apply (occurrences_not_in status).
    + apply elem_of_cons in Hin as [->|Hin]; [congruence|]. now apply IH.
Qed.

Lemma flat_map_singleton {A B} (f : A -> B) (l : list A) :
  flat_map (fun a => [f a]) l = List.map f l.
Proof. induction l as [|a l IH]; cbn; [reflexivity|now rewrite IH]. Qed.

End BulkActions.


(** C6.  With [n] wager ids selected, a bulk status action calls the
    single-item status handler [n] times: once for each selected id, in
    selection order, each time with the chosen status.  Afterwards the
    selection is empty and the bulk menu closed.  On the Wagers page each
    of those calls is one [updateWagerStatus] request and none is a batch
    request. *)
Theorem bulk_status_fanout
  (ws : list Wager) (st : WagerList.WagerListState) (chosen : WagerStatus) :
  NoDup (WagerList.selectedWagers st) ->
  let sel := WagerList.selectedWagers st in
  let calls := (WagerList.handleBulkStatusUpdate (recordingProps ws) st chosen).1 in
  let requests := (WagerList.handleBulkStatusUpdate (WagerList.pageProps ws) st chosen).1 in
  let st' := (WagerList.handleBulkStatusUpdate (WagerList.pageProps ws) st chosen).2 in
  calls = List.map (fun wagerId => (wagerId, chosen)) sel
  /\ length calls = length sel
  /\ (forall wagerId, wagerId ∈ sel -> occurrences (wagerId, chosen) calls = 1%nat)
  /\ (forall c, c ∈ calls -> c.1 ∈ sel /\ c.2 = chosen)
  /\ WagerList.selectedWagers st' = []
  /\ WagerList.bulkMenuAnchor st' = false
  /\ requests = List.map (fun wagerId => Service.updateWagerStatus wagerId chosen) sel
  /\ Forall (fun r => Service.isBulk r = false) requests.
Proof.
  intros Hsel sel calls requests st'.
  assert (Hcalls : calls = List.map (fun wagerId => (wagerId, chosen)) sel).
  { unfold calls, WagerList.handleBulkStatusUpdate, WagerList.forEach. cbn.
    apply flat_map_singleton. }
  assert (Hreq : requests
                 = List.map (fun wagerId => Service.updateWagerStatus wagerId chosen) sel).
  { unfold requests, WagerList.handleBulkStatusUpdate, WagerList.forEach. cbn.
    apply (flat_map_singleton (fun i => Service.updateWagerStatus i chosen)). }
  split; [exact Hcalls|]. rewrite Hcalls, Hreq.
  split; [apply length_map|].
  split; [intros wagerId Hin; now apply occurrences_once|].
  split.
  { intros c Hc. apply list_elem_of_fmap in Hc as (i & -> & Hi). now split. }
  split; [reflexivity|]. split; [reflexivity|]. split; [reflexivity|].
  apply Forall_forall. intros r Hr.
  apply list_elem_of_fmap in Hr as (i & -> & _). reflexivity.
Qed.

(** Three selected wagers marked as won: three calls, one per id. *)
Lemma bulk_status_fanout_witness :
  let st := {| WagerList.showFilters := false;
               WagerList.selectedWagers := [7; 3; 9]%Z;
               WagerList.bulkMenuAnchor := true |} in
  (WagerList.handleBulkStatusUpdate (recordingProps []) st won).1
  = [(7, won); (3, won); (9, won)]%Z
  /\ (WagerList.handleBulkStatusUpdate (WagerList.pageProps []) st won).1
     = [Service.updateWagerStatus 7 won; Service.updateWagerStatus 3 won;
        Service.updateWagerStatus 9 won]
  /\ WagerList.selectedWagers
       (WagerList.handleBulkStatusUpdate (WagerList.pageProps []) st won).2 = [].
Proof.
  intros st.
  assert (Hsel : NoDup (WagerList.selectedWagers st)).
  { cbn. repeat (constructor; [intros Hin; repeat (apply elem_of_cons in Hin as [Hin|Hin]; [discriminate|]); now apply elem_of_nil in Hin|]). constructor. }
  destruct (bulk_status_fanout [] st won Hsel) as (Hc & _ & _ & _ & Hs & _ & Hr & _).
  split; [exact Hc|]. split; [exact Hr|exact Hs].
Defined.

(* --------------------------------------------------------------------- *)
(** ** The cache after a status update *)
(* --------------------------------------------------------------------- *)

Section CacheEffects.

Import Hooks.

Context {Params : Type} `{Countable Params} {Data : Type}.

Implicit Types (c : queryCache Params Data) (k : list (keyPart Params)).

Lemma lookup_invalidateQueries (filterKey : list (keyPart Params)) c k :
  invalidateQueries filterKey c !! k
  = (fun entry =>
       if partialMatchKey k filterKey
       then {| data := data entry; isInvalidated := true |}
       else entry) <$> c !! k.
Proof.
  unfold invalidateQueries. rewrite map_lookup_imap.
  destruct (c !! k); reflexivity.
Qed.

Lemma wagerKey_not_list (wagerId : Z) :
  partialMatchKey (wagerKey (Params := Params) wagerId) [KString QUERY_KEYS_WAGERS] = false.
Proof.
  unfold partialMatchKey, wagerKey. apply bool_decide_eq_false.
  intros Hp. apply prefix_cons_inv_1 in Hp. injection Hp as Hp.
  vm_compute in Hp. discriminate.
Qed.

Lemma wagerKey_inj (a b : Z) :
  wagerKey (Params := Params) a = wagerKey b -> a = b.
Proof. unfold wagerKey. congruence. Qed.

Lemma wagerKey_ne (a b : Z) :
  a <> b -> wagerKey (Params := Params) a <> wagerKey b.
Proof. intros Hab Heq. apply Hab, wagerKey_inj, Heq. Qed.

Lemma wagerKey_ne_wagersKey (a : Z) (p : Params) : wagerKey a <> wagersKey p.
Proof. unfold wagerKey, wagersKey. congruence. Qed.

Lemma wagersKey_is_list (p : Params) :
  partialMatchKey (wagersKey p) [KString QUERY_KEYS_WAGERS] = true.
Proof.
  apply bool_decide_eq_true. exists [KParams p]. reflexivity.
Qed.

End CacheEffects.

(** C5.  After a successful status update of wager [wagerId] that
    resolved to [d]: the single-item entry of that wager holds [d], fresh,
    so a read of it does not refetch; every cached entry of the wager list
    keeps its data and is marked invalidated, so its next read refetches;
    the single-item entry of every other wager, and every entry that is
    neither this wager's nor a list entry, is as it was. *)
Theorem updateStatus_cache_effect
  {Params : Type} `{Countable Params} {Data : Type}
  (c : Hooks.queryCache Params Data) (d : Data) (wagerId : Z) (chosen : WagerStatus) :
  let c' := Hooks.useUpdateWagerStatus_onSuccess d wagerId chosen c in
  c' !! Hooks.wagerKey wagerId
  = Some {| Hooks.data := Some d; Hooks.isInvalidated := false |}
  /\ Hooks.refetchOnRead (Hooks.wagerKey wagerId) c' = false
  /\ (forall k entry,
        c !! k = Some entry ->
        Hooks.partialMatchKey k [Hooks.KString Hooks.QUERY_KEYS_WAGERS] = true ->
        c' !! k = Some {| Hooks.data := Hooks.data entry; Hooks.isInvalidated := true |}
        /\ Hooks.refetchOnRead k c' = true)
  /\ (forall other, other <> wagerId ->
        c' !! Hooks.wagerKey other = c !! Hooks.wagerKey other)
  /\ (forall k,
        k <> Hooks.wagerKey wagerId ->
        Hooks.partialMatchKey k [Hooks.KString Hooks.QUERY_KEYS_WAGERS] = false ->
        c' !! k = c !! k).
Proof.
  intros c'. unfold c', Hooks.useUpdateWagerStatus_onSuccess.
  assert (Hown : Hooks.invalidateQueries [Hooks.KString Hooks.QUERY_KEYS_WAGERS]
                   (Hooks.setQueryData (Hooks.wagerKey wagerId) d c)
                 !! Hooks.wagerKey wagerId
                 = Some {| Hooks.data := Some d; Hooks.isInvalidated := false |}).
  { rewrite lookup_invalidateQueries, wagerKey_not_list.
    unfold Hooks.setQueryData. now rewrite lookup_insert_eq. }
  assert (Hframe : forall k,
             k <> Hooks.wagerKey wagerId ->
             Hooks.partialMatchKey k [Hooks.KString Hooks.QUERY_KEYS_WAGERS] = false ->
             Hooks.invalidateQueries [Hooks.KString Hooks.QUERY_KEYS_WAGERS]
               (Hooks.setQueryData (Hooks.wagerKey wagerId) d c) !! k
             = c !! k).
  { intros k Hk Hm. rewrite lookup_invalidateQueries, Hm.
    unfold Hooks.setQueryData. rewrite lookup_insert_ne by congruence.
    now destruct (c !! k). }
  split; [exact Hown|]. split; [|split; [|split]].
  - unfold Hooks.refetchOnRead. rewrite Hown. reflexivity.
  - intros k entry Hk Hm.
    assert (Hne : Hooks.wagerKey wagerId <> k).
    { intros <-. rewrite wagerKey_not_list in Hm. discriminate. }
    assert (Hk' : Hooks.invalidateQueries [Hooks.KString Hooks.QUERY_KEYS_WAGERS]
                    (Hooks.setQueryData (Hooks.wagerKey wagerId) d c) !! k
                  = Some {| Hooks.data := Hooks.data entry; Hooks.isInvalidated := true |}).
    { rewrite lookup_invalidateQueries, Hm. unfold Hooks.setQueryData.
      rewrite lookup_insert_ne by exact Hne. now rewrite Hk. }
    split; [exact Hk'|]. unfold Hooks.refetchOnRead. now rewrite Hk'.
  - intros other Hother. apply Hframe.
    + intros Heq. apply wagerKey_inj in Heq. contradiction.
    + apply wagerKey_not_list.
  - exact Hframe.
Qed.


(** Wager 1 is updated to [won]: its entry holds the new status, wager 2
    is untouched, and the list page is stale. *)
Lemma updateStatus_cache_effect_witness :
  let c' := Hooks.useUpdateWagerStatus_onSuccess won 1 won sampleCache in
  c' !! Hooks.wagerKey 1 = Some {| Hooks.data := Some won; Hooks.isInvalidated := false |}
  /\ c' !! Hooks.wagerKey 2 = Some {| Hooks.data := Some pending; Hooks.isInvalidated := false |}
  /\ c' !! Hooks.wagersKey 0%nat
     = Some {| Hooks.data := Some pending; Hooks.isInvalidated := true |}.
Proof.
  intros c'.
  destruct (updateStatus_cache_effect sampleCache won 1 won)
    as (Hown & _ & Hlist & Hother & _).
  split; [exact Hown|]. split.
  - unfold c'. rewrite (Hother 2%Z) by discriminate.
    unfold sampleCache.
    rewrite lookup_insert_ne by (apply wagerKey_ne; discriminate).
    apply lookup_insert_eq.
  - apply (Hlist (Hooks.wagersKey 0%nat)
             {| Hooks.data := Some pending; Hooks.isInvalidated := false |}).
    + unfold sampleCache.
      rewrite !lookup_insert_ne by apply wagerKey_ne_wagersKey.
      apply lookup_insert_eq.
    + apply wagersKey_is_list.
Defined.

(* --------------------------------------------------------------------- *)
(** ** Token storage *)
(* --------------------------------------------------------------------- *)

Section TokenStorage.

Import Auth AuthService.

Lemma token_key_ne_refresh : AUTH_STORAGE_KEYS_TOKEN <> AUTH_STORAGE_KEYS_REFRESH_TOKEN.
Proof. intros H. apply (f_equal length) in H. vm_compute in H. discriminate. Qed.

Lemma token_key_ne_user : AUTH_STORAGE_KEYS_TOKEN <> AUTH_STORAGE_KEYS_USER.
Proof. intros H. apply (f_equal length) in H. vm_compute in H. discriminate. Qed.

Lemma refresh_key_ne_user : AUTH_STORAGE_KEYS_REFRESH_TOKEN <> AUTH_STORAGE_KEYS_USER.
Proof. intros H. apply (f_equal length) in H. vm_compute in H. discriminate. Qed.

Lemma getItem_setItem (ls : localStorage) (k v : jsstring) :
  getItem (setItem ls k v) k = Some v.
Proof. apply lookup_insert_eq. Qed.

Lemma getItem_setItem_ne (ls : localStorage) (k k' v : jsstring) :
  k <> k' -> getItem (setItem ls k v) k' = getItem ls k'.
Proof. intros Hne. now apply lookup_insert_ne. Qed.

Lemma getItem_removeItem (ls : localStorage) (k : jsstring) :
  getItem (removeItem ls k) k = None.
Proof. apply lookup_delete_eq. Qed.

Lemma getItem_removeItem_ne (ls : localStorage) (k k' : jsstring) :
  k <> k' -> getItem (removeItem ls k) k' = getItem ls k'.
Proof. intros Hne. now apply lookup_delete_ne. Qed.

(** [getUser] reads the user key and nothing else. *)
Lemma getUser_same_item (ls ls' : localStorage) :
  getItem ls' AUTH_STORAGE_KEYS_USER = getItem ls AUTH_STORAGE_KEYS_USER ->
  getUser ls' = getUser ls.
Proof. intros Heq. unfold getUser. now rewrite Heq. Qed.

Lemma getItem_clearAll (ls : localStorage) (k : jsstring) :
  getItem (clearAll ls) k
  = if bool_decide (k = AUTH_STORAGE_KEYS_TOKEN
                    \/ k = AUTH_STORAGE_KEYS_REFRESH_TOKEN
                    \/ k = AUTH_STORAGE_KEYS_USER)
    then None else getItem ls k.
Proof.
  unfold clearAll. case_bool_decide as Hk.
  - destruct Hk as [-> | [-> | ->]].
    + rewrite !getItem_removeItem_ne
        by (apply not_eq_sym; first [apply token_key_ne_user | apply token_key_ne_refresh]).
      apply getItem_removeItem.
    + rewrite getItem_removeItem_ne by (apply not_eq_sym, refresh_key_ne_user).
      apply getItem_removeItem.
    + apply getItem_removeItem.
  - rewrite !getItem_removeItem_ne by (intros <-; tauto). reflexivity.
Qed.

End TokenStorage.

(** X1.  Storing the access token and reading it back gives the stored
    token, and leaves the refresh token and the stored user as they were;
    the same holds for the refresh token, which leaves the access token
    and the user alone.  A second write replaces the first. *)
Theorem tokenStorage_set_get (ls : gmap jsstring jsstring) (token token' : jsstring) :
  Auth.getToken (AuthService.setToken ls token) = Some token
  /\ AuthService.getRefreshToken (AuthService.setToken ls token)
     = AuthService.getRefreshToken ls
  /\ Auth.getUser (AuthService.setToken ls token) = Auth.getUser ls
  /\ AuthService.getRefreshToken (AuthService.setRefreshToken ls token) = Some token
  /\ Auth.getToken (AuthService.setRefreshToken ls token) = Auth.getToken ls
  /\ Auth.getUser (AuthService.setRefreshToken ls token) = Auth.getUser ls
  /\ Auth.getToken (AuthService.setToken (AuthService.setToken ls token) token')
     = Some token'.
Proof.
  unfold Auth.getToken, AuthService.getRefreshToken, AuthService.setToken,
    AuthService.setRefreshToken.
  split; [apply getItem_setItem|].
  split; [apply getItem_setItem_ne, token_key_ne_refresh|].
  split; [apply getUser_same_item, getItem_setItem_ne, token_key_ne_user|].
  split; [apply getItem_setItem|].
  split; [apply getItem_setItem_ne, not_eq_sym, token_key_ne_refresh|].
  split; [apply getUser_same_item, getItem_setItem_ne, refresh_key_ne_user|].
  apply getItem_setItem.
Qed.

(** X2.  After [clearAll] the access token and the refresh token read as
    [null] and [getUser] returns [null] without throwing, whatever was
    stored before, malformed user text included; every other key of
    [localStorage] keeps its value; clearing twice is clearing once. *)
Theorem clearAll_spec (ls : gmap jsstring jsstring) :
  Auth.getToken (Auth.clearAll ls) = None
  /\ AuthService.getRefreshToken (Auth.clearAll ls) = None
  /\ Auth.getUser (Auth.clearAll ls) = Return VNull
  /\ (forall k, foreignKey k -> Auth.clearAll ls !! k = ls !! k)
  /\ Auth.clearAll (Auth.clearAll ls) = Auth.clearAll ls.
Proof.
  split; [|split; [|split; [|split]]].
  - unfold Auth.getToken. rewrite getItem_clearAll.
    rewrite bool_decide_eq_true_2 by tauto. reflexivity.
  - unfold AuthService.getRefreshToken. rewrite getItem_clearAll.
    rewrite bool_decide_eq_true_2 by tauto. reflexivity.
  - unfold Auth.getUser. rewrite getItem_clearAll.
    rewrite bool_decide_eq_true_2 by tauto. reflexivity.
  - intros k (Ht & Hr & Hu). change (Auth.clearAll ls !! k) with (Auth.getItem (Auth.clearAll ls) k).
    rewrite getItem_clearAll. rewrite bool_decide_eq_false_2 by tauto. reflexivity.
  - apply map_eq. intros k.
    change (Auth.getItem (Auth.clearAll (Auth.clearAll ls)) k
            = Auth.getItem (Auth.clearAll ls) k).
    rewrite !getItem_clearAll. now case_bool_decide.
Qed.

(* --------------------------------------------------------------------- *)
(** ** Token expiry date *)
(* --------------------------------------------------------------------- *)

Section ExpiryDate.

Import Auth AuthUtils.

(** The two decoders run the same steps up to the conversion of [exp] to
    a number. *)
Lemma token_bodies_agree (dateNow : number) (token : jsstring) :
  isTokenExpiredBody dateNow token
  = (seconds ← (decoded ← atob (middleSegment token);
                payload ← JSON_parse decoded;
                exp ← getProp payload (str "exp");
                toNumber exp);
     mret (Num.ltb seconds (Num.div dateNow (Num.of_Z 1000))))
  /\ getTokenExpirationBody token
     = (seconds ← (decoded ← atob (middleSegment token);
                   payload ← JSON_parse decoded;
                   exp ← getProp payload (str "exp");
                   toNumber exp);
        mret (newDate (Num.mul seconds (Num.of_Z 1000)))).
Proof.
  unfold isTokenExpiredBody, getTokenExpirationBody, lessThanNumber.
  fold (middleSegment token).
  destruct (atob (middleSegment token)) as [decoded|]; cbn; [|split; reflexivity].
  destruct (JSON_parse decoded) as [payload|]; cbn; [|split; reflexivity].
  destruct (getProp payload (str "exp")) as [exp|]; cbn; [|split; reflexivity].
  destruct (toNumber exp); cbn; split; reflexivity.
Qed.

Lemma TimeClip_NaN : TimeClip Num.NaN = Num.NaN.
Proof. reflexivity. Qed.

Lemma mul_NaN_l (x : number) : Num.mul Num.NaN x = Num.NaN.
Proof. reflexivity. Qed.

End ExpiryDate.

(** X3.  [getTokenExpiration] and [isTokenExpired] decode a token the same
    way.  When [getTokenExpiration] returns [null], [isTokenExpired]
    returns true, at any time.  When it returns a date, the payload was
    decoded, its [exp] read as some value [exp] and converted to a number
    of seconds: the date is [new Date(exp * 1000)] and [isTokenExpired] is
    the comparison of that number with the current time.  In particular a
    payload without [exp] gives an invalid date, not [null], and is not
    expired. *)
Theorem getTokenExpiration_spec (token : jsstring) :
  (AuthUtils.getTokenExpiration token = None ->
   forall dateNow, Auth.isTokenExpired dateNow token = true)
  /\ (forall d, AuthUtils.getTokenExpiration token = Some d ->
      exists text payload exp seconds,
        atob (middleSegment token) = Return text
        /\ JSON_parse text = Return payload
        /\ getProp payload (str "exp") = Return exp
        /\ toNumber exp = Return seconds
        /\ d = AuthUtils.newDate (Num.mul seconds (Num.of_Z 1000))
        /\ (forall dateNow,
              Auth.isTokenExpired dateNow token
              = Num.ltb seconds (Num.div dateNow (Num.of_Z 1000)))
        /\ (exp = VUndefined ->
            AuthUtils.timeValue d = Num.NaN
            /\ forall dateNow, Auth.isTokenExpired dateNow token = false)).
Proof.
  unfold AuthUtils.getTokenExpiration, Auth.isTokenExpired.
  split.
  - intros Hnone dateNow.
    destruct (token_bodies_agree dateNow token) as [-> Hd]. rewrite Hd in Hnone.
    destruct (decoded ← atob (middleSegment token);
              payload ← JSON_parse decoded;
              exp ← getProp payload (str "exp");
              toNumber exp); [discriminate|].
    reflexivity.
  - intros d Hsome.
    destruct (token_bodies_agree Num.zero token) as [_ Hd]. rewrite Hd in Hsome.
    destruct (atob (middleSegment token)) as [text|] eqn:Ha; [|discriminate].
    cbn in Hsome.
    destruct (JSON_parse text) as [payload|] eqn:Hj; [|discriminate].
    cbn in Hsome.
    destruct (getProp payload (str "exp")) as [exp|] eqn:He; [|discriminate].
    cbn in Hsome.
    destruct (toNumber exp) as [seconds|] eqn:Hn; [|discriminate].
    cbn in Hsome. injection Hsome as <-.
    exists text, payload, exp, seconds.
    split; [reflexivity|]. split; [exact Hj|]. split; [exact He|].
    split; [exact Hn|]. split; [reflexivity|].
    assert (Hexpired : forall dateNow,
               tryCatch (Auth.isTokenExpiredBody dateNow token) true
               = Num.ltb seconds (Num.div dateNow (Num.of_Z 1000))).
    { intros dateNow. destruct (token_bodies_agree dateNow token) as [-> _].
      rewrite Ha. cbn. rewrite Hj. cbn. rewrite He. cbn. rewrite Hn. reflexivity. }
    split; [exact Hexpired|].
    intros ->. injection Hn as <-. split; [reflexivity|].
    intros dateNow. rewrite Hexpired. reflexivity.
Qed.

(** The token whose payload is [{"exp":1700000000}] expires at
    1700000000000 milliseconds; the payload [null] gives no date and an
    expired token; the payload [{}] gives an invalid date. *)
Lemma getTokenExpiration_spec_witness :
  AuthUtils.getTokenExpiration tokenExp1700000000
  = Some {| AuthUtils.timeValue := Num.of_Z 1700000000000 |}
  /\ Auth.isTokenExpired (Num.of_Z 1700000000000) tokenNull = true
  /\ AuthUtils.getTokenExpiration (str "header.e30.signature")
     = Some {| AuthUtils.timeValue := Num.NaN |}.
Proof.
  split; [vm_compute; reflexivity|]. split.
  - destruct (getTokenExpiration_spec tokenNull) as [Hnull _].
    apply Hnull. vm_compute. reflexivity.
  - vm_compute. reflexivity.
Defined.

(* --------------------------------------------------------------------- *)
(** ** Roles *)
(* --------------------------------------------------------------------- *)

Section Roles.

Import AuthUtils.

Lemma getProp_truthy (v : value) (k : jsstring) :
  toBoolean v = true -> exists x, getProp v k = Return x.
Proof.
  destruct v; cbn; try discriminate; intros _; try (eexists; reflexivity).
  - destruct (jseqb k (str "length")); eexists; reflexivity.
  - destruct (jseqb k (str "length")); eexists; reflexivity.
Qed.

(** [hasRole] as one expression over the [role] the user object holds. *)
Lemma hasRole_truthy (user : value) (requiredRole : jsstring) (role : value) :
  toBoolean user = true ->
  getProp user (str "role") = Return role ->
  hasRole user requiredRole
  = Return (if jseqb requiredRole (str "admin")
            then strictEqualsString role (str "admin")
            else strictEqualsString role (str "user")
                 || strictEqualsString role (str "admin")).
Proof.
  intros Ht Hr. unfold hasRole. rewrite Ht, Hr. cbn.
  destruct (jseqb requiredRole (str "admin")); [reflexivity|].
  now destruct (strictEqualsString role (str "user")).
Qed.

Lemma strictEqualsString_iff (v : value) (s : jsstring) :
  strictEqualsString v s = true <-> v = VString s.
Proof.
  destruct v; cbn; try (split; [discriminate|discriminate]).
  unfold jseqb. rewrite bool_decide_eq_true. split; congruence.
Qed.

End Roles.

(** X4.  [hasRole] never throws.  It is false for a missing user ([null],
    [undefined], or any other falsy value).  For a present user it is true
    exactly when the user's [role] is the string [admin], or is the string
    [user] and the required role is not [admin]; so an admin has every
    role, and a user whose role is neither word has none. *)
Theorem hasRole_spec (user : value) (requiredRole : jsstring) :
  exists answer,
    AuthUtils.hasRole user requiredRole = Return answer
    /\ (toBoolean user = false -> answer = false)
    /\ (answer = true <->
        toBoolean user = true
        /\ (getProp user (str "role") = Return (VString (str "admin"))
            \/ getProp user (str "role") = Return (VString (str "user"))
               /\ requiredRole <> str "admin"))
    /\ (AuthUtils.hasRole user (str "admin") = Return true -> answer = true).
Proof.
  destruct (toBoolean user) eqn:Ht.
  - destruct (getProp_truthy user (str "role") Ht) as [role Hr].
    rewrite (hasRole_truthy user requiredRole role Ht Hr).
    rewrite (hasRole_truthy user (str "admin") role Ht Hr).
    eexists. split; [reflexivity|]. split; [discriminate|].
    rewrite Hr.
    assert (Hne : VString (str "user") <> VString (str "admin")).
    { intros H.
      apply (f_equal (fun v => match v with VString s => length s | _ => 0%nat end)) in H.
      vm_compute in H. discriminate. }
    split; [|].
    + unfold jseqb at 1. case_bool_decide as Hreq.
      * rewrite strictEqualsString_iff. split.
        -- intros ->. split; [reflexivity|]. now left.
        -- intros (_ & [H | [_ H]]); [congruence|contradiction].
      * rewrite orb_true_iff, !strictEqualsString_iff. split.
        -- intros [-> | ->]; (split; [reflexivity|]); [right|left]; auto.
        -- intros (_ & [H | [H _]]); [right|left]; congruence.
    + change (jseqb (str "admin") (str "admin")) with true. cbn iota.
      intros H. injection H as ->.
      destruct (jseqb requiredRole (str "admin")); [reflexivity|].
      apply orb_true_r.
  - exists false. unfold AuthUtils.hasRole. rewrite Ht. cbn.
    split; [reflexivity|]. split; [reflexivity|]. split; [|discriminate].
    split; [discriminate|]. intros [H _]. discriminate.
Qed.

(* --------------------------------------------------------------------- *)
(** ** The authenticated user object *)
(* --------------------------------------------------------------------- *)

Section ObjectSpread.

Lemma jseqb_refl (s : jsstring) : jseqb s s = true.
Proof. unfold jseqb. now apply bool_decide_eq_true. Qed.

Lemma lookupProp_setProp (props : list (jsstring * value)) (k : jsstring) (v : value) :
  lookupProp (setProp props k v) k = Some v.
Proof.
  induction props as [|[k' v'] rest IH]; cbn.
  - now rewrite jseqb_refl.
  - destruct (jseqb k' k) eqn:E; cbn; now rewrite E.
Qed.

Lemma lookupProp_setProp_ne (props : list (jsstring * value)) (k k' : jsstring) (v : value) :
  k <> k' -> lookupProp (setProp props k v) k' = lookupProp props k'.
Proof.
  intros Hne. induction props as [|[k0 v0] rest IH]; cbn.
  - unfold jseqb. now rewrite bool_decide_eq_false_2.
  - destruct (jseqb k0 k) eqn:E; cbn.
    + unfold jseqb in E. apply bool_decide_eq_true in E. subst k0.
      unfold jseqb. now rewrite bool_decide_eq_false_2.
    + now rewrite IH.
Qed.

End ObjectSpread.

(** X5.  [createAuthenticatedUser(user, token)] is an object whose [token]
    is the given token, whether or not [user] had one, and whose every
    other property reads as it does from [user]. *)
Theorem createAuthenticatedUser_spec
  (props : list (jsstring * value)) (token : jsstring) :
  let au := AuthUtils.createAuthenticatedUser (VObject props) token in
  getProp au (str "token") = Return (VString token)
  /\ (forall k, k <> str "token" -> getProp au k = getProp (VObject props) k)
  /\ toBoolean au = true
  /\ AuthUtils.createAuthenticatedUser au token = au.
Proof.
  intros au. unfold au, AuthUtils.createAuthenticatedUser. cbn [AuthUtils.ownProperties].
  split; [|split; [|split]].
  - cbn. now rewrite lookupProp_setProp.
  - intros k Hk. cbn. rewrite lookupProp_setProp_ne by congruence. reflexivity.
  - reflexivity.
  - f_equal. induction props as [|[k v] rest IH]; cbn.
    + now rewrite jseqb_refl.
    + destruct (jseqb k (str "token")) eqn:E; cbn; rewrite E; [reflexivity|].
      now rewrite IH.
Qed.

(* --------------------------------------------------------------------- *)
(** ** The authentication reducer *)
(* --------------------------------------------------------------------- *)

Section Reducer.

Import AuthContext.

Lemma authReducer_keeps_invariant (s : AuthState) (a : AuthAction) :
  carriesUser a = true ->
  isAuthenticated s = toBoolean (user s) ->
  (error s <> VNull -> isAuthenticated s = false) ->
  isAuthenticated (authReducer s a) = toBoolean (user (authReducer s a))
  /\ (error (authReducer s a) <> VNull -> isAuthenticated (authReducer s a) = false).
Proof.
  intros Ha Hu He. destruct a; cbn in *; split;
    try reflexivity; try assumption; try (intros H; congruence); try (symmetry; assumption).
  rewrite Hu. now destruct (toBoolean (user s)).
Qed.

Lemma authReducer_stays_out (s : AuthState) (a : AuthAction) :
  isLoginSuccess a = false ->
  isAuthenticated s = false ->
  isAuthenticated (authReducer s a) = false.
Proof. destruct a; cbn; congruence. Qed.

Lemma dispatchAll_cons (s : AuthState) (a : AuthAction) (actions : list AuthAction) :
  dispatchAll s (a :: actions) = dispatchAll (authReducer s a) actions.
Proof. reflexivity. Qed.

Lemma dispatchAll_keeps_invariant (actions : list AuthAction) (s : AuthState) :
  Forall (fun a => carriesUser a = true) actions ->
  isAuthenticated s = toBoolean (user s) ->
  (error s <> VNull -> isAuthenticated s = false) ->
  isAuthenticated (dispatchAll s actions) = toBoolean (user (dispatchAll s actions))
  /\ (error (dispatchAll s actions) <> VNull -> isAuthenticated (dispatchAll s actions) = false).
Proof.
  intros Hall. revert s.
  induction Hall as [|a rest Ha _ IH]; intros s Hu He; [now split|].
  rewrite dispatchAll_cons.
  destruct (authReducer_keeps_invariant s a Ha Hu He) as [Hu' He'].
  now apply IH.
Qed.

End Reducer.

(** X6.  From the initial state, after any sequence of dispatches whose
    [LOGIN_SUCCESS] actions carry a user object, the state is
    authenticated exactly when it holds a user, and an authenticated state
    holds no error. *)
Theorem authReducer_invariants (actions : list AuthContext.AuthAction) :
  Forall (fun a => carriesUser a = true) actions ->
  let s := AuthContext.dispatchAll AuthContext.initialState actions in
  AuthContext.isAuthenticated s = toBoolean (AuthContext.user s)
  /\ (AuthContext.error s <> VNull -> AuthContext.isAuthenticated s = false).
Proof.
  intros Hall. cbn zeta.
  apply dispatchAll_keeps_invariant; [exact Hall|reflexivity|].
  intros _. reflexivity.
Qed.

(** A failed login, then a login, a token refresh and a logout. *)
Lemma authReducer_invariants_witness :
  let actions :=
    [AuthContext.LOGIN_START;
     AuthContext.LOGIN_FAILURE (VString (str "Access denied"));
     AuthContext.LOGIN_START;
     AuthContext.LOGIN_SUCCESS
       (AuthUtils.createAuthenticatedUser
          (VObject [(str "username", VString (str "ann"))]) (str "t1"));
     AuthContext.REFRESH_TOKEN_SUCCESS (str "t2")] in
  AuthContext.isAuthenticated (AuthContext.dispatchAll AuthContext.initialState actions)
  = toBoolean (AuthContext.user (AuthContext.dispatchAll AuthContext.initialState actions))
  /\ AuthContext.isAuthenticated
       (AuthContext.dispatchAll AuthContext.initialState (actions ++ [AuthContext.LOGOUT]))
     = false.
Proof.
  intros actions. split.
  - apply (authReducer_invariants actions). repeat constructor.
  - reflexivity.
Defined.

(** X7.  A failed login, a logout and a failed token refresh each leave
    the state logged out, with no user and not loading, whatever it was.
    Only [LOGIN_SUCCESS] authenticates: a state that was not authenticated
    and is after a sequence of dispatches has seen a [LOGIN_SUCCESS]; in
    particular a successful token refresh on a logged-out state leaves it
    logged out. *)
Theorem authReducer_sessions (s : AuthContext.AuthState) :
  (forall a, endsSession a = true ->
     AuthContext.isAuthenticated (AuthContext.authReducer s a) = false
     /\ AuthContext.user (AuthContext.authReducer s a) = VNull
     /\ AuthContext.isLoading (AuthContext.authReducer s a) = false)
  /\ (forall actions,
        AuthContext.isAuthenticated s = false ->
        AuthContext.isAuthenticated (AuthContext.dispatchAll s actions) = true ->
        exists a, a ∈ actions /\ isLoginSuccess a = true)
  /\ (forall token,
        AuthContext.user s = VNull ->
        AuthContext.user (AuthContext.authReducer s (AuthContext.REFRESH_TOKEN_SUCCESS token))
        = VNull
        /\ AuthContext.isAuthenticated
             (AuthContext.authReducer s (AuthContext.REFRESH_TOKEN_SUCCESS token))
           = AuthContext.isAuthenticated s).
Proof.
  split; [|split].
  - intros a Ha. destruct a; try discriminate; cbn; auto.
  - intros actions. revert s.
    induction actions as [|a rest IH]; intros s Hout Hin.
    + cbn in Hin. congruence.
    + destruct (isLoginSuccess a) eqn:Hl.
      * exists a. split; [left|exact Hl].
      * rewrite dispatchAll_cons in Hin.
        destruct (IH _ (authReducer_stays_out s a Hl Hout) Hin) as (b & Hb & Hlb).
        exists b. split; [now right|exact Hlb].
  - intros token Hu. cbn. rewrite Hu. split; reflexivity.
Qed.

(* --------------------------------------------------------------------- *)
(** ** Cache effects of the other mutations *)
(* --------------------------------------------------------------------- *)

Section MoreCacheEffects.

Import Hooks BulkHooks.

Context {Params : Type} `{Countable Params} {Data : Type}.

Implicit Types (c : queryCache Params Data) (k : list (keyPart Params)).

Lemma lookup_removeQueries (filterKey : list (keyPart Params)) c k :
  removeQueries filterKey c !! k
  = if partialMatchKey k filterKey then None else c !! k.
Proof.
  unfold removeQueries. destruct (partialMatchKey k filterKey) eqn:Hm.
  - apply map_lookup_filter_None. right. intros entry _. cbn. congruence.
  - destruct (c !! k) as [entry|] eqn:Hk.
    + apply map_lookup_filter_Some. split; [exact Hk|exact Hm].
    + apply map_lookup_filter_None. now left.
Qed.

Lemma wagerKey_matches_self (id : Z) :
  partialMatchKey (wagerKey (Params := Params) id) (wagerKey id) = true.
Proof. now apply bool_decide_eq_true. Qed.

Lemma wagerKey_matches_other (a b : Z) :
  a <> b -> partialMatchKey (wagerKey (Params := Params) a) (wagerKey b) = false.
Proof.
  intros Hab. apply bool_decide_eq_false. intros Hp.
  apply prefix_cons_inv_2, prefix_cons_inv_1 in Hp. congruence.
Qed.

Lemma wagerKey_is_wager (id : Z) :
  isWagerKey (wagerKey (Params := Params) id) = true.
Proof. apply bool_decide_eq_true. exists [KNumber id]. reflexivity. Qed.

Lemma wagersKey_not_wager (p : Params) : isWagerKey (wagersKey p) = false.
Proof.
  apply bool_decide_eq_false. intros Hp. apply prefix_cons_inv_1 in Hp.
  injection Hp as Hp. vm_compute in Hp. discriminate.
Qed.

(** A key under [['wager', id]] is no list key. *)
Lemma under_wagerKey_not_list (id : Z) k :
  partialMatchKey k (wagerKey id) = true -> isListKey k = false.
Proof.
  intros Hm. apply bool_decide_eq_true in Hm. destruct Hm as [rest ->].
  apply bool_decide_eq_false. intros Hp. apply prefix_cons_inv_1 in Hp.
  injection Hp as Hp. vm_compute in Hp. discriminate.
Qed.

Lemma lookup_remove_all (ids : list Z) c k :
  fold_left (fun cache id => removeQueries (wagerKey id) cache) ids c !! k
  = if existsb (fun id => partialMatchKey k (wagerKey id)) ids then None else c !! k.
Proof.
  revert c. induction ids as [|id rest IH]; intros c; [reflexivity|].
  cbn [fold_left existsb]. rewrite IH, lookup_removeQueries.
  destruct (partialMatchKey k (wagerKey id)); cbn; [|reflexivity].
  now destruct (existsb _ rest).
Qed.

Lemma existsb_wagerKey (ids : list Z) (id : Z) :
  existsb (fun i => partialMatchKey (wagerKey (Params := Params) id) (wagerKey i)) ids
  = bool_decide (id ∈ ids).
Proof.
  induction ids as [|i rest IH]; cbn.
  - symmetry. apply bool_decide_eq_false. apply not_elem_of_nil.
  - rewrite IH. destruct (decide (id = i)) as [->|Hne].
    + rewrite wagerKey_matches_self. symmetry. apply bool_decide_eq_true. left.
    + rewrite (wagerKey_matches_other _ _ Hne). cbn.
      apply bool_decide_ext. rewrite elem_of_cons. tauto.
Qed.

End MoreCacheEffects.

(** X8.  After a successful delete of wager [wagerId] its single-item
    entry is gone from the cache, so a read of it fetches; the single-item
    entry of every other wager is as it was; every entry of the wager list
    keeps its data and is marked invalidated. *)
Theorem deleteWager_cache_effect
  {Params : Type} `{Countable Params} {Data : Type}
  (c : Hooks.queryCache Params Data) (wagerId : Z) :
  let c' := Hooks.useDeleteWager_onSuccess wagerId c in
  c' !! Hooks.wagerKey wagerId = None
  /\ Hooks.refetchOnRead (Hooks.wagerKey wagerId) c' = true
  /\ (forall other, other <> wagerId ->
        c' !! Hooks.wagerKey other = c !! Hooks.wagerKey other)
  /\ (forall k, isListKey k = true -> c' !! k = invalidated <$> c !! k)
  /\ (forall k, isListKey k = false ->
        Hooks.partialMatchKey k (Hooks.wagerKey wagerId) = false ->
        c' !! k = c !! k).
Proof.
  intros c'. unfold c', Hooks.useDeleteWager_onSuccess.
  assert (Hown : Hooks.invalidateQueries [Hooks.KString Hooks.QUERY_KEYS_WAGERS]
                   (Hooks.removeQueries (Hooks.wagerKey wagerId) c)
                 !! Hooks.wagerKey wagerId = None).
  { rewrite lookup_invalidateQueries, lookup_removeQueries, wagerKey_matches_self.
    reflexivity. }
  assert (Hframe : forall k, isListKey k = false ->
             Hooks.partialMatchKey k (Hooks.wagerKey wagerId) = false ->
             Hooks.invalidateQueries [Hooks.KString Hooks.QUERY_KEYS_WAGERS]
               (Hooks.removeQueries (Hooks.wagerKey wagerId) c) !! k = c !! k).
  { intros k Hl Hm. unfold isListKey in Hl.
    rewrite lookup_invalidateQueries, lookup_removeQueries, Hl, Hm.
    now destruct (c !! k). }
  split; [exact Hown|]. split; [|split; [|split]].
  - unfold Hooks.refetchOnRead. now rewrite Hown.
  - intros other Hne. apply Hframe.
    + apply wagerKey_not_list.
    + now apply wagerKey_matches_other.
  - intros k Hl. rewrite lookup_invalidateQueries, lookup_removeQueries.
    destruct (Hooks.partialMatchKey k (Hooks.wagerKey wagerId)) eqn:Hm.
    + apply under_wagerKey_not_list in Hm. congruence.
    + unfold isListKey in Hl. rewrite Hl. reflexivity.
  - exact Hframe.
Qed.

(** X9.  A successful bulk status update, and a successful bulk archive,
    remove nothing from the cache and change no cached data: every entry
    of the wager list and every single-wager entry is marked invalidated,
    so its next read refetches, and every other entry is as it was. *)
Theorem bulkUpdate_cache_effect
  {Params : Type} `{Countable Params} {Data : Type}
  (c : Hooks.queryCache Params Data) :
  let c' := Hooks.useBulkUpdateStatus_onSuccess c in
  BulkHooks.useBulkArchive_onSuccess c = c'
  /\ (forall k,
        c' !! k
        = (fun entry => if isListKey k || isWagerKey k then invalidated entry else entry)
            <$> c !! k)
  /\ (forall k, Hooks.data <$> c' !! k = Hooks.data <$> c !! k)
  /\ (forall wagerId, Hooks.refetchOnRead (Hooks.wagerKey wagerId) c' = true)
  /\ (forall p, Hooks.refetchOnRead (Hooks.wagersKey p) c' = true).
Proof.
  intros c'.
  assert (Hall : forall k,
             c' !! k
             = (fun entry => if isListKey k || isWagerKey k then invalidated entry else entry)
                 <$> c !! k).
  { intros k. unfold c', Hooks.useBulkUpdateStatus_onSuccess.
    rewrite !lookup_invalidateQueries. unfold isListKey, isWagerKey.
    destruct (c !! k) as [entry|]; [|reflexivity]. cbn.
    destruct (Hooks.partialMatchKey k [Hooks.KString Hooks.QUERY_KEYS_WAGERS]),
      (Hooks.partialMatchKey k [Hooks.KString Hooks.QUERY_KEYS_WAGER]); reflexivity. }
  split; [reflexivity|]. split; [exact Hall|]. split; [|split].
  - intros k. rewrite Hall. destruct (c !! k) as [entry|]; [|reflexivity]. cbn.
    now destruct (isListKey k || isWagerKey k).
  - intros wagerId. unfold Hooks.refetchOnRead. rewrite Hall.
    rewrite wagerKey_is_wager, orb_true_r.
    now destruct (c !! Hooks.wagerKey wagerId).
  - intros p. unfold Hooks.refetchOnRead. rewrite Hall.
    unfold isListKey at 1. rewrite wagersKey_is_list. cbn.
    now destruct (c !! Hooks.wagersKey p).
Qed.

(** X10.  After a successful bulk delete of the wagers [ids], the
    single-item entry of each of them is gone and that of every wager not
    in [ids] is as it was; every entry of the wager list keeps its data
    and is marked invalidated.  With no ids only the list is
    invalidated. *)
Theorem bulkDelete_cache_effect
  {Params : Type} `{Countable Params} {Data : Type}
  (c : Hooks.queryCache Params Data) (ids : list Z) :
  let c' := BulkHooks.useBulkDelete_onSuccess ids c in
  (forall wagerId, wagerId ∈ ids -> c' !! Hooks.wagerKey wagerId = None)
  /\ (forall wagerId, wagerId ∉ ids ->
        c' !! Hooks.wagerKey wagerId = c !! Hooks.wagerKey wagerId)
  /\ (forall k, isListKey k = true -> c' !! k = invalidated <$> c !! k)
  /\ BulkHooks.useBulkDelete_onSuccess [] c = Hooks.useCreateWager_onSuccess c.
Proof.
  intros c'. unfold c', BulkHooks.useBulkDelete_onSuccess.
  split; [|split; [|split]].
  - intros wagerId Hin.
    rewrite lookup_invalidateQueries, lookup_remove_all, existsb_wagerKey.
    now rewrite bool_decide_eq_true_2.
  - intros wagerId Hout.
    rewrite lookup_invalidateQueries, lookup_remove_all, existsb_wagerKey.
    rewrite bool_decide_eq_false_2 by exact Hout.
    rewrite wagerKey_not_list. now destruct (c !! Hooks.wagerKey wagerId).
  - intros k Hl. rewrite lookup_invalidateQueries, lookup_remove_all.
    destruct (existsb _ ids) eqn:Hex.
    + apply existsb_exists in Hex as (id & _ & Hm).
      apply under_wagerKey_not_list in Hm. congruence.
    + unfold isListKey in Hl. rewrite Hl. reflexivity.
  - reflexivity.
Qed.

(** X11.  Creating a wager touches no single-wager entry and no cached
    data: it marks the entries of the wager list invalidated and leaves
    every other entry as it was. *)
Theorem createWager_cache_effect
  {Params : Type} `{Countable Params} {Data : Type}
  (c : Hooks.queryCache Params Data) :
  let c' := Hooks.useCreateWager_onSuccess c in
  (forall k, isListKey k = true -> c' !! k = invalidated <$> c !! k)
  /\ (forall k, isListKey k = false -> c' !! k = c !! k)
  /\ (forall wagerId, c' !! Hooks.wagerKey wagerId = c !! Hooks.wagerKey wagerId)
  /\ (forall p, Hooks.refetchOnRead (Hooks.wagersKey p) c' = true).
Proof.
  intros c'. unfold c', Hooks.useCreateWager_onSuccess.
  assert (Hframe : forall k, isListKey k = false ->
             Hooks.invalidateQueries [Hooks.KString Hooks.QUERY_KEYS_WAGERS] c !! k
             = c !! k).
  { intros k Hl. unfold isListKey in Hl. rewrite lookup_invalidateQueries, Hl.
    now destruct (c !! k). }
  split; [|split; [exact Hframe|split]].
  - intros k Hl. unfold isListKey in Hl. rewrite lookup_invalidateQueries, Hl.
    reflexivity.
  - intros wagerId. apply Hframe, wagerKey_not_list.
  - intros p. unfold Hooks.refetchOnRead.
    rewrite lookup_invalidateQueries, wagersKey_is_list.
    now destruct (c !! Hooks.wagersKey p).
Qed.

(* --------------------------------------------------------------------- *)
(** ** Reconnect timers over any trace *)
(* --------------------------------------------------------------------- *)

Section AnyTrace.

Import Socket.

Lemma backoff_succ (k : nat) : backoff (S k) = (2 * backoff k)%Z.
Proof. unfold backoff. rewrite Nat2Z.inj_succ, Z.pow_succ_r by lia. lia. Qed.

(** One event, from a state within the bound: the bound is kept, and a
    timer is set only by a failure below the bound, for the next
    attempt. *)
Lemma onEvent_step (s : SocketService) (e : event) :
  maxReconnectAttempts s = 5%nat ->
  (reconnectAttempts s <= 5)%nat ->
  maxReconnectAttempts (onEvent s e).1 = 5%nat
  /\ (reconnectAttempts (onEvent s e).1 <= 5)%nat
  /\ ((onEvent s e).2 = []
      /\ (reconnectAttempts (onEvent s e).1 = reconnectAttempts s
          \/ isConnect e = true /\ reconnectAttempts (onEvent s e).1 = 0%nat)
      \/ (onEvent s e).2 = [backoff (S (reconnectAttempts s))]
         /\ reconnectAttempts (onEvent s e).1 = S (reconnectAttempts s)
         /\ isFailure e = true
         /\ (reconnectAttempts s < 5)%nat).
Proof.
  intros Hmax Hle. destruct (isFailure e) eqn:Hf.
  - rewrite (onEvent_failure s e Hf).
    destruct (Nat.lt_ge_cases (reconnectAttempts s) 5) as [Hlt|Hge].
    + rewrite (attemptReconnect_below s Hmax Hlt). cbn.
      split; [reflexivity|]. split; [lia|]. right. auto.
    + rewrite (attemptReconnect_exhausted s Hmax Hge). cbn.
      split; [exact Hmax|]. split; [exact Hle|]. left. auto.
  - destruct (isConnect e) eqn:Hc.
    + destruct e; try discriminate. cbn.
      split; [exact Hmax|]. split; [lia|]. left. auto.
    + rewrite (onEvent_not_failure s e Hc Hf). cbn.
      split; [exact Hmax|]. split; [exact Hle|]. left. auto.
Qed.

Lemma run_cons (s : SocketService) (e : event) (es : list event) :
  run s (e :: es)
  = ((run (onEvent s e).1 es).1, (onEvent s e).2 ++ (run (onEvent s e).1 es).2).
Proof.
  cbn [run]. destruct (onEvent s e) as [s1 t1]. cbn.
  now destruct (run s1 es) as [s2 t2].
Qed.

Lemma run_any_trace (es : list event) (s : SocketService) :
  maxReconnectAttempts s = 5%nat ->
  (reconnectAttempts s <= 5)%nat ->
  maxReconnectAttempts (run s es).1 = 5%nat
  /\ (reconnectAttempts (run s es).1 <= 5)%nat
  /\ Forall (fun d => exists k, (1 <= k <= 5)%nat /\ d = backoff k) (run s es).2
  /\ (length (run s es).2 + reconnectAttempts s <= 5 * (1 + connects es))%nat
  /\ (length (run s es).2 <= failures es)%nat
  /\ doubling (run s es).2
  /\ (forall d, head (run s es).2 = Some d ->
        d = backoff (S (reconnectAttempts s)) \/ d = 2000%Z).
Proof.
  revert s. induction es as [|e es IH]; intros s Hmax Hle.
  - cbn. repeat split; try assumption; try lia; try constructor. discriminate.
  - rewrite run_cons. cbn [fst snd].
    destruct (onEvent_step s e Hmax Hle) as (Hmax1 & Hle1 & Hstep).
    destruct (IH _ Hmax1 Hle1) as (Hm & Ha & Hall & Hlen & Hfail & Hdbl & Hhead).
    unfold connects, failures in *. cbn [List.filter].
    destruct Hstep as [(Ht & Hatt) | (Ht & Hatt & Hf & Hlt)]; rewrite Ht in *.
    + cbn [app]. split; [exact Hm|]. split; [exact Ha|]. split; [exact Hall|].
      split; [|split; [|split]].
      * destruct Hatt as [Heq | [Hc Hz]].
        -- rewrite Heq in Hlen. destruct (isConnect e); cbn [length]; lia.
        -- rewrite Hc. cbn [length]. lia.
      * destruct (isFailure e); cbn [length]; lia.
      * exact Hdbl.
      * intros d Hd. destruct (Hhead d Hd) as [Hb | Hb]; [|now right].
        destruct Hatt as [Heq | [_ Hz]].
        -- left. now rewrite <- Heq.
        -- right. rewrite Hz in Hb. exact Hb.
    + cbn [app length]. rewrite Hf. cbn [length].
      split; [exact Hm|]. split; [exact Ha|]. split; [|split; [|split; [|split]]].
      * constructor; [|exact Hall]. exists (S (reconnectAttempts s)). split; [lia|reflexivity].
      * destruct (isConnect e); cbn [length]; lia.
      * lia.
      * destruct ((run (onEvent s e).1 es).2) as [|d' rest] eqn:Hrest; [exact I|].
        split; [|exact Hdbl].
        destruct (Hhead d' eq_refl) as [Hb | Hb]; [left|now right].
        rewrite Hb, Hatt. apply backoff_succ.
      * intros d Hd. injection Hd as <-. now left.
Qed.

End AnyTrace.

(** X12.  Over any sequence of socket events, [connect] events included,
    from a fresh service: the attempt counter never exceeds five; every
    reconnect timer is one of 2, 4, 8, 16 and 32 seconds, the first one 2
    seconds, and each later one twice its predecessor or again 2 seconds;
    there are at most five timers per connection, so at most five times
    one more than the number of [connect] events, and never more timers
    than failures. *)
Theorem reconnect_any_trace (es : list Socket.event) :
  let s' := (Socket.run Socket.newSocketService es).1 in
  let timers := (Socket.run Socket.newSocketService es).2 in
  (Socket.reconnectAttempts s' <= 5)%nat
  /\ Forall (fun d => d ∈ [2000; 4000; 8000; 16000; 32000]%Z) timers
  /\ (forall d, head timers = Some d -> d = 2000%Z)
  /\ doubling timers
  /\ (length timers <= 5 * (1 + connects es))%nat
  /\ (length timers <= failures es)%nat.
Proof.
  intros s' timers.
  destruct (run_any_trace es Socket.newSocketService eq_refl)
    as (_ & Ha & Hall & Hlen & Hfail & Hdbl & Hhead); [cbn; lia|].
  fold s' in Ha. fold timers in Hall, Hlen, Hfail, Hdbl, Hhead.
  split; [exact Ha|]. split; [|split; [|split; [exact Hdbl|split]]].
  - eapply Forall_impl; [exact Hall|]. intros d (k & Hk & ->).
    destruct k as [|[|[|[|[|[|k]]]]]]; try lia; vm_compute;
      repeat (first [left | right; try left]); fail.
  - intros d Hd. destruct (Hhead d Hd) as [-> | ->]; reflexivity.
  - cbn in Hlen. lia.
  - exact Hfail.
Qed.

(* --------------------------------------------------------------------- *)
(** ** The tab bar *)
(* --------------------------------------------------------------------- *)

Section TabBar.

Import Navigation.

(** [findIndex] answers [-1] or the index of an element that passes. *)
Lemma findIndex_range {A} (p : A -> bool) (l : list A) :
  findIndex p l = (-1)%Z
  \/ exists (k : nat) (x : A),
       findIndex p l = Z.of_nat k /\ l !! k = Some x /\ p x = true.
Proof.
  induction l as [|h l IH]; cbn [findIndex]; [now left|].
  destruct (p h) eqn:Hh.
  - right. exists 0%nat, h. auto.
  - destruct IH as [-> | (k & x & -> & Hk & Hx)]; [now left|].
    right. exists (S k), x.
    destruct (Z.ltb_spec (Z.of_nat k) 0); [lia|].
    split; [lia|]. split; [exact Hk|exact Hx].
Qed.

Lemma visibleItems_cases (u : option role) :
  visibleItems u = (if bool_decide (u = Some admin) then navigationItems
                    else firstn 4 navigationItems).
Proof. destruct u as [[|]|]; reflexivity. Qed.

Lemma filter_sublist {A} (f : A -> bool) (l : list A) :
  List.filter f l `sublist_of` l.
Proof.
  induction l as [|x l IH]; cbn; [constructor|].
  destruct (f x); now constructor.
Qed.

End TabBar.

(** X13.  The value of the tab bar is always the index of a tab when
    there is one: it is never negative, it is below the number of items
    of a non-empty list, and the visible list is never empty, whoever is
    signed in.  When some item is current, the selected item is
    current. *)
Theorem selectedTab_in_range
  (currentPath : jsstring) (items : list Navigation.NavigationItem) :
  let tab := Navigation.selectedTab currentPath items in
  (0 <= tab)%Z
  /\ (items <> [] -> (tab < Z.of_nat (length items))%Z)
  /\ ((0 <= Navigation.currentIndex currentPath items)%Z ->
      exists item, items !! Z.to_nat tab = Some item
                   /\ Navigation.isCurrent currentPath item = true)
  /\ (forall u, Navigation.visibleItems u <> []).
Proof.
  intros tab. unfold tab, Navigation.selectedTab, Navigation.currentIndex.
  assert (Hvisible : forall u, Navigation.visibleItems u <> []).
  { intros u. rewrite visibleItems_cases. now case_bool_decide. }
  destruct (findIndex_range (Navigation.isCurrent currentPath) items)
    as [-> | (k & x & -> & Hk & Hx)].
  - change (0 <=? -1)%Z with false. cbn iota.
    split; [lia|]. split; [|split; [lia|exact Hvisible]].
    intros Hne. destruct items; [contradiction|]. cbn [length]. lia.
  - destruct (Z.leb_spec 0 (Z.of_nat k)); [|lia].
    split; [lia|]. split; [|split; [|exact Hvisible]].
    + intros _. apply lookup_lt_Some in Hk. lia.
    + intros _. exists x. now rewrite Nat2Z.id.
Qed.

(** X14.  Clicking a tab selects it: when a click on tab [i] of the
    visible list navigates to a path, the tab bar rendered at that path
    has value [i], for every role; for every tab but the root one this
    also holds at every path that extends the tab's path.  A click on an
    index that is no tab navigates nowhere. *)
Theorem tab_click_selects (u : option Navigation.role) (i : nat) :
  let items := Navigation.visibleItems u in
  (forall target,
     NavigationEvents.onChange items i = Some target ->
     Navigation.selectedTab target items = Z.of_nat i
     /\ (target <> str "/" ->
         forall rest, Navigation.selectedTab (target ++ rest) items = Z.of_nat i))
  /\ (NavigationEvents.onChange items i = None <-> (length items <= i)%nat).
Proof.
  intros items. split.
  - intros target Hclick. unfold items in *. rewrite visibleItems_cases in *.
    case_bool_decide.
    + do 5 (destruct i as [|i];
            [vm_compute in Hclick; injection Hclick as <-;
             split; [vm_compute; reflexivity|];
             intros Hroot rest; try (exfalso; apply Hroot; reflexivity);
             vm_compute; destruct rest; reflexivity|]).
      discriminate.
    + do 4 (destruct i as [|i];
            [vm_compute in Hclick; injection Hclick as <-;
             split; [vm_compute; reflexivity|];
             intros Hroot rest; try (exfalso; apply Hroot; reflexivity);
             vm_compute; destruct rest; reflexivity|]).
      discriminate.
  - unfold NavigationEvents.onChange.
    destruct (items !! i) as [item|] eqn:Hi.
    + apply lookup_lt_Some in Hi. split; [discriminate|lia].
    + apply lookup_ge_None in Hi. split; [intros _; exact Hi|reflexivity].
Qed.

(** X15.  The visible tabs are the navigation items in their order, less
    the admin-only ones unless the signed-in user's role is [admin]: an
    item is visible exactly when it is a navigation item that is not
    admin-only, or the user is an admin.  So no click of a user who is not
    an admin navigates to [/admin], and at [/admin] their tab bar falls
    back to the first tab. *)
Theorem visibleItems_spec (u : option Navigation.role) :
  (forall item,
     item ∈ Navigation.visibleItems u <->
     item ∈ Navigation.navigationItems
     /\ (Navigation.adminOnly item = true -> u = Some Navigation.admin))
  /\ Navigation.visibleItems u `sublist_of` Navigation.navigationItems
  /\ (u <> Some Navigation.admin ->
      (forall i, NavigationEvents.onChange (Navigation.visibleItems u) i
                 <> Some (str "/admin"))
      /\ Navigation.selectedTab (str "/admin") (Navigation.visibleItems u) = 0%Z)
  /\ (u = Some Navigation.admin ->
      Navigation.visibleItems u = Navigation.navigationItems).
Proof.
  split; [|split; [|split]].
  - intros item. unfold Navigation.visibleItems.
    rewrite !list_elem_of_In, filter_In. split.
    + intros [Hin Hkeep]. split; [exact Hin|]. intros Hadmin.
      rewrite Hadmin in Hkeep. cbn in Hkeep.
      destruct (bool_decide (u = Some Navigation.admin)) eqn:Hu; [|discriminate].
      now apply bool_decide_eq_true in Hu.
    + intros [Hin Hadmin]. split; [exact Hin|].
      destruct (Navigation.adminOnly item); [|reflexivity].
      rewrite bool_decide_eq_true_2 by auto. reflexivity.
  - apply filter_sublist.
  - intros Hu. rewrite visibleItems_cases, bool_decide_eq_false_2 by exact Hu.
    split; [|vm_compute; reflexivity].
    intros i. do 4 (destruct i as [|i]; [vm_compute; discriminate|]).
    discriminate.
  - intros ->. reflexivity.
Qed.

(* --------------------------------------------------------------------- *)
(** ** Selecting wagers in the list *)
(* --------------------------------------------------------------------- *)

Section Selection.

Import WagerList WagerListView.

Lemma elem_of_Set_add (s : list Z) (x y : Z) :
  y ∈ Set_add s x <-> y = x \/ y ∈ s.
Proof.
  unfold Set_add. case_bool_decide as Hx.
  - split; [now right|]. intros [->|Hy]; assumption.
  - rewrite elem_of_app, list_elem_of_singleton. tauto.
Qed.

Lemma elem_of_Set_delete (s : list Z) (x y : Z) :
  y ∈ Set_delete s x <-> y <> x /\ y ∈ s.
Proof.
  unfold Set_delete. rewrite !list_elem_of_In, filter_In.
  rewrite negb_true_iff, bool_decide_eq_false. tauto.
Qed.

Lemma Set_delete_not_in (s : list Z) (x : Z) : x ∉ s -> Set_delete s x = s.
Proof.
  unfold Set_delete. induction s as [|y s IH]; intros Hx; cbn; [reflexivity|].
  apply not_elem_of_cons in Hx as [Hne Hx].
  rewrite bool_decide_eq_false_2 by congruence. cbn. now rewrite IH.
Qed.

Lemma Set_delete_add (s : list Z) (x : Z) : x ∉ s -> Set_delete (Set_add s x) x = s.
Proof.
  intros Hx. unfold Set_add. rewrite bool_decide_eq_false_2 by exact Hx.
  unfold Set_delete. rewrite List.filter_app. fold (Set_delete s x).
  rewrite (Set_delete_not_in s x Hx). cbn.
  rewrite bool_decide_eq_true_2 by reflexivity. cbn. apply app_nil_r.
Qed.

(** What adding the elements of [l] one by one does to a set. *)
Lemma fold_Set_add (l acc : list Z) :
  (forall y, y ∈ fold_left Set_add l acc <-> y ∈ acc \/ y ∈ l)
  /\ (length (fold_left Set_add l acc) <= length acc + length l)%nat
  /\ (length (fold_left Set_add l acc) = (length acc + length l)%nat
      <-> NoDup l /\ forall y, y ∈ l -> y ∉ acc).
Proof.
  revert acc. induction l as [|x l IH]; intros acc; cbn [fold_left length].
  - split; [|split; [lia|]].
    + intros y. rewrite elem_of_nil. tauto.
    + split; [intros _|lia]. split; [constructor|]. intros y Hy.
      now apply elem_of_nil in Hy.
  - destruct (IH (Set_add acc x)) as (Hmem & Hle & Hlen).
    assert (Hsize : (length (Set_add acc x)
                     = if bool_decide (x ∈ acc) then length acc else S (length acc))%nat).
    { unfold Set_add. case_bool_decide; [reflexivity|].
      rewrite length_app. cbn. lia. }
    split; [|split].
    + intros y. rewrite Hmem, elem_of_Set_add, elem_of_cons. tauto.
    + rewrite Hsize in Hle. case_bool_decide; lia.
    + rewrite Hsize in Hlen, Hle. case_bool_decide as Hx.
      * split; [lia|]. intros [_ Hdisj]. exfalso. apply (Hdisj x); [left|exact Hx].
      * replace (length acc + S (length l))%nat with (S (length acc) + length l)%nat by lia.
        rewrite Hlen, NoDup_cons. split.
        -- intros [Hnd Hdisj]. split.
           ++ split; [|exact Hnd]. intros Hin.
              apply (Hdisj x Hin). apply elem_of_Set_add. now left.
           ++ intros y Hy. apply elem_of_cons in Hy as [->|Hy]; [exact Hx|].
              intros Hacc. apply (Hdisj y Hy). apply elem_of_Set_add. now right.
        -- intros [[Hxl Hnd] Hdisj]. split; [exact Hnd|].
           intros y Hy Hin. apply elem_of_Set_add in Hin as [->|Hin]; [contradiction|].
           apply (Hdisj y); [now right|exact Hin].
Qed.

Lemma hasSelection_ticked (st : WagerListState) (wagerId : Z) :
  hasSelection (handleSelectWager st wagerId true) = true.
Proof.
  unfold hasSelection. cbn [handleSelectWager setSelectedWagers selectedWagers].
  assert (Hin : wagerId ∈ Set_add (selectedWagers st) wagerId)
    by (apply elem_of_Set_add; now left).
  destruct (Set_add _ _); [now apply elem_of_nil in Hin|reflexivity].
Qed.

End Selection.

(** X16.  Ticking Select All selects exactly the ids of the wagers listed,
    each once; the Select All box then shows as checked exactly when the
    list is not empty and its ids are pairwise distinct.  Unticking it
    empties the selection.  In no state is the box both checked and
    indeterminate. *)
Theorem selectAll_spec {E} (props : WagerList.WagerListProps E) (st : WagerList.WagerListState) :
  let st1 := WagerList.handleSelectAll props st true in
  let st0 := WagerList.handleSelectAll props st false in
  (forall wagerId,
     wagerId ∈ WagerList.selectedWagers st1 <-> wagerId ∈ wagerIds (WagerList.wagers props))
  /\ NoDup (WagerList.selectedWagers st1)
  /\ (WagerListView.allSelected props st1 = true <->
      WagerList.wagers props <> [] /\ NoDup (wagerIds (WagerList.wagers props)))
  /\ WagerList.selectedWagers st0 = []
  /\ WagerList.hasSelection st0 = false
  /\ WagerListView.allSelected props st && WagerListView.someSelected props st = false.
Proof.
  intros st1 st0.
  destruct (fold_Set_add (wagerIds (WagerList.wagers props)) []) as (Hmem & Hle & Hlen).
  split; [|split; [|split; [|split; [|split]]]].
  - intros wagerId. cbn. unfold WagerList.Set_of. fold (wagerIds (WagerList.wagers props)).
    rewrite Hmem, elem_of_nil. tauto.
  - apply Set_of_NoDup.
  - unfold WagerListView.allSelected, st1, WagerList.handleSelectAll,
      WagerList.setSelectedWagers.
    cbn [WagerList.selectedWagers]. unfold WagerList.Set_of.
    fold (wagerIds (WagerList.wagers props)).
    rewrite andb_true_iff, Nat.ltb_lt, Nat.eqb_eq.
    cbn [length] in Hlen. unfold wagerIds in Hlen at 2. rewrite length_map in Hlen.
    rewrite Hlen. split.
    + intros [Hpos [Hnd _]]. split; [|exact Hnd].
      intros Hnil. rewrite Hnil in Hpos. cbn in Hpos. lia.
    + intros [Hne Hnd]. split.
      * destruct (WagerList.wagers props); [contradiction|cbn; lia].
      * split; [exact Hnd|]. intros y _ Hy. now apply elem_of_nil in Hy.
  - reflexivity.
  - reflexivity.
  - unfold WagerListView.allSelected, WagerListView.someSelected.
    destruct (Nat.eqb_spec (length (WagerList.selectedWagers st))
                (length (WagerList.wagers props))) as [Heq|Hne].
    + rewrite Heq, Nat.ltb_irrefl, !andb_false_r. reflexivity.
    + rewrite andb_false_r. reflexivity.
Qed.

(** X17.  Ticking the box of a wager adds its id to the selection and
    unticking removes it; the other ids stay as they were, and the box of a
    wager shows checked exactly when its id is selected.  Ticking a wager
    that was not selected and unticking it again gives back the selection
    as it was. *)
Theorem selectWager_spec (st : WagerList.WagerListState) (wagerId : Z) :
  let ticked := WagerList.handleSelectWager st wagerId true in
  let unticked := WagerList.handleSelectWager st wagerId false in
  (forall x, x ∈ WagerList.selectedWagers ticked
             <-> x = wagerId \/ x ∈ WagerList.selectedWagers st)
  /\ (forall x, x ∈ WagerList.selectedWagers unticked
                <-> x <> wagerId /\ x ∈ WagerList.selectedWagers st)
  /\ WagerList.hasSelection ticked = true
  /\ (forall w, WagerListView.checked ticked w
               = bool_decide (id w = wagerId) || WagerListView.checked st w)
  /\ (forall w, WagerListView.checked unticked w
               = negb (bool_decide (id w = wagerId)) && WagerListView.checked st w)
  /\ (wagerId ∉ WagerList.selectedWagers st ->
      WagerList.selectedWagers (WagerList.handleSelectWager ticked wagerId false)
      = WagerList.selectedWagers st).
Proof.
  intros ticked unticked. cbn.
  split; [intros x; apply elem_of_Set_add|].
  split; [intros x; apply elem_of_Set_delete|].
  split; [|split; [|split]].
  - apply hasSelection_ticked.
  - intros w. unfold WagerListView.checked. cbn.
    apply eq_true_iff_eq.
    rewrite orb_true_iff, !bool_decide_eq_true. apply elem_of_Set_add.
  - intros w. unfold WagerListView.checked. cbn.
    apply eq_true_iff_eq.
    rewrite andb_true_iff, negb_true_iff, bool_decide_eq_false, !bool_decide_eq_true.
    apply elem_of_Set_delete.
  - apply Set_delete_add.
Qed.

(* --------------------------------------------------------------------- *)
(** ** Bulk archive and delete, and the cards of a list with a selection *)
(* --------------------------------------------------------------------- *)

Section CardButtons.

Import WagerUI WagerCardEvents.

Ltac scan_card :=
  rewrite !existsb_app, !existsb_when;
  rewrite !existsb_whenNumber by reflexivity;
  rewrite !existsb_ofOption by reflexivity;
  cbn [existsb]; cbn beta iota;
  rewrite ?andb_false_r, ?orb_false_r, ?andb_true_r; cbn [orb];
  rewrite ?orb_false_r.

Lemma card_hasActionsButton (props : WagerCardProps) (st : WagerCardState) :
  hasActionsButton (WagerCard props st)
  = default true (card_showActions props) && negb (default false (card_loading props)).
Proof. unfold hasActionsButton, WagerCard. scan_card. reflexivity. Qed.

Lemma card_hasUpdateStatusButton (props : WagerCardProps) (st : WagerCardState) :
  hasUpdateStatusButton (WagerCard props st)
  = isActive (card_wager props) && default true (card_showActions props)
    && negb (default false (card_loading props)).
Proof. unfold hasUpdateStatusButton, WagerCard. scan_card. reflexivity. Qed.

Lemma card_hasStatusItem (props : WagerCardProps) (st : WagerCardState) (t : WagerStatus) :
  hasStatusItem t (WagerCard props st) = statusMenuAnchor st.
Proof.
  unfold hasStatusItem, WagerCard. scan_card.
  destruct (statusMenuAnchor st); [|reflexivity]. now destruct t.
Qed.

Lemma card_hasActionsItem (props : WagerCardProps) (st : WagerCardState) (label : string) :
  hasActionsItem label (WagerCard props st)
  = anchorEl st
    && ((card_onEdit props && String.eqb label "Edit")
        || String.eqb label (if archived (card_wager props) then "Unarchive" else "Archive")
        || String.eqb label "Delete").
Proof.
  unfold hasActionsItem, WagerCard. scan_card.
  destruct (anchorEl st); [|reflexivity]. cbn [andb].
  destruct (card_onEdit props); cbn [app existsb andb orb];
    now rewrite ?orb_false_r, ?orb_assoc.
Qed.

End CardButtons.

(** X18.  A bulk archive (or unarchive) and a bulk delete call the
    single-item handler once for each selected id, in selection order; on
    the Wagers page each call is one [archiveWager] or [deleteWager]
    request and none is a batch request.  Afterwards the selection is
    empty and the bulk menu closed; with nothing selected no call is
    made. *)
Theorem bulk_archive_delete_fanout
  (ws : list Wager) (st : WagerList.WagerListState) (arch : bool) :
  let sel := WagerList.selectedWagers st in
  let archive := WagerList.handleBulkArchive (WagerList.pageProps ws) st arch in
  let delete := WagerList.handleBulkDelete (WagerList.pageProps ws) st in
  archive.1 = List.map (fun wagerId => Service.archiveWager wagerId arch) sel
  /\ delete.1 = List.map Service.deleteWager sel
  /\ Forall (fun r => Service.isBulk r = false) (archive.1 ++ delete.1)
  /\ WagerList.selectedWagers archive.2 = [] /\ WagerList.bulkMenuAnchor archive.2 = false
  /\ WagerList.selectedWagers delete.2 = [] /\ WagerList.bulkMenuAnchor delete.2 = false
  /\ (sel = [] -> archive.1 = [] /\ delete.1 = []).
Proof.
  intros sel archive delete.
  assert (Ha : archive.1 = List.map (fun wagerId => Service.archiveWager wagerId arch) sel).
  { unfold archive, WagerList.handleBulkArchive, WagerList.forEach. cbn.
    apply (flat_map_singleton (fun i => Service.archiveWager i arch)). }
  assert (Hd : delete.1 = List.map Service.deleteWager sel).
  { unfold delete, WagerList.handleBulkDelete, WagerList.forEach. cbn.
    apply (flat_map_singleton Service.deleteWager). }
  split; [exact Ha|]. split; [exact Hd|]. rewrite Ha, Hd.
  split; [|split; [reflexivity|split; [reflexivity|split; [reflexivity|split; [reflexivity|]]]]].
  - apply Forall_app. split; apply Forall_forall; intros r Hr;
      apply list_elem_of_fmap in Hr as (i & -> & _); reflexivity.
  - intros ->. split; reflexivity.
Qed.

(** X19.  In a list with bulk actions, a card shows its actions button
    and, for an active wager, its Update Status button only while nothing
    is selected; in a list without bulk actions the selection plays no
    part.  So as soon as one wager is ticked, no card of the list offers a
    status update. *)
Theorem cards_under_selection
  {E} (props : WagerList.WagerListProps E) (onWagerEdit : bool)
  (st : WagerList.WagerListState) (wager : Wager) (cardState : WagerUI.WagerCardState) :
  let card st := WagerUI.WagerCard (WagerListView.cardProps props onWagerEdit st wager) cardState in
  let hidden st := WagerList.showBulkActions props && WagerList.hasSelection st in
  WagerUI.showsUpdateStatusButton (card st) = WagerUI.isActive wager && negb (hidden st)
  /\ WagerCardEvents.hasActionsButton (card st) = negb (hidden st)
  /\ (forall wagerId,
        WagerList.showBulkActions props = true ->
        WagerUI.showsUpdateStatusButton (card (WagerList.handleSelectWager st wagerId true))
        = false)
  /\ (WagerList.showBulkActions props = true ->
      WagerUI.showsUpdateStatusButton (card (WagerList.handleSelectAll props st false))
      = WagerUI.isActive wager).
Proof.
  intros card hidden.
  assert (Hbutton : forall st',
             WagerUI.showsUpdateStatusButton (card st')
             = WagerUI.isActive wager && negb (hidden st')).
  { intros st'. unfold card, hidden. rewrite WagerCard_update_button.
    unfold WagerListView.cardProps. cbn [WagerUI.card_wager WagerUI.card_showActions].
    now destruct (WagerList.showBulkActions props). }
  split; [apply Hbutton|]. split; [|split].
  - unfold card, hidden. rewrite card_hasActionsButton.
    unfold WagerListView.cardProps. cbn [WagerUI.card_loading WagerUI.card_showActions].
    destruct (WagerList.showBulkActions props); cbn; now rewrite ?andb_true_r.
  - intros wagerId Hbulk. rewrite Hbutton. unfold hidden. rewrite Hbulk.
    rewrite hasSelection_ticked. apply andb_false_r.
  - intros Hbulk. rewrite Hbutton. unfold hidden. rewrite Hbulk. cbn.
    apply andb_true_r.
Qed.

(* --------------------------------------------------------------------- *)
(** ** Clicks on a card *)
(* --------------------------------------------------------------------- *)

Section CardClicks.

Import WagerUI WagerCardEvents.

(** One click on a card whose status menu is closed and whose wager is not
    active: the menu stays closed and no status update is called. *)
Lemma onClick_inactive (props : WagerCardProps) (st : WagerCardState) (c : click) :
  isActive (card_wager props) = false ->
  statusMenuAnchor st = false ->
  match onClick recordingHandlers props st c with
  | Some (effects, st') =>
      statusMenuAnchor st' = false
      /\ Forall (fun call => isStatusUpdateCall call = false) effects
  | None => True
  end.
Proof.
  intros Hinactive Hclosed. destruct c as [| |label|target| |]; cbn [onClick].
  - destruct (hasActionsButton _); [|exact I]. split; [exact Hclosed|constructor].
  - now rewrite card_hasUpdateStatusButton, Hinactive.
  - destruct (hasActionsItem _ _); [|exact I].
    destruct (String.eqb label "Edit"); [|destruct (String.eqb label "Delete")];
      (split; [exact Hclosed|repeat constructor]).
  - now rewrite card_hasStatusItem, Hclosed.
  - destruct (anchorEl st); [|exact I]. split; [exact Hclosed|constructor].
  - now rewrite Hclosed.
Qed.

(** One click on a card with both menus closed and no enabled button:
    nothing can be clicked. *)
Lemma onClick_no_button
  (h : WagerCardHandlers cardCall) (props : WagerCardProps) (c : click) :
  default true (card_showActions props) && negb (default false (card_loading props))
  = false ->
  onClick h props initialCardState c = None.
Proof.
  intros Hoff. destruct c as [| |label|target| |]; cbn [onClick].
  - now rewrite card_hasActionsButton, Hoff.
  - now rewrite card_hasUpdateStatusButton, <- andb_assoc, Hoff, andb_false_r.
  - now rewrite card_hasActionsItem.
  - now rewrite card_hasStatusItem.
  - reflexivity.
  - reflexivity.
Qed.

End CardClicks.

(** X20.  On a card whose wager is not active (archived, or not pending)
    no sequence of clicks, from the card as mounted, opens the status menu
    or calls the status-update handler.  On a card of an active wager
    with its actions shown and not loading, a click on Update Status
    followed by a click on a status of the menu calls the handler once,
    with the wager's own id and that status, and closes the menu.  A card
    with [showActions] false, or loading, takes no click at all.  The
    archive item of the open actions menu calls [onArchive] with the
    opposite of the wager's archived flag, and closes the menu. *)
Theorem card_clicks_spec (props : WagerUI.WagerCardProps) :
  let wager := WagerUI.card_wager props in
  let showActions := default true (WagerUI.card_showActions props) in
  let loading := default false (WagerUI.card_loading props) in
  (WagerUI.isActive wager = false ->
   forall cs,
     let result := WagerCardEvents.clicks recordingHandlers props
                     WagerUI.initialCardState cs in
     WagerUI.statusMenuAnchor result.2 = false
     /\ Forall (fun call => isStatusUpdateCall call = false) result.1)
  /\ (WagerUI.isActive wager = true -> showActions = true -> loading = false ->
      forall target,
        WagerCardEvents.clicks recordingHandlers props WagerUI.initialCardState
          [WagerCardEvents.ClickUpdateStatus; WagerCardEvents.ClickStatusItem target]
        = ([StatusUpdateCall (id wager) target], WagerUI.initialCardState))
  /\ (showActions && negb loading = false ->
      forall cs,
        WagerCardEvents.clicks recordingHandlers props WagerUI.initialCardState cs
        = ([], WagerUI.initialCardState))
  /\ (forall st,
        WagerUI.anchorEl st = true ->
        WagerCardEvents.onClick recordingHandlers props st
          (WagerCardEvents.ClickActionsItem
             (if archived wager then "Unarchive" else "Archive"))
        = Some ([ArchiveCall (id wager) (negb (archived wager))],
                WagerUI.handleMenuClose st)).
Proof.
  intros wager showActions loading. split; [|split; [|split]].
  - intros Hinactive cs.
    assert (Hgen : forall st,
               WagerUI.statusMenuAnchor st = false ->
               WagerUI.statusMenuAnchor
                 (WagerCardEvents.clicks recordingHandlers props st cs).2 = false
               /\ Forall (fun call => isStatusUpdateCall call = false)
                    (WagerCardEvents.clicks recordingHandlers props st cs).1).
    { induction cs as [|c cs IH]; intros st Hclosed; [split; [exact Hclosed|constructor]|].
      cbn [WagerCardEvents.clicks].
      pose proof (onClick_inactive props st c Hinactive Hclosed) as Hstep.
      destruct (WagerCardEvents.onClick recordingHandlers props st c)
        as [[effects st1]|]; [|now apply IH].
      destruct Hstep as [Hclosed1 Heffects].
      destruct (IH st1 Hclosed1) as [Hclosed2 Hrest].
      destruct (WagerCardEvents.clicks recordingHandlers props st1 cs) as [effects' st2].
      split; [exact Hclosed2|]. apply Forall_app. now split. }
    now apply Hgen.
  - intros Hactive Hshow Hload target.
    cbn [WagerCardEvents.clicks WagerCardEvents.onClick].
    rewrite card_hasUpdateStatusButton.
    fold wager showActions loading. rewrite Hactive, Hshow, Hload. cbn [andb negb].
    rewrite card_hasStatusItem. reflexivity.
  - intros Hoff cs. induction cs as [|c cs IH]; [reflexivity|].
    cbn [WagerCardEvents.clicks]. now rewrite onClick_no_button.
  - intros st Hopen. cbn [WagerCardEvents.onClick].
    rewrite card_hasActionsItem, Hopen. fold wager.
    unfold WagerCardEvents.handleArchive.
    destruct (archived wager); cbn; rewrite ?orb_true_r; reflexivity.
Qed.

(** Clicks on the card of the archived sample wager call no status
    update; on the sample wager itself, marking it as won calls the
    handler with wager 1 and [won]. *)
Lemma card_clicks_spec_witness :
  let card w :=
    {| WagerUI.card_wager := w; WagerUI.card_onEdit := false;
       WagerUI.card_showActions := None; WagerUI.card_loading := None |} in
  Forall (fun call => isStatusUpdateCall call = false)
    (WagerCardEvents.clicks recordingHandlers (card archivedWager) WagerUI.initialCardState
       [WagerCardEvents.ClickUpdateStatus; WagerCardEvents.ClickStatusItem won;
        WagerCardEvents.ClickActionsButton;
        WagerCardEvents.ClickActionsItem "Unarchive"]).1
  /\ WagerCardEvents.clicks recordingHandlers (card sampleWager) WagerUI.initialCardState
       [WagerCardEvents.ClickUpdateStatus; WagerCardEvents.ClickStatusItem won]
     = ([StatusUpdateCall 1 won], WagerUI.initialCardState).
Proof.
  intros card. split.
  - destruct (card_clicks_spec (card archivedWager)) as (Hinactive & _).
    apply (Hinactive eq_refl).
  - destruct (card_clicks_spec (card sampleWager)) as (_ & Hactive & _).
    apply (Hactive eq_refl eq_refl eq_refl won).
Defined.

(* --------------------------------------------------------------------- *)
(** ** Protected routes *)
(* --------------------------------------------------------------------- *)

Section ProtectedRoutes.

Import AuthContext Routes.

(** The route as one expression, for a user that is present. *)
Lemma ProtectedRoute_present
  (auth : AuthState) (requiredRole redirectTo : option jsstring) (role : value) :
  isLoading auth = false ->
  isAuthenticated auth = true ->
  toBoolean (user auth) = true ->
  getProp (user auth) (str "role") = Return role ->
  ProtectedRoute auth requiredRole redirectTo
  = Return (if bool_decide (requiredRole = Some (str "admin"))
               && negb (AuthUtils.strictEqualsString role (str "admin"))
            then AccessDenied else Children).
Proof.
  intros Hl Ha Hu Hr. unfold ProtectedRoute. rewrite Hl, Ha, Hu. cbn [negb orb].
  destruct requiredRole as [required|]; [|reflexivity].
  destruct (toBoolean (VString required)) eqn:Ht.
  - rewrite Hr. cbn. case_bool_decide as Hadmin.
    + injection Hadmin as ->. rewrite jseqb_refl.
      now destruct (AuthUtils.strictEqualsString role (str "admin")).
    + destruct (AuthUtils.strictEqualsString role required); cbn; [reflexivity|].
      unfold jseqb. rewrite bool_decide_eq_false_2 by congruence. reflexivity.
  - rewrite bool_decide_eq_false_2; [reflexivity|].
    intros Heq. injection Heq as ->. vm_compute in Ht. discriminate.
Qed.

End ProtectedRoutes.

(** X21.  A protected route never throws.  While the authentication state
    is loading it shows the progress view; when the state is not
    authenticated or holds no user it redirects, to [/login] unless told
    otherwise; else it renders its children, except that a route requiring
    [admin] shows Access Denied to a user whose role is not [admin].  A
    route requiring [user] admits every authenticated user, whatever the
    role.  For [AdminRoute] the children are rendered exactly when the
    state is loaded and authenticated and [hasRole(user, 'admin')]
    holds. *)
Theorem ProtectedRoute_spec
  (auth : AuthContext.AuthState) (requiredRole redirectTo : option jsstring) :
  exists view,
    Routes.ProtectedRoute auth requiredRole redirectTo = Return view
    /\ (AuthContext.isLoading auth = true -> view = Routes.CheckingAuthentication)
    /\ (view = Routes.NavigateTo (default (str "/login") redirectTo) <->
        AuthContext.isLoading auth = false
        /\ (AuthContext.isAuthenticated auth = false
            \/ toBoolean (AuthContext.user auth) = false))
    /\ (view = Routes.AccessDenied <->
        AuthContext.isLoading auth = false
        /\ AuthContext.isAuthenticated auth = true
        /\ toBoolean (AuthContext.user auth) = true
        /\ requiredRole = Some (str "admin")
        /\ getProp (AuthContext.user auth) (str "role") <> Return (VString (str "admin")))
    /\ (requiredRole <> Some (str "admin") ->
        (view = Routes.Children <->
         AuthContext.isLoading auth = false
         /\ AuthContext.isAuthenticated auth = true
         /\ toBoolean (AuthContext.user auth) = true))
    /\ (requiredRole = Some (str "admin") ->
        (view = Routes.Children <->
         AuthContext.isLoading auth = false
         /\ AuthContext.isAuthenticated auth = true
         /\ AuthUtils.hasRole (AuthContext.user auth) (str "admin") = Return true)).
Proof.
  destruct (AuthContext.isLoading auth) eqn:Hl.
  { exists Routes.CheckingAuthentication. unfold Routes.ProtectedRoute. rewrite Hl.
    split; [reflexivity|]. split; [reflexivity|].
    repeat split; try discriminate; intros; intuition discriminate. }
  destruct (AuthContext.isAuthenticated auth) eqn:Ha;
    [destruct (toBoolean (AuthContext.user auth)) eqn:Hu|].
  - destruct (getProp_truthy _ (str "role") Hu) as [role Hr].
    rewrite (ProtectedRoute_present auth requiredRole redirectTo role Hl Ha Hu Hr).
    rewrite (hasRole_truthy _ (str "admin") role Hu Hr), Hr, jseqb_refl.
    eexists. split; [reflexivity|]. split; [discriminate|].
    case_bool_decide as Hadmin; cbn [andb].
    + destruct (AuthUtils.strictEqualsString role (str "admin")) eqn:Hrole; cbn [negb].
      * apply strictEqualsString_iff in Hrole. subst role.
        repeat split; try discriminate; try congruence; intros; intuition congruence.
      * assert (Hne : Return role <> Return (VString (str "admin"))).
        { intros Heq. injection Heq as ->. cbn in Hrole.
          rewrite jseqb_refl in Hrole. discriminate. }
        repeat split; try discriminate; try congruence; try assumption;
          intros; intuition congruence.
    + repeat split; try discriminate; try congruence; intros; intuition congruence.
  - exists (Routes.NavigateTo (default (str "/login") redirectTo)).
    unfold Routes.ProtectedRoute, AuthUtils.hasRole. rewrite Hl, Ha, Hu. cbn.
    unfold mret, completion_ret.
    repeat split; try discriminate; try congruence; intros; intuition congruence.
  - exists (Routes.NavigateTo (default (str "/login") redirectTo)).
    unfold Routes.ProtectedRoute. rewrite Hl, Ha. cbn.
    repeat split; try discriminate; try congruence; intros; intuition congruence.
Qed.

(* --------------------------------------------------------------------- *)
(** ** Starting, refreshing and ending a session *)
(* --------------------------------------------------------------------- *)

Section Sessions.

Import Auth AuthService AuthContext AuthProvider.

Lemma getUser_setToken (ls : localStorage) (token : jsstring) :
  getUser (setToken ls token) = getUser ls.
Proof. apply getUser_same_item, getItem_setItem_ne, token_key_ne_user. Qed.

Lemma getToken_setToken (ls : localStorage) (token : jsstring) :
  getToken (setToken ls token) = Some token.
Proof. apply getItem_setItem. Qed.

Lemma getToken_clearAll (ls : localStorage) : getToken (clearAll ls) = None.
Proof.
  unfold getToken. rewrite getItem_clearAll.
  now rewrite bool_decide_eq_true_2 by tauto.
Qed.

Lemma getRefreshToken_clearAll (ls : localStorage) : getRefreshToken (clearAll ls) = None.
Proof.
  unfold getRefreshToken. rewrite getItem_clearAll.
  now rewrite bool_decide_eq_true_2 by tauto.
Qed.

Lemma getUser_clearAll (ls : localStorage) : getUser (clearAll ls) = Return VNull.
Proof.
  unfold getUser. rewrite getItem_clearAll.
  now rewrite bool_decide_eq_true_2 by tauto.
Qed.

Lemma clearAll_setToken (ls : localStorage) (token : jsstring) :
  clearAll (setToken ls token) = clearAll ls.
Proof.
  apply map_eq. intros k.
  change (getItem (clearAll (setToken ls token)) k = getItem (clearAll ls) k).
  rewrite !getItem_clearAll. case_bool_decide as Hk; [reflexivity|].
  apply getItem_setItem_ne. intros <-. tauto.
Qed.

(** Without a stored refresh token no request is made. *)
Lemma refreshToken_not_stored (post : AuthApi.refreshEndpoint) (ls : localStorage) :
  stored (getRefreshToken ls) = false ->
  AuthApi.refreshToken post ls = AuthApi.Rejected AuthApi.noRefreshToken.
Proof.
  unfold AuthApi.refreshToken, stored.
  destruct (getRefreshToken ls) as [rt|]; [|reflexivity].
  now intros ->.
Qed.

Lemma token_of_authenticated_user (user : value) (token : jsstring) :
  getProp (AuthUtils.createAuthenticatedUser user token) (str "token")
  = Return (VString token).
Proof.
  unfold AuthUtils.createAuthenticatedUser. cbn. now rewrite lookupProp_setProp.
Qed.

End Sessions.

(** X22.  [initializeAuth] on mount.  When the stored user text is not
    valid JSON it rejects before dispatching anything, so the state stays
    loading.  Otherwise it never rejects and dispatches exactly one action,
    after which the state is not loading, and is authenticated exactly
    when a token and a user were stored and the token was not expired or
    was refreshed; the user of an authenticated state carries the very
    token the storage then holds.  With a token that is not expired the
    storage is untouched and no request is made; with an expired one and
    no stored refresh token the storage is cleared without a request. *)
Theorem initializeAuth_spec
  (dateNow : number) (post : AuthApi.refreshEndpoint) (ls : gmap jsstring jsstring) :
  let o := AuthProvider.initializeAuth dateNow post ls in
  let s := stateAfter (AuthProvider.dispatched o) in
  (forall e, Auth.getUser ls = Throw e ->
     AuthProvider.dispatched o = [] /\ AuthProvider.storage o = ls
     /\ AuthProvider.rejected o = Some (AuthProvider.errorValue e)
     /\ AuthContext.isLoading s = true)
  /\ (forall user, Auth.getUser ls = Return user ->
      AuthProvider.rejected o = None
      /\ length (AuthProvider.dispatched o) = 1%nat
      /\ AuthContext.isLoading s = false
      /\ (AuthContext.isAuthenticated s = true <->
          stored (Auth.getToken ls) && toBoolean user = true
          /\ (forall token, Auth.getToken ls = Some token ->
                Auth.isTokenExpired dateNow token = true ->
                exists newToken, AuthApi.refreshToken post ls = AuthApi.Resolved newToken))
      /\ (AuthContext.isAuthenticated s = true ->
          exists token,
            Auth.getToken (AuthProvider.storage o) = Some token
            /\ getProp (AuthContext.user s) (str "token") = Return (VString token))
      /\ (forall token, Auth.getToken ls = Some token ->
            Auth.isTokenExpired dateNow token = false ->
            o = AuthProvider.initializeAuth dateNow unreachable ls
            /\ AuthProvider.storage o = ls)
      /\ (forall token, Auth.getToken ls = Some token ->
            toBoolean (VString token) && toBoolean user = true ->
            Auth.isTokenExpired dateNow token = true ->
            stored (AuthService.getRefreshToken ls) = false ->
            o = AuthProvider.initializeAuth dateNow unreachable ls
            /\ AuthProvider.storage o = Auth.clearAll ls
            /\ AuthProvider.dispatched o = [AuthContext.REFRESH_TOKEN_FAILURE])).
Proof.
  intros o s. split.
  - intros e He. unfold s, o, AuthProvider.initializeAuth. rewrite He. cbn.
    repeat split.
  - intros user Hu. unfold s, o, AuthProvider.initializeAuth. rewrite Hu.
    destruct (Auth.getToken ls) as [token|] eqn:Htok; cbn [stored].
    2:{ cbn -[toBoolean].
        split; [reflexivity|]. split; [reflexivity|]. split; [reflexivity|].
        split; [|split; [discriminate|split]].
        - split; [discriminate|]. now intros [H _].
        - intros t Ht. discriminate.
        - intros t Ht. discriminate. }
    destruct (toBoolean (VString token) && toBoolean user) eqn:Hboth.
    2:{ cbn -[toBoolean].
        split; [reflexivity|]. split; [reflexivity|]. split; [reflexivity|].
        split; [|split; [discriminate|split]].
        - split; [discriminate|]. intros [H _]. discriminate.
        - intros t _ _. split; reflexivity.
        - intros t Ht Hb. injection Ht as <-. congruence. }
    destruct (Auth.isTokenExpired dateNow token) eqn:Hexp.
    + destruct (AuthApi.refreshToken post ls) as [newToken|reason] eqn:Href.
      * cbn -[toBoolean].
        split; [reflexivity|]. split; [reflexivity|]. split; [reflexivity|].
        split; [|split; [|split]].
        -- split; [|reflexivity]. intros _. split; [reflexivity|].
           intros t _ _. now exists newToken.
        -- intros _. exists newToken. rewrite getToken_setToken.
           split; [reflexivity|]. apply token_of_authenticated_user.
        -- intros t Ht. injection Ht as <-. congruence.
        -- intros t Ht _ _ Hnone. rewrite (refreshToken_not_stored post ls Hnone) in Href.
           discriminate.
      * cbn -[toBoolean].
        split; [reflexivity|]. split; [reflexivity|]. split; [reflexivity|].
        split; [|split; [discriminate|split]].
        -- split; [discriminate|]. intros [_ Hneed].
           destruct (Hneed token eq_refl Hexp) as [newToken Hnew]. discriminate.
        -- intros t Ht. injection Ht as <-. congruence.
        -- intros t Ht _ _ Hnone.
           rewrite (refreshToken_not_stored unreachable ls Hnone). repeat split.
    + cbn -[toBoolean].
      split; [reflexivity|]. split; [reflexivity|]. split; [reflexivity|].
      split; [|split; [|split]].
      * split; [|reflexivity]. intros _. split; [reflexivity|].
        intros t Ht. injection Ht as <-. congruence.
      * intros _. exists token. split; [exact Htok|]. apply token_of_authenticated_user.
      * intros t _ _. split; reflexivity.
      * intros t Ht. injection Ht as <-. congruence.
Qed.

(** With the truncated user record in storage the provider rejects with a
    [SyntaxError] and dispatches nothing; with an unexpired token and a
    well-formed user it signs the user in with that token. *)
Lemma initializeAuth_spec_witness :
  let broken : gmap jsstring jsstring :=
    <[Auth.AUTH_STORAGE_KEYS_USER := truncatedUser]>
      (<[Auth.AUTH_STORAGE_KEYS_TOKEN := tokenExp1700000000]> ∅) in
  let sound : gmap jsstring jsstring :=
    <[Auth.AUTH_STORAGE_KEYS_USER := storedUser]>
      (<[Auth.AUTH_STORAGE_KEYS_TOKEN := tokenExp1700000000]> ∅) in
  AuthProvider.dispatched
    (AuthProvider.initializeAuth (Num.of_Z 1699996400000) unreachable broken) = []
  /\ AuthContext.isAuthenticated
       (stateAfter
          (AuthProvider.dispatched
             (AuthProvider.initializeAuth (Num.of_Z 1699996400000) unreachable sound)))
     = true.
Proof.
  intros broken sound. split.
  - destruct (initializeAuth_spec (Num.of_Z 1699996400000) unreachable broken)
      as [Hthrow _].
    destruct (Hthrow SyntaxError) as (Hnone & _); [|exact Hnone].
    vm_compute. reflexivity.
  - vm_compute. reflexivity.
Defined.

(** X23.  Logging out, whether or not the server answered: the state is
    logged out with no user and no error, the access token, the refresh
    token and the user are gone from the storage (a token the response
    interceptor stored meanwhile included), and nothing is rejected.  A
    reload after it signs nobody in: [initializeAuth] on the storage left
    behind makes no request, changes nothing and only ends the loading
    state. *)
Theorem logout_spec
  (serverAnswer : AuthApi.settled unit) (ls : gmap jsstring jsstring)
  (s : AuthContext.AuthState) :
  let o := AuthProvider.logout serverAnswer ls in
  let s' := AuthContext.dispatchAll s (AuthProvider.dispatched o) in
  AuthContext.isAuthenticated s' = false
  /\ AuthContext.user s' = VNull
  /\ AuthContext.error s' = VNull
  /\ AuthProvider.rejected o = None
  /\ Auth.getToken (AuthProvider.storage o) = None
  /\ AuthService.getRefreshToken (AuthProvider.storage o) = None
  /\ Auth.getUser (AuthProvider.storage o) = Return VNull
  /\ (forall token,
        AuthProvider.storage (AuthProvider.logout serverAnswer (AuthService.setToken ls token))
        = AuthProvider.storage o)
  /\ (forall dateNow post,
        AuthProvider.initializeAuth dateNow post (AuthProvider.storage o)
        = {| AuthProvider.storage := AuthProvider.storage o;
             AuthProvider.dispatched := [AuthContext.SET_LOADING false];
             AuthProvider.rejected := None |}).
Proof.
  intros o s'. cbn [o AuthProvider.logout AuthProvider.storage AuthApi.logout].
  split; [reflexivity|]. split; [reflexivity|]. split; [reflexivity|].
  split; [reflexivity|].
  split; [apply getToken_clearAll|]. split; [apply getRefreshToken_clearAll|].
  split; [apply getUser_clearAll|]. split; [intros token; apply clearAll_setToken|].
  intros dateNow post. unfold AuthProvider.initializeAuth.
  now rewrite getUser_clearAll, getToken_clearAll.
Qed.

(** X24.  Refreshing the token from the context.  Without a stored
    refresh token no request is made and the refresh fails.  When the
    request resolves with a new token, that token is what the storage
    then holds and what the user of the state carries, the rest of the
    user and the authentication flag being as before.  When it fails, the
    storage is cleared, the state is logged out with the session-expired
    message, and the reason is passed on. *)
Theorem refreshToken_spec
  (post : AuthApi.refreshEndpoint) (ls : gmap jsstring jsstring)
  (s : AuthContext.AuthState) :
  let o := AuthProvider.refreshToken post ls in
  let s' := AuthContext.dispatchAll s (AuthProvider.dispatched o) in
  (stored (AuthService.getRefreshToken ls) = false ->
   o = AuthProvider.refreshToken unreachable ls
   /\ AuthProvider.rejected o = Some AuthApi.noRefreshToken)
  /\ (forall newToken,
        AuthApi.refreshToken post ls = AuthApi.Resolved newToken ->
        AuthProvider.rejected o = None
        /\ Auth.getToken (AuthProvider.storage o) = Some newToken
        /\ Auth.getUser (AuthProvider.storage o) = Auth.getUser ls
        /\ AuthContext.isAuthenticated s' = AuthContext.isAuthenticated s
        /\ (toBoolean (AuthContext.user s) = true ->
            getProp (AuthContext.user s') (str "token") = Return (VString newToken))
        /\ (forall props k,
              AuthContext.user s = VObject props -> k <> str "token" ->
              getProp (AuthContext.user s') k = getProp (AuthContext.user s) k))
  /\ (forall reason,
        AuthApi.refreshToken post ls = AuthApi.Rejected reason ->
        AuthProvider.rejected o = Some reason
        /\ AuthProvider.storage o = Auth.clearAll ls
        /\ AuthContext.isAuthenticated s' = false
        /\ AuthContext.user s' = VNull
        /\ AuthContext.error s'
           = VString (str "Session expired. Please log in again.")).
Proof.
  intros o s'. unfold s', o, AuthProvider.refreshToken. split; [|split].
  - intros Hnone.
    rewrite (refreshToken_not_stored post ls Hnone),
      (refreshToken_not_stored unreachable ls Hnone).
    split; reflexivity.
  - intros newToken ->. cbn -[toBoolean].
    split; [reflexivity|]. split; [apply getToken_setToken|].
    split; [apply getUser_setToken|]. split; [reflexivity|]. split.
    + intros ->. cbn. now rewrite lookupProp_setProp.
    + intros props k -> Hk. cbn. rewrite lookupProp_setProp_ne by congruence.
      reflexivity.
  - intros reason ->. cbn. repeat split.
Qed.

(* --------------------------------------------------------------------- *)
(** ** The interceptors *)
(* --------------------------------------------------------------------- *)

Section Interceptors.

Import Auth AuthService AuthApi.

Lemma getRefreshToken_setToken (ls : localStorage) (token : jsstring) :
  getRefreshToken (setToken ls token) = getRefreshToken ls.
Proof. apply getItem_setItem_ne, token_key_ne_refresh. Qed.

(** The interceptor leaves alone every failure that is not a first
    401. *)
Lemma onResponseError_passes
  (post : refreshEndpoint) (ls : localStorage) (error status : value)
  (originalRequest : requestConfig) :
  responseStatus error = Return status ->
  strictEqualsNumber status (Num.of_Z 401) && negb (_retry originalRequest) = false ->
  onResponseError post ls error originalRequest
  = Return {| storage := ls; location := None;
              config := originalRequest; result := Reject error |}.
Proof.
  intros Hs Hc. unfold onResponseError. rewrite Hs.
  cbn [mbind completion_bind]. now rewrite Hc.
Qed.

End Interceptors.

(** X25.  The request interceptor puts [Bearer] and the stored access
    token on a request exactly when a non-empty token is stored, and
    touches nothing else.  So after [setToken] with a non-empty token
    every request carries that token, and after [clearAll] a request is
    sent as it was built. *)
Theorem onRequest_spec (ls : gmap jsstring jsstring) (config : AuthApi.requestConfig) :
  (stored (Auth.getToken ls) = false -> AuthApi.onRequest ls config = config)
  /\ (forall token,
        Auth.getToken ls = Some token -> token <> [] ->
        AuthApi.Authorization (AuthApi.onRequest ls config) = Some (str "Bearer " ++ token))
  /\ AuthApi._retry (AuthApi.onRequest ls config) = AuthApi._retry config
  /\ (forall token,
        token <> [] ->
        AuthApi.Authorization (AuthApi.onRequest (AuthService.setToken ls token) config)
        = Some (str "Bearer " ++ token))
  /\ AuthApi.onRequest (Auth.clearAll ls) config = config.
Proof.
  assert (Hpresent : forall ls' token,
             Auth.getToken ls' = Some token -> token <> [] ->
             AuthApi.Authorization (AuthApi.onRequest ls' config)
             = Some (str "Bearer " ++ token)).
  { intros ls' token Ht Hne. unfold AuthApi.onRequest. rewrite Ht. cbn.
    now rewrite bool_decide_eq_false_2. }
  split; [|split; [apply Hpresent|split; [|split]]].
  - unfold AuthApi.onRequest, stored. destruct (Auth.getToken ls) as [token|]; [|reflexivity].
    now intros ->.
  - unfold AuthApi.onRequest. destruct (Auth.getToken ls) as [token|]; [|reflexivity].
    now destruct (toBoolean (VString token)).
  - intros token Hne. apply Hpresent; [apply getToken_setToken|exact Hne].
  - unfold AuthApi.onRequest. now rewrite getToken_clearAll.
Qed.

(** A request built after the token [t1] was stored carries it. *)
Lemma onRequest_spec_witness :
  AuthApi.Authorization
    (AuthApi.onRequest (AuthService.setToken ∅ (str "t1"))
       {| AuthApi.Authorization := None; AuthApi._retry := false |})
  = Some (str "Bearer t1").
Proof.
  destruct (onRequest_spec (AuthService.setToken ∅ (str "t1"))
              {| AuthApi.Authorization := None; AuthApi._retry := false |})
    as (_ & Hpresent & _).
  apply (Hpresent (str "t1")); [reflexivity|discriminate].
Defined.

(** X26.  The response interceptor, for an error object.  A failure
    whose status is not 401, or of a request already marked [_retry], is
    passed on with storage and request untouched and no refresh request.
    On a first 401 the request is marked [_retry]; then, without a stored
    refresh token the error is passed on and the storage untouched; when
    the refresh resolves, the new token is stored and the request is sent
    again carrying it; when the refresh fails, the storage is cleared,
    the page goes to [/login] and the refresh error is passed on.  A
    request sent again that fails once more, with any status, is not
    refreshed a second time. *)
Theorem onResponseError_spec
  (post : AuthApi.refreshEndpoint) (ls : gmap jsstring jsstring)
  (props : list (jsstring * value)) (originalRequest : AuthApi.requestConfig) :
  let error := VObject props in
  let status := field (field error "response") "status" in
  let first401 := strictEqualsNumber status (Num.of_Z 401)
                  && negb (AuthApi._retry originalRequest) in
  exists r,
    AuthApi.onResponseError post ls error originalRequest = Return r
    /\ (first401 = false ->
        r = {| AuthApi.storage := ls; AuthApi.location := None;
               AuthApi.config := originalRequest; AuthApi.result := AuthApi.Reject error |})
    /\ (first401 = true ->
        AuthApi._retry (AuthApi.config r) = true
        /\ (stored (AuthService.getRefreshToken ls) = false ->
            AuthApi.storage r = ls /\ AuthApi.location r = None
            /\ AuthApi.result r = AuthApi.Reject error)
        /\ (forall refreshToken access_token,
              AuthService.getRefreshToken ls = Some refreshToken -> refreshToken <> [] ->
              post refreshToken = AuthApi.Resolved access_token ->
              Auth.getToken (AuthApi.storage r) = Some access_token
              /\ AuthService.getRefreshToken (AuthApi.storage r) = Some refreshToken
              /\ AuthApi.location r = None
              /\ AuthApi.result r
                 = AuthApi.SendAgain
                     {| AuthApi.Authorization := Some (str "Bearer " ++ access_token);
                        AuthApi._retry := true |}
              /\ forall error' post',
                   exists r',
                     AuthApi.onResponseError post' (AuthApi.storage r) (VObject error')
                       (AuthApi.config r) = Return r'
                     /\ AuthApi.result r' = AuthApi.Reject (VObject error')
                     /\ AuthApi.storage r' = AuthApi.storage r)
        /\ (forall refreshToken refreshError,
              AuthService.getRefreshToken ls = Some refreshToken -> refreshToken <> [] ->
              post refreshToken = AuthApi.Rejected refreshError ->
              AuthApi.storage r = Auth.clearAll ls
              /\ AuthApi.location r = Some (str "/login")
              /\ AuthApi.result r = AuthApi.Reject refreshError)).
Proof.
  intros error status first401.
  assert (Hstatus : forall ps, Auth.responseStatus (VObject ps)
                               = Return (field (field (VObject ps) "response") "status")).
  { intros ps. unfold Auth.responseStatus, field. cbn.
    now destruct (default VUndefined (lookupProp ps (str "response"))). }
  destruct first401 eqn:Hfirst; unfold first401 in Hfirst.
  - unfold AuthApi.onResponseError at 1. unfold error. rewrite Hstatus. fold error status.
    cbn [mbind completion_bind].
    rewrite Hfirst.
    apply andb_true_iff in Hfirst as [H401 Hretry]. apply negb_true_iff in Hretry.
    destruct (AuthService.getRefreshToken ls) as [rt|] eqn:Hrt; cbn [stored].
    + destruct (toBoolean (VString rt)) eqn:Hrtb.
      * assert (Hne : rt <> []) by (intros ->; discriminate).
        destruct (post rt) as [access_token|refreshError] eqn:Hpost.
        -- eexists. split; [reflexivity|]. split; [discriminate|]. intros _.
           cbn [AuthApi.config AuthApi.storage AuthApi.location AuthApi.result AuthApi._retry].
           split; [reflexivity|]. split; [discriminate|]. split.
           ++ intros rt' at' Hrt' _ Hpost'. injection Hrt' as <-.
              rewrite Hpost in Hpost'. injection Hpost' as <-.
              split; [apply getToken_setToken|].
              split; [rewrite getRefreshToken_setToken; exact Hrt|].
              split; [reflexivity|]. split; [reflexivity|].
              intros error' post'. eexists.
              split; [apply (onResponseError_passes _ _ _ _ _ (Hstatus error')),
                        andb_false_r|].
              split; reflexivity.
           ++ intros rt' e' Hrt' _ Hpost'. injection Hrt' as <-. congruence.
        -- eexists. split; [reflexivity|]. split; [discriminate|]. intros _.
           cbn [AuthApi.config AuthApi.storage AuthApi.location AuthApi.result AuthApi._retry].
           split; [reflexivity|]. split; [discriminate|]. split.
           ++ intros rt' at' Hrt' _ Hpost'. injection Hrt' as <-. congruence.
           ++ intros rt' e' Hrt' _ Hpost'. injection Hrt' as <-.
              rewrite Hpost in Hpost'. injection Hpost' as <-. repeat split.
      * assert (Hnil : rt = []).
        { cbn in Hrtb. apply negb_false_iff, bool_decide_eq_true in Hrtb. exact Hrtb. }
        eexists. split; [reflexivity|]. split; [discriminate|]. intros _.
        cbn [AuthApi.config AuthApi.storage AuthApi.location AuthApi.result AuthApi._retry].
        split; [reflexivity|]. split; [repeat split|]. split.
        -- intros rt' at' Hrt' Hne. injection Hrt' as <-. contradiction.
        -- intros rt' e' Hrt' Hne. injection Hrt' as <-. contradiction.
    + eexists. split; [reflexivity|]. split; [discriminate|]. intros _.
      cbn [AuthApi.config AuthApi.storage AuthApi.location AuthApi.result AuthApi._retry].
      split; [reflexivity|]. split; [repeat split|]. split; discriminate.
  - eexists. split; [|split; [intros _; reflexivity|discriminate]].
    apply (onResponseError_passes _ _ _ status); [apply Hstatus|exact Hfirst].
Qed.

(* --------------------------------------------------------------------- *)
(** ** Matching *)
(* --------------------------------------------------------------------- *)

Section Matching.

Import RegExp.

(** A greedy run, then the rest of the pattern: it matches exactly when
    some run of the class, possibly empty, is followed by a match of the
    rest. *)
Lemma greedy_is_Some {A} (cls : jschar -> bool) (continue : jsstring -> option A)
  (s : jsstring) :
  is_Some (greedy cls continue s) <->
  exists run rest,
    s = run ++ rest /\ Forall (fun c => cls c = true) run /\ is_Some (continue rest).
Proof.
  induction s as [|c r IH]; cbn [greedy].
  - split.
    + intros H. exists [], []. auto.
    + intros (run & rest & Heq & _ & H).
      symmetry in Heq. apply app_eq_nil in Heq as [-> ->]. exact H.
  - destruct (cls c) eqn:Hc.
    + destruct (greedy cls continue r) as [a|] eqn:Hg.
      * split; [intros _|intros _; eexists; reflexivity].
        destruct IH as [IH _]. destruct (IH (mk_is_Some _ _ eq_refl)) as (run & rest & -> & Hrun & H).
        exists (c :: run), rest. auto.
      * split.
        -- intros H. exists [], (c :: r). auto.
        -- intros (run & rest & Heq & Hrun & H).
           destruct run as [|c' run]; [cbn in Heq; now subst rest|].
           cbn in Heq. injection Heq as <- ->.
           apply Forall_cons in Hrun as [_ Hrun].
           destruct IH as [_ IH]. destruct IH as [a Ha]; [now exists run, rest|].
           discriminate.
    + split.
      * intros H. exists [], (c :: r). auto.
      * intros (run & rest & Heq & Hrun & H).
        destruct run as [|c' run]; [cbn in Heq; now subst rest|].
        cbn in Heq. injection Heq as <- ->.
        apply Forall_cons in Hrun as [Hc' _]. congruence.
Qed.

(** One or more of a class, then the rest of the pattern. *)
Lemma plus_is_Some {A} (cls : jschar -> bool) (p : list term)
  (continue : jsstring -> option A) (s : jsstring) :
  is_Some (matchTerms ({| class := cls; quantified := OneOrMore |} :: p) s continue) <->
  exists run rest,
    s = run ++ rest /\ run <> [] /\ Forall (fun c => cls c = true) run
    /\ is_Some (matchTerms p rest continue).
Proof.
  cbn [matchTerms quantified class]. destruct s as [|c r].
  - split; [intros [a Ha]; discriminate|].
    intros (run & rest & Heq & Hne & _).
    symmetry in Heq. apply app_eq_nil in Heq as [-> _]. contradiction.
  - destruct (cls c) eqn:Hc.
    + rewrite greedy_is_Some. split.
      * intros (run & rest & -> & Hrun & H). exists (c :: run), rest.
        repeat split; [discriminate|now constructor|exact H].
      * intros (run & rest & Heq & Hne & Hrun & H).
        destruct run as [|c' run]; [contradiction|].
        cbn in Heq. injection Heq as <- ->.
        apply Forall_cons in Hrun as [_ Hrun]. now exists run, rest.
    + split; [intros [a Ha]; discriminate|].
      intros (run & rest & Heq & Hne & Hrun & _).
      destruct run as [|c' run]; [contradiction|].
      cbn in Heq. injection Heq as <- ->.
      apply Forall_cons in Hrun as [Hc' _]. congruence.
Qed.

(** One code unit of a class, then the rest of the pattern. *)
Lemma once_is_Some {A} (cls : jschar -> bool) (p : list term)
  (continue : jsstring -> option A) (s : jsstring) :
  is_Some (matchTerms ({| class := cls; quantified := Once |} :: p) s continue) <->
  exists c rest, s = c :: rest /\ cls c = true /\ is_Some (matchTerms p rest continue).
Proof.
  cbn [matchTerms quantified class]. destruct s as [|c r].
  - split; [intros [a Ha]; discriminate|]. intros (c & rest & Heq & _). discriminate.
  - destruct (cls c) eqn:Hc.
    + split; [intros H; now exists c, r|].
      intros (c' & rest & Heq & _ & H). now injection Heq as <- <-.
    + split; [intros [a Ha]; discriminate|].
      intros (c' & rest & Heq & Hc' & _). injection Heq as <- <-. congruence.
Qed.

(** A greedy run of digits with nothing after it in the pattern takes
    every digit there is. *)
Lemma greedy_digits (s : jsstring) :
  greedy Lex.isDigit Some s = Some (Lex.takeDigits s).2.
Proof.
  induction s as [|c r IH]; cbn [greedy Lex.takeDigits]; [reflexivity|].
  destruct (Lex.isDigit c); [|reflexivity].
  rewrite IH. now destruct (Lex.takeDigits r).
Qed.

Lemma takeDigits_app (ds rest : jsstring) :
  allDigits ds -> endsRun rest -> Lex.takeDigits (ds ++ rest) = (ds, rest).
Proof.
  intros Hds Hrest. induction Hds as [|c ds Hc _ IH]; cbn [app Lex.takeDigits].
  - destruct rest as [|c r]; [reflexivity|]. cbn in Hrest.
    cbn [Lex.takeDigits]. now rewrite Hrest.
  - now rewrite Hc, IH.
Qed.

End Matching.

(* --------------------------------------------------------------------- *)
(** ** E-mail addresses *)
(* --------------------------------------------------------------------- *)

Section Email.

Lemma testWhole_emailRegex (email : jsstring) :
  RegExp.testWhole LineHelpers.emailRegex email = true <->
  exists name domain tld,
    email = name ++ ch "@" :: domain ++ ch "." :: tld
    /\ name <> [] /\ domain <> [] /\ tld <> []
    /\ plainText name /\ plainText domain /\ plainText tld.
Proof.
  unfold RegExp.testWhole, LineHelpers.emailRegex.
  set (atEnd := fun r : jsstring => match r with [] => Some tt | _ :: _ => None end).
  assert (Hend : forall r, is_Some (RegExp.matchTerms [] r atEnd) <-> r = []).
  { intros [|c r]; cbn; split; try reflexivity; try discriminate.
    - intros _. now exists tt.
    - intros [a Ha]. discriminate. }
  match goal with
  | |- (match ?m with Some _ => true | None => false end) = true <-> _ =>
      assert (Hsome : (match m with Some _ => true | None => false end) = true
                      <-> is_Some m)
  end.
  { destruct (RegExp.matchTerms _ email atEnd) as [a|].
    - split; [intros _; now exists a|reflexivity].
    - split; [discriminate|intros [a Ha]; discriminate]. }
  rewrite Hsome, plus_is_Some. split.
  - intros (name & r1 & -> & Hname & Hpn & H1).
    apply once_is_Some in H1 as (c1 & r2 & -> & Hc1 & H2).
    apply plus_is_Some in H2 as (domain & r3 & -> & Hdomain & Hpd & H3).
    apply once_is_Some in H3 as (c3 & r4 & -> & Hc3 & H4).
    apply plus_is_Some in H4 as (tld & r5 & -> & Htld & Hpt & H5).
    apply Hend in H5. subst r5.
    apply N.eqb_eq in Hc1, Hc3. subst c1 c3.
    exists name, domain, tld. rewrite app_nil_r. auto 10.
  - intros (name & domain & tld & -> & Hname & Hdomain & Htld & Hpn & Hpd & Hpt).
    exists name, (ch "@" :: domain ++ ch "." :: tld).
    split; [reflexivity|]. split; [exact Hname|]. split; [exact Hpn|].
    apply once_is_Some. exists (ch "@"), (domain ++ ch "." :: tld).
    split; [reflexivity|]. split; [apply N.eqb_refl|].
    apply plus_is_Some. exists domain, (ch "." :: tld).
    split; [reflexivity|]. split; [exact Hdomain|]. split; [exact Hpd|].
    apply once_is_Some. exists (ch "."), tld.
    split; [reflexivity|]. split; [apply N.eqb_refl|].
    apply plus_is_Some. exists tld, [].
    split; [now rewrite app_nil_r|]. split; [exact Htld|]. split; [exact Hpt|].
    now apply Hend.
Qed.

Lemma plainText_no_at (s : jsstring) : plainText s -> occurrences (ch "@") s = 0%nat.
Proof.
  unfold occurrences. induction 1 as [|c s Hc _ IH]; cbn; [reflexivity|].
  case_bool_decide as Heq; [|exact IH].
  subst c. vm_compute in Hc. discriminate.
Qed.

Lemma plainText_no_space (s : jsstring) :
  plainText s -> Forall (fun c => Lex.isStrWhiteSpaceChar c = false) s.
Proof.
  intros Hs. eapply Forall_impl; [exact Hs|]. intros c Hc.
  unfold LineHelpers.notSpaceNorAt in Hc.
  apply negb_true_iff, orb_false_iff in Hc. tauto.
Qed.

End Email.

(** X27.  [isValidEmail] accepts exactly the texts of the form
    [name@domain.tld] in which [name], [domain] and [tld] are not empty
    and hold neither white space nor an at sign (dots are allowed in all
    three).  So an accepted address has exactly one at sign and no white
    space, and the empty text is rejected. *)
Theorem isValidEmail_spec (email : jsstring) :
  (LineHelpers.isValidEmail email = true <->
   exists name domain tld,
     email = name ++ ch "@" :: domain ++ ch "." :: tld
     /\ name <> [] /\ domain <> [] /\ tld <> []
     /\ plainText name /\ plainText domain /\ plainText tld)
  /\ (LineHelpers.isValidEmail email = true ->
      occurrences (ch "@") email = 1%nat
      /\ Forall (fun c => Lex.isStrWhiteSpaceChar c = false) email
      /\ (5 <= length email)%nat)
  /\ LineHelpers.isValidEmail [] = false.
Proof.
  split; [apply testWhole_emailRegex|]. split; [|reflexivity].
  intros Hvalid. apply testWhole_emailRegex in Hvalid
    as (name & domain & tld & -> & Hname & Hdomain & Htld & Hpn & Hpd & Hpt).
  split; [|split].
  - unfold occurrences. rewrite List.filter_app. cbn [List.filter].
    rewrite bool_decide_eq_true_2 by reflexivity.
    rewrite List.filter_app. cbn [List.filter].
    rewrite bool_decide_eq_false_2 by (vm_compute; discriminate).
    rewrite length_app. cbn [length]. rewrite length_app.
    pose proof (plainText_no_at name Hpn) as Hn.
    pose proof (plainText_no_at domain Hpd) as Hd.
    pose proof (plainText_no_at tld Hpt) as Ht.
    unfold occurrences in Hn, Hd, Ht. rewrite Hn, Hd, Ht. reflexivity.
  - apply Forall_app. split; [now apply plainText_no_space|].
    constructor; [vm_compute; reflexivity|].
    apply Forall_app. split; [now apply plainText_no_space|].
    constructor; [vm_compute; reflexivity|now apply plainText_no_space].
  - rewrite length_app. cbn [length]. rewrite length_app. cbn [length].
    destruct name; [contradiction|]. destruct domain; [contradiction|].
    destruct tld; [contradiction|]. cbn [length]. lia.
Qed.

(** [ann@example.com] is accepted; [ann@example], [ann example.com] and
    [a b@c.d] are not. *)
Lemma isValidEmail_spec_witness :
  LineHelpers.isValidEmail (str "ann@example.com") = true
  /\ occurrences (ch "@") (str "ann@example.com") = 1%nat
  /\ LineHelpers.isValidEmail (str "ann@example") = false
  /\ LineHelpers.isValidEmail (str "a b@c.d") = false.
Proof.
  assert (Hvalid : LineHelpers.isValidEmail (str "ann@example.com") = true).
  { apply (isValidEmail_spec (str "ann@example.com")).
    exists (str "ann"), (str "example"), (str "com").
    repeat split; try discriminate; vm_compute; repeat constructor. }
  split; [exact Hvalid|]. split.
  - now apply (isValidEmail_spec (str "ann@example.com")).
  - split; reflexivity.
Defined.

(* --------------------------------------------------------------------- *)
(** ** Betting lines *)
(* --------------------------------------------------------------------- *)

Section BettingLines.

Import RegExp LineHelpers.

Lemma digit_not_sign (c : jschar) : Lex.isDigit c = true -> isSign c = false.
Proof.
  unfold Lex.isDigit, isSign. intros Hd.
  apply andb_true_iff in Hd as [Hlo Hhi]. apply N.leb_le in Hlo, Hhi.
  apply orb_false_iff. split; apply N.eqb_neq; intros ->; vm_compute in Hlo; auto.
Qed.

(** The digits of the pattern, at the front of a text. *)
Lemma matchTerms_digits (s : jsstring) :
  matchTerms [{| class := Lex.isDigit; quantified := OneOrMore |}] s Some
  = match s with
    | c :: r => if Lex.isDigit c then Some (Lex.takeDigits r).2 else None
    | [] => None
    end.
Proof.
  cbn [matchTerms quantified class]. destruct s as [|c r]; [reflexivity|].
  destruct (Lex.isDigit c); [|reflexivity].
  change (fun r' : jsstring => Some r') with (@Some jsstring). apply greedy_digits.
Qed.

Lemma matchTerms_optional {A} (cls : jschar -> bool) (p : list term)
  (s : jsstring) (continue : jsstring -> option A) :
  matchTerms ({| class := cls; quantified := Optional |} :: p) s continue
  = match s with
    | c :: r =>
        if cls c then
          match matchTerms p r continue with
          | Some a => Some a
          | None => matchTerms p s continue
          end
        else matchTerms p s continue
    | [] => matchTerms p s continue
    end.
Proof. destruct s as [|c r]; [reflexivity|]. cbn. now destruct (cls c). Qed.

(** The whole pattern at the front of a text: a sign is taken only when
    a digit follows it. *)
Lemma matchTerms_americanOdds (s : jsstring) :
  matchTerms americanOdds s Some
  = match s with
    | c :: r =>
        if Lex.isDigit c then Some (Lex.takeDigits r).2
        else if isSign c then
          match r with
          | d :: r' => if Lex.isDigit d then Some (Lex.takeDigits r').2 else None
          | [] => None
          end
        else None
    | [] => None
    end.
Proof.
  unfold americanOdds. rewrite matchTerms_optional, !matchTerms_digits.
  destruct s as [|c r]; [reflexivity|].
  destruct (Lex.isDigit c) eqn:Hd.
  - rewrite (digit_not_sign c Hd). reflexivity.
  - destruct (isSign c); [|reflexivity].
    rewrite matchTerms_digits.
    destruct r as [|d r']; [reflexivity|]. now destruct (Lex.isDigit d).
Qed.

Lemma firstMatch_unfold (p : list term) (s : jsstring) :
  firstMatch p s
  = match matchTerms p s Some with
    | Some rest => Some (firstn (length s - length rest) s)
    | None => match s with _ :: r => firstMatch p r | [] => None end
    end.
Proof. destruct s; reflexivity. Qed.

Lemma firstn_run (front run rest : jsstring) :
  firstn (length (front ++ run ++ rest) - length rest) (front ++ run ++ rest)
  = front ++ run.
Proof.
  rewrite app_assoc, length_app.
  replace (length (front ++ run) + length rest - length rest)%nat
    with (length (front ++ run)) by lia.
  apply take_app_length.
Qed.

(** At a run of digits the search stops. *)
Lemma firstMatch_at_run (ds rest : jsstring) :
  ds <> [] -> allDigits ds -> endsRun rest ->
  firstMatch americanOdds (ds ++ rest) = Some ds.
Proof.
  intros Hne Hds Hrest. destruct ds as [|d ds]; [contradiction|].
  apply Forall_cons in Hds as [Hd Hds].
  rewrite firstMatch_unfold, matchTerms_americanOdds.
  cbn [app]. rewrite Hd, (takeDigits_app ds rest Hds Hrest). cbn [snd].
  f_equal. apply (firstn_run [] (d :: ds) rest).
Qed.

(** The search skips what holds no digit, up to the sign just before the
    first digit. *)
Lemma firstMatch_run (before ds rest : jsstring) :
  noDigit before -> ds <> [] -> allDigits ds -> endsRun rest ->
  firstMatch americanOdds (before ++ ds ++ rest) = Some (signBefore before ++ ds).
Proof.
  intros Hbefore Hne Hds Hrest.
  induction Hbefore as [|c before Hc Hbefore IH].
  - exact (firstMatch_at_run ds rest Hne Hds Hrest).
  - rewrite firstMatch_unfold, matchTerms_americanOdds. cbn [app]. rewrite Hc.
    destruct before as [|c' before].
    + cbn [app]. destruct ds as [|d ds]; [contradiction|].
      pose proof Hds as Hds'. apply Forall_cons in Hds' as [Hd Hds'].
      unfold signBefore. cbn [last]. destruct (isSign c).
      * cbn [app]. rewrite Hd, (takeDigits_app ds rest Hds' Hrest). cbn [snd].
        f_equal. apply (firstn_run [c] (d :: ds) rest).
      * apply (firstMatch_at_run (d :: ds) rest Hne Hds Hrest).
    + pose proof Hbefore as Hbefore'. apply Forall_cons in Hbefore' as [Hc' _].
      cbn [app]. rewrite Hc'.
      assert (Hlast : signBefore (c :: c' :: before) = signBefore (c' :: before))
        by reflexivity.
      rewrite Hlast. destruct (isSign c); exact IH.
Qed.

(** A text with a digit in it splits at its first run of digits. *)
Lemma first_digit_run (s : jsstring) :
  noDigit s
  \/ exists before ds rest,
       s = before ++ ds ++ rest /\ noDigit before /\ ds <> [] /\ allDigits ds
       /\ endsRun rest.
Proof.
  induction s as [|c s IH]; [left; constructor|].
  destruct (Lex.isDigit c) eqn:Hc.
  - right. destruct (Lex.takeDigits s) as [ds rest] eqn:Ht.
    assert (Hsplit : forall t ds' rest',
               Lex.takeDigits t = (ds', rest') ->
               t = ds' ++ rest' /\ allDigits ds' /\ endsRun rest').
    { clear. induction t as [|x t IHt]; intros ds' rest'; cbn [Lex.takeDigits].
      - intros [= <- <-]. repeat split; constructor.
      - destruct (Lex.isDigit x) eqn:Hx.
        + destruct (Lex.takeDigits t) as [d r]. intros [= <- <-].
          destruct (IHt d r eq_refl) as (-> & Hd & Hr).
          repeat split; [now constructor|exact Hr].
        + intros [= <- <-]. repeat split; [constructor|exact Hx]. }
    destruct (Hsplit s ds rest Ht) as (-> & Hds & Hrest).
    exists [], (c :: ds), rest.
    repeat split; [constructor|discriminate|now constructor|exact Hrest].
  - destruct IH as [Hno | (before & ds & rest & -> & Hb & Hne & Hds & Hrest)].
    + left. now constructor.
    + right. exists (c :: before), ds, rest.
      repeat split; [now constructor|exact Hne|exact Hds|exact Hrest].
Qed.

Lemma firstMatch_noDigit (s : jsstring) : noDigit s -> firstMatch americanOdds s = None.
Proof.
  induction 1 as [|c s Hc Hs IH]; [reflexivity|].
  rewrite firstMatch_unfold, matchTerms_americanOdds, Hc, IH.
  destruct (isSign c); [|reflexivity].
  destruct Hs as [|d s Hd _]; [reflexivity|]. now rewrite Hd.
Qed.

Lemma parseInt_signed (sign ds : jsstring) :
  ds <> [] -> allDigits ds ->
  sign = [] \/ sign = [ch "+"] \/ sign = [ch "-"] ->
  parseInt (sign ++ ds)
  = Num.of_decimal (bool_decide (sign = [ch "-"])) (Lex.digitsValue ds) 0.
Proof.
  intros Hne Hds [-> | [-> | ->]]; [|reflexivity|reflexivity].
  destruct ds as [|d ds]; [contradiction|].
  apply Forall_cons in Hds as [Hd _]. apply digit_not_sign in Hd.
  unfold isSign in Hd. apply orb_false_iff in Hd as [Hplus Hminus].
  cbn [app parseInt]. now rewrite Hminus, Hplus.
Qed.

End BettingLines.

Section IntegerLines.

Import LineHelpers.

Lemma digit_cases (d : jschar) :
  Lex.isDigit d = true -> d ∈ [48; 49; 50; 51; 52; 53; 54; 55; 56; 57]%N.
Proof.
  unfold Lex.isDigit. intros Hd. apply andb_true_iff in Hd as [Hlo Hhi].
  apply N.leb_le in Hlo, Hhi.
  assert (Hnat : exists k, (k < 10)%nat /\ d = (48 + N.of_nat k)%N).
  { exists (N.to_nat (d - 48)). split; lia. }
  destruct Hnat as (k & Hk & ->).
  do 10 (destruct k as [|k]; [vm_compute; repeat (first [left | right])|]).
  lia.
Qed.

Lemma stripLine_digits (ds : jsstring) : allDigits ds -> Helpers.stripLine ds = ds.
Proof.
  unfold Helpers.stripLine. induction 1 as [|d ds Hd _ IH]; [reflexivity|].
  cbn [List.filter]. unfold Helpers.keptByStrip at 1. rewrite Hd, orb_true_r, IH.
  reflexivity.
Qed.

(** [parseFloat] of an optional minus sign and decimal digits. *)
Lemma parseFloat_integer (neg : bool) (ds : jsstring) :
  ds <> [] -> allDigits ds ->
  parseFloat ((if neg then [ch "-"] else []) ++ ds)
  = Num.of_decimal neg (Lex.digitsValue ds) 0.
Proof.
  intros Hne Hds. destruct ds as [|d ds]; [contradiction|].
  pose proof Hds as Hds'. apply Forall_cons in Hds' as [Hd Hrest].
  assert (Htake : Lex.takeDigits (d :: ds) = (d :: ds, [])).
  { rewrite <- (app_nil_r (d :: ds)) at 1. now apply takeDigits_app. }
  assert (Hunsigned : Lex.scanUnsigned (d :: ds)
                      = Some (Lex.LitDecimal (d :: ds) [] 0, [])).
  { unfold Lex.scanUnsigned.
    assert (Hinf : startsWith (d :: ds) (str "Infinity") = false).
    { apply digit_cases in Hd.
      repeat (apply elem_of_cons in Hd as [->|Hd]; [reflexivity|]).
      now apply elem_of_nil in Hd. }
    now rewrite Hinf, Htake. }
  assert (Hws : Lex.isStrWhiteSpaceChar d = false).
  { apply digit_cases in Hd.
    repeat (apply elem_of_cons in Hd as [->|Hd]; [reflexivity|]).
    now apply elem_of_nil in Hd. }
  assert (Hminus : (d =? ch "-")%N = false /\ (d =? ch "+")%N = false).
  { apply digit_not_sign in Hd. unfold isSign in Hd.
    apply orb_false_iff in Hd. tauto. }
  destruct Hminus as [Hminus Hplus].
  unfold parseFloat. destruct neg; cbn [app].
  - change (Lex.trimStart (ch "-" :: d :: ds)) with (ch "-" :: d :: ds).
    unfold Lex.scanSigned. rewrite N.eqb_refl, Hunsigned.
    cbn [Lex.litValue app length]. now rewrite app_nil_r.
  - cbn [Lex.trimStart]. rewrite Hws.
    unfold Lex.scanSigned. rewrite Hminus, Hplus, Hunsigned.
    cbn [Lex.litValue app length]. now rewrite app_nil_r.
Qed.

End IntegerLines.

(** X28.  [parseBettingLine] returns [null] exactly when the line holds
    no decimal digit.  Otherwise it reads the first run of digits of the
    line, with the plus or minus sign that stands just before it, if any:
    the odds are that integer, negative exactly when the sign is a minus,
    and the type is always [american]; what follows the run is ignored.
    On a line that is nothing but an optional sign and digits, these odds
    are the number [calculatePayout] computes with. *)
Theorem parseBettingLine_spec (line : jsstring) :
  (LineHelpers.parseBettingLine line = None <-> noDigit line)
  /\ (forall before ds rest,
        line = before ++ ds ++ rest ->
        noDigit before -> ds <> [] -> allDigits ds -> endsRun rest ->
        LineHelpers.parseBettingLine line
        = Some {| LineHelpers.odds :=
                    Num.of_decimal (bool_decide (last before = Some (ch "-")))
                      (Lex.digitsValue ds) 0;
                  LineHelpers.type := str "american" |})
  /\ (forall sign ds,
        line = sign ++ ds -> ds <> [] -> allDigits ds ->
        sign = [] \/ sign = [ch "+"] \/ sign = [ch "-"] ->
        LineHelpers.odds <$> LineHelpers.parseBettingLine line
        = Some (parseFloat (Helpers.stripLine line))).
Proof.
  assert (Hrun : forall before ds rest,
             noDigit before -> ds <> [] -> allDigits ds -> endsRun rest ->
             LineHelpers.parseBettingLine (before ++ ds ++ rest)
             = Some {| LineHelpers.odds :=
                         Num.of_decimal (bool_decide (last before = Some (ch "-")))
                           (Lex.digitsValue ds) 0;
                       LineHelpers.type := str "american" |}).
  { intros before ds rest Hb Hne Hds Hrest. unfold LineHelpers.parseBettingLine.
    rewrite (firstMatch_run before ds rest Hb Hne Hds Hrest).
    f_equal. f_equal.
    assert (Hsign : signBefore before = [] \/ signBefore before = [ch "+"]
                    \/ signBefore before = [ch "-"]).
    { unfold signBefore. destruct (last before) as [c|]; [|now left].
      unfold LineHelpers.isSign.
      destruct (N.eqb_spec c (ch "+")) as [->|_]; [right; now left|].
      destruct (N.eqb_spec c (ch "-")) as [->|_]; [right; now right|now left]. }
    rewrite (parseInt_signed _ ds Hne Hds Hsign). f_equal.
    apply bool_decide_ext. unfold signBefore.
    destruct (last before) as [c|]; [|split; discriminate].
    unfold LineHelpers.isSign.
    destruct (N.eqb_spec c (ch "+")) as [->|Hplus]; cbn [orb].
    - split; intros H; vm_compute in H; discriminate.
    - destruct (N.eqb_spec c (ch "-")) as [->|Hminus].
      + split; reflexivity.
      + split; [discriminate|]. intros [= ->]. contradiction. }
  split; [|split].
  - split.
    + intros Hnone. destruct (first_digit_run line)
        as [Hno | (before & ds & rest & -> & Hb & Hne & Hds & Hrest)]; [exact Hno|].
      rewrite (Hrun before ds rest Hb Hne Hds Hrest) in Hnone. discriminate.
    + intros Hno. unfold LineHelpers.parseBettingLine.
      now rewrite (firstMatch_noDigit line Hno).
  - intros before ds rest ->. apply Hrun.
  - intros sign ds -> Hne Hds Hsign.
    assert (Hno : noDigit sign).
    { destruct Hsign as [-> | [-> | ->]]; repeat constructor. }
    pose proof (Hrun sign ds [] Hno Hne Hds I) as Hparse.
    rewrite app_nil_r in Hparse. rewrite Hparse. cbn [fmap option_fmap option_map LineHelpers.odds].
    f_equal.
    destruct Hsign as [-> | [-> | ->]].
    + cbn [app]. rewrite (stripLine_digits ds Hds).
      symmetry. apply (parseFloat_integer false ds Hne Hds).
    + change (Helpers.stripLine ([ch "+"] ++ ds)) with (Helpers.stripLine ds).
      rewrite (stripLine_digits ds Hds).
      symmetry. apply (parseFloat_integer false ds Hne Hds).
    + change (Helpers.stripLine ([ch "-"] ++ ds)) with (ch "-" :: Helpers.stripLine ds).
      rewrite (stripLine_digits ds Hds).
      symmetry. apply (parseFloat_integer true ds Hne Hds).
Qed.

(** The line [Lakers -110 ML] reads as minus 110, and [PK] as nothing. *)
Lemma parseBettingLine_spec_witness :
  LineHelpers.odds <$> LineHelpers.parseBettingLine (str "Lakers -110 ML")
  = Some (Num.of_Z (-110))
  /\ LineHelpers.parseBettingLine (str "PK") = None.
Proof.
  split.
  - destruct (parseBettingLine_spec (str "Lakers -110 ML")) as (_ & Hrun & _).
    rewrite (Hrun (str "Lakers -") (str "110") (str " ML")).
    + reflexivity.
    + reflexivity.
    + vm_compute. repeat constructor.
    + discriminate.
    + vm_compute. repeat constructor.
    + vm_compute. reflexivity.
  - apply (parseBettingLine_spec (str "PK")). vm_compute. repeat constructor.
Defined.

(* ===================================================================== *)
(** ** [JSON.stringify] read back by [JSON.parse] *)
(* ===================================================================== *)

Section QuotedStrings.

Import Json JsonText.

Lemma hexVal_hexDigit (n : N) : (n < 16)%N -> hexVal (hexDigit n) = Some n.
Proof.
  intros Hn.
  assert (exists k, (k < 16)%nat /\ n = N.of_nat k) as (k & Hk & ->).
  { exists (N.to_nat n). split; lia. }
  do 16 (destruct k as [|k]; [reflexivity|]). lia.
Qed.

(** The four hexadecimal digits of a code unit give the code unit back. *)
Lemma hex_digits_value (c : N) :
  (c < 65536)%N ->
  (c / 4096 < 16
   /\ c / 4096 * 4096 + (c / 256) mod 16 * 256 + (c / 16) mod 16 * 16 + c mod 16 = c)%N.
Proof.
  intros Hc.
  pose proof (N.div_mod c 16 ltac:(lia)) as H1.
  pose proof (N.div_mod (c / 16) 16 ltac:(lia)) as H2.
  pose proof (N.div_mod (c / 256) 16 ltac:(lia)) as H3.
  rewrite N.Div0.div_div in H2, H3.
  change (16 * 16)%N with 256%N in H2. change (256 * 16)%N with 4096%N in H3.
  split; [apply N.Div0.div_lt_upper_bound; lia|]. lia.
Qed.

Lemma scanString_unicodeEscape (c : jschar) (rest acc : jsstring) :
  (c < 65536)%N ->
  scanString (unicodeEscape c ++ rest) acc = scanString rest (c :: acc).
Proof.
  intros Hc. destruct (hex_digits_value c Hc) as [Hhi Hsum].
  unfold unicodeEscape. cbn [app scanString].
  change (92 =? 34)%N with false. change (92 =? 92)%N with true.
  change (117 =? ch "u")%N with true. cbv iota.
  rewrite !hexVal_hexDigit by (try assumption; apply N.mod_lt; lia).
  now rewrite Hsum.
Qed.

Lemma scanString_raw (c : jschar) (rest acc : jsstring) :
  c <> 34%N -> c <> 92%N -> (32 <= c)%N ->
  scanString (c :: rest) acc = scanString rest (c :: acc).
Proof.
  intros H34 H92 H32. cbn [scanString].
  apply N.eqb_neq in H34, H92. rewrite H34, H92.
  destruct (N.ltb_spec c 32); [lia|reflexivity].
Qed.

Lemma scanString_quoteCodeUnit (c : jschar) (rest acc : jsstring) :
  scanString (quoteCodeUnit c ++ rest) acc = scanString rest (c :: acc).
Proof.
  unfold quoteCodeUnit.
  repeat (match goal with
          | |- context [(c =? ?n)%N] => destruct (N.eqb_spec c n) as [->|?]; [reflexivity|]
          end).
  destruct ((c <? 32)%N || isLeadingSurrogate c || isTrailingSurrogate c) eqn:Hesc.
  - apply scanString_unicodeEscape.
    unfold isLeadingSurrogate, isTrailingSurrogate in Hesc.
    rewrite !orb_true_iff, !andb_true_iff, N.ltb_lt, !N.leb_le in Hesc. lia.
  - apply orb_false_elim in Hesc as [Hesc _]. apply orb_false_elim in Hesc as [Hesc _].
    apply scanString_raw; [assumption..|]. apply N.ltb_ge. exact Hesc.
Qed.

(** What [quoteCodeUnits] writes, the scanner of string literals reads
    back up to the closing quote. *)
Lemma scanString_quoteCodeUnits (s rest acc : jsstring) :
  scanString (quoteCodeUnits s ++ 34%N :: rest) acc = Some (rev acc ++ s, rest).
Proof.
  remember (length s) as n eqn:Hn.
  revert s acc Hn. induction n as [n IH] using lt_wf_ind. intros s acc Hn.
  destruct s as [|c r].
  { cbn. now rewrite app_nil_r. }
  assert (forall acc', scanString (quoteCodeUnits r ++ 34%N :: rest) acc'
                       = Some (rev acc' ++ r, rest)) as IHr.
  { intros acc'. apply (IH (length r)); [cbn in Hn; lia|reflexivity]. }
  assert (rev (c :: acc) ++ r = rev acc ++ c :: r) as Hrev.
  { cbn [rev]. now rewrite <- app_assoc. }
  cbn [quoteCodeUnits].
  destruct (isLeadingSurrogate c) eqn:Hlead.
  - unfold isLeadingSurrogate in Hlead. rewrite andb_true_iff, !N.leb_le in Hlead.
    assert (c < 65536)%N as Hc by lia.
    destruct r as [|d r'].
    + rewrite scanString_unicodeEscape by assumption. cbn. reflexivity.
    + destruct (isTrailingSurrogate d) eqn:Htrail.
      * cbn [app]. unfold isTrailingSurrogate in Htrail.
        rewrite andb_true_iff, !N.leb_le in Htrail.
        rewrite !scanString_raw by lia.
        rewrite (IH (length r')); [|cbn in Hn; lia|reflexivity].
        cbn [rev]. now rewrite <- !app_assoc.
      * rewrite <- app_assoc, scanString_unicodeEscape by assumption.
        rewrite IHr. exact (f_equal (fun x => Some (x, rest)) Hrev).
  - rewrite <- app_assoc, scanString_quoteCodeUnit, IHr.
    exact (f_equal (fun x => Some (x, rest)) Hrev).
Qed.

Lemma scanString_quote (s rest : jsstring) :
  exists body, quote s ++ rest = 34%N :: body /\ scanString body [] = Some (s, rest).
Proof.
  exists (quoteCodeUnits s ++ 34%N :: rest). split.
  - unfold quote. cbn [app]. now rewrite <- app_assoc.
  - apply scanString_quoteCodeUnits.
Qed.

End QuotedStrings.

Section IntegerTexts.

Import Json JsonText.

Lemma digitsValue_snoc (ds : jsstring) (d : jschar) :
  Lex.digitsValue (ds ++ [d]) = (Lex.digitsValue ds * 10 + Lex.digitVal d)%N.
Proof. unfold Lex.digitsValue. now rewrite fold_left_app. Qed.

Lemma decimalDigitsFrom_spec (fuel : nat) :
  forall (n : N) (acc : jsstring),
    (n < 2 ^ N.of_nat fuel)%N ->
    exists ds,
      decimalDigitsFrom fuel n acc = ds ++ acc
      /\ allDigits ds
      /\ Lex.digitsValue ds = n
      /\ exists d ds', ds = d :: ds' /\ (n <> 0%N -> d <> 48%N) /\ (n = 0%N -> ds = [48%N]).
Proof.
  assert (forall n, (n < 10)%N ->
            allDigits [(48 + n)%N] /\ Lex.digitsValue [(48 + n)%N] = n) as Hone.
  { intros n Hn. split.
    - constructor; [|constructor]. unfold Lex.isDigit.
      apply andb_true_iff. split; apply N.leb_le; lia.
    - unfold Lex.digitsValue, Lex.digitVal. cbn [fold_left]. lia. }
  induction fuel as [|fuel IH]; intros n acc Hn.
  - assert (n = 0%N) as -> by (cbn in Hn; lia).
    exists [48%N]. split; [reflexivity|]. destruct (Hone 0%N) as [Ha Hv]; [lia|].
    split; [exact Ha|]. split; [exact Hv|]. exists 48%N, []. now repeat split.
  - cbn [decimalDigitsFrom].
    pose proof (N.div_mod n 10 ltac:(lia)) as Hdm.
    pose proof (N.mod_lt n 10 ltac:(lia)) as Hmod.
    destruct (N.eqb_spec (n / 10) 0) as [Hq|Hq].
    + assert (n mod 10 = n)%N as -> by lia.
      exists [(48 + n)%N]. split; [reflexivity|].
      destruct (Hone n) as [Ha Hv]; [lia|].
      split; [exact Ha|]. split; [exact Hv|].
      exists (48 + n)%N, []. split; [reflexivity|]. split; [lia|]. now intros ->.
    + destruct (IH (n / 10)%N ((48 + n mod 10)%N :: acc)) as (ds & Heq & Hds & Hval & d & ds' & -> & Hd & _).
      { rewrite Nat2N.inj_succ, N.pow_succ_r' in Hn.
        apply N.Div0.div_lt_upper_bound. lia. }
      exists ((d :: ds') ++ [(48 + n mod 10)%N]). split.
      { rewrite Heq, <- app_assoc. reflexivity. }
      destruct (Hone (n mod 10)%N Hmod) as [Ha Hv].
      split; [apply Forall_app; split; assumption|]. split.
      { rewrite digitsValue_snoc, Hval. unfold Lex.digitVal. lia. }
      exists d, (ds' ++ [(48 + n mod 10)%N]). split; [reflexivity|].
      split; [intros _; now apply Hd|]. intros ->. now cbn in Hq.
Qed.

Lemma size_nat_gt (n : N) : (n < 2 ^ N.of_nat (N.size_nat n))%N.
Proof.
  destruct n as [|p]; [reflexivity|].
  replace (N.of_nat (N.size_nat (N.pos p))) with (N.size (N.pos p)).
  - apply N.size_gt.
  - cbn [N.size N.size_nat].
    induction p as [p IHp|p IHp|]; cbn [Pos.size_nat Pos.size];
      rewrite ?Nat2N.inj_succ, <- ?IHp; reflexivity.
Qed.

Lemma decimalDigits_spec (n : N) :
  allDigits (decimalDigits n)
  /\ Lex.digitsValue (decimalDigits n) = n
  /\ exists d ds', decimalDigits n = d :: ds'
                   /\ (n <> 0%N -> d <> 48%N) /\ (n = 0%N -> decimalDigits n = [48%N]).
Proof.
  destruct (decimalDigitsFrom_spec (N.size_nat n) n []) as (ds & Heq & Hds & Hval & Hhd).
  { apply size_nat_gt. }
  rewrite app_nil_r in Heq. unfold decimalDigits. rewrite Heq. auto.
Qed.

End IntegerTexts.

Section ScalarTexts.

Import Json JsonText.

Lemma endsValue_scans (rest : jsstring) :
  endsValue rest ->
  endsRun rest
  /\ scanFraction rest = Some ([], rest)
  /\ scanExponentPart rest = Some (0%Z, rest)
  /\ skipWs rest = rest.
Proof.
  destruct rest as [|c r]; [now repeat split|].
  intros [-> | [-> | ->]]; now repeat split.
Qed.

Lemma of_decimal_integer (z : Z) :
  Num.of_decimal (z <? 0)%Z (Z.to_N (Z.abs z)) 0 = Num.of_Z z.
Proof. destruct z; reflexivity. Qed.

(** The first code unit of a number: a digit or the minus sign. *)
Lemma startsNumber_cases (c : jschar) :
  Lex.isDigit c = true \/ c = ch "-" ->
  c ∈ [45; 48; 49; 50; 51; 52; 53; 54; 55; 56; 57]%N.
Proof.
  intros [Hd | ->]; [|now left]. right. now apply digit_cases.
Qed.

Lemma scanInt_decimalDigits (n : N) (rest : jsstring) :
  endsValue rest ->
  scanInt (decimalDigits n ++ rest) = Some (decimalDigits n, rest).
Proof.
  intros Hrest. destruct (endsValue_scans rest Hrest) as (Hrun & _).
  destruct (decimalDigits_spec n) as (Hds & _ & d & ds' & Heq & Hnz & Hz).
  pose proof (takeDigits_app _ _ Hds Hrun) as Htake.
  rewrite Heq in *. cbn [app scanInt].
  apply Forall_cons in Hds as [Hd _]. rewrite Hd. cbn [negb].
  destruct (N.eqb_spec d (ch "0")) as [->|Hd0]; [|exact (f_equal Some Htake)].
  destruct (N.eq_dec n 0%N) as [-> | Hn]; [|now destruct (Hnz Hn)].
  specialize (Hz eq_refl). now injection Hz as ->.
Qed.

Lemma integerText_head (z : Z) :
  exists c t, integerText z = c :: t /\ (Lex.isDigit c = true \/ c = ch "-").
Proof.
  unfold integerText. destruct (z <? 0)%Z.
  - eexists _, _. split; [reflexivity|now right].
  - destruct (decimalDigits_spec (Z.to_N z)) as (Hds & _ & d & ds' & Heq & _).
    rewrite Heq in *. apply Forall_cons in Hds as [Hd _]. eauto.
Qed.

Lemma scanNumber_integerText (z : Z) (rest : jsstring) :
  endsValue rest ->
  scanNumber (integerText z ++ rest) = Some (Num.of_Z z, rest).
Proof.
  intros Hrest. destruct (endsValue_scans rest Hrest) as (_ & Hfrac & Hexp & _).
  rewrite <- of_decimal_integer. unfold integerText, scanNumber.
  destruct (Z.ltb_spec z 0) as [Hneg|Hpos].
  - cbn [app scanMinus]. change (ch "-" =? ch "-")%N with true. cbv iota.
    rewrite scanInt_decimalDigits, Hfrac, Hexp by assumption.
    rewrite app_nil_r. destruct (decimalDigits_spec (Z.to_N (- z))) as (_ & -> & _).
    repeat f_equal. lia.
  - destruct (decimalDigits_spec (Z.to_N z)) as (Hds & Hval & d & ds' & Heq & _).
    assert (scanMinus (decimalDigits (Z.to_N z) ++ rest)
            = (false, decimalDigits (Z.to_N z) ++ rest)) as ->.
    { rewrite Heq in *. apply Forall_cons in Hds as [Hd _]. cbn [app scanMinus].
      destruct (N.eqb_spec d (ch "-")) as [->|]; [discriminate Hd|reflexivity]. }
    rewrite scanInt_decimalDigits, Hfrac, Hexp by assumption.
    rewrite app_nil_r, Hval. repeat f_equal. lia.
Qed.

Lemma parseValue_scalar (f : nat) (c : jschar) (t : jsstring) :
  isWs c = false -> c <> ch "{" -> c <> ch "[" ->
  parseValue (S f) (c :: t) = scanScalar (c :: t).
Proof.
  intros Hws Hbrace Hbracket. cbn [parseValue skipWs]. rewrite Hws.
  apply N.eqb_neq in Hbrace, Hbracket. now rewrite Hbrace, Hbracket.
Qed.

Lemma parseValue_integerText (f : nat) (z : Z) (rest : jsstring) :
  endsValue rest ->
  parseValue (S f) (integerText z ++ rest) = Some (VNumber (Num.of_Z z), rest).
Proof.
  intros Hrest. pose proof (scanNumber_integerText z rest Hrest) as Hnum.
  destruct (integerText_head z) as (c & t & Heq & Hc). rewrite Heq in *.
  apply startsNumber_cases in Hc. cbn [app] in *.
  assert (isWs c = false /\ c <> ch "{" /\ c <> ch "["
          /\ scanScalar (c :: t ++ rest)
             = match scanNumber (c :: t ++ rest) with
               | Some (n, r) => Some (VNumber n, r)
               | None => None
               end) as (Hws & Hbrace & Hbracket & Hscalar).
  { repeat (apply elem_of_cons in Hc as [->|Hc]; [now repeat split|]).
    now apply elem_of_nil in Hc. }
  rewrite parseValue_scalar by assumption.
  etransitivity; [exact Hscalar|]. now rewrite Hnum.
Qed.

Lemma parseValue_quote (f : nat) (s rest : jsstring) :
  parseValue (S f) (quote s ++ rest) = Some (VString s, rest).
Proof.
  destruct (scanString_quote s rest) as (body & -> & Hscan).
  rewrite parseValue_scalar; [|reflexivity|now vm_compute..].
  cbn [scanScalar]. change (34 =? 34)%N with true. cbv iota. now rewrite Hscan.
Qed.

End ScalarTexts.

Section StructuredTexts.

Import Json JsonText.

(** Induction over data, with the hypothesis for every element of an
    array and every member of an object. *)
Lemma json_induction (P : json -> Prop) :
  P JNull -> (forall b, P (JBool b)) -> (forall z, P (JInteger z)) ->
  (forall s, P (JString s)) ->
  (forall elems, Forall P elems -> P (JArray elems)) ->
  (forall members, Forall (fun kv => P kv.2) members -> P (JObject members)) ->
  forall j, P j.
Proof.
  intros Hnull Hbool Hint Hstr Harr Hobj.
  fix IH 1. intros [|b|z|s|elems|members].
  - exact Hnull.
  - apply Hbool.
  - apply Hint.
  - apply Hstr.
  - apply Harr. induction elems as [|e es IHes]; constructor; [apply IH|exact IHes].
  - apply Hobj. induction members as [|[k v] ms IHms]; constructor; [apply IH|exact IHms].
Qed.

(** A serialized value starts with a code unit that is neither white
    space nor a closing bracket or brace. *)
Lemma stringify_head (j : json) :
  exists c t, stringify j = c :: t /\ isWs c = false /\ c <> ch "]" /\ c <> ch "}".
Proof.
  destruct j as [|[]|z|s|elems|members]; cbn [stringify];
    try (eexists _, _; split; [reflexivity|]; now repeat split).
  destruct (integerText_head z) as (c & t & -> & Hc). exists c, t.
  split; [reflexivity|]. apply startsNumber_cases in Hc.
  repeat (apply elem_of_cons in Hc as [->|Hc]; [now repeat split|]).
  now apply elem_of_nil in Hc.
Qed.

Lemma parseValue_open_bracket (f : nat) (r : jsstring) :
  parseValue (S f) (ch "[" :: r)
  = match skipWs r with
    | c' :: r' =>
        if (c' =? ch "]")%N then Some (VArray [], r') else parseElements f (c' :: r') []
    | [] => None
    end.
Proof. reflexivity. Qed.

Lemma parseValue_open_brace (f : nat) (r : jsstring) :
  parseValue (S f) (ch "{" :: r)
  = match skipWs r with
    | c' :: r' =>
        if (c' =? ch "}")%N then Some (VObject [], r') else parseMembers f (c' :: r') []
    | [] => None
    end.
Proof. reflexivity. Qed.

Lemma parseElements_step (f : nat) (s : jsstring) (acc : list value) :
  parseElements (S f) s acc
  = match parseValue f s with
    | Some (v, r) =>
        match skipWs r with
        | c :: r' =>
            if (c =? ch ",")%N then parseElements f r' (v :: acc)
            else if (c =? ch "]")%N then Some (VArray (rev (v :: acc)), r')
            else None
        | [] => None
        end
    | None => None
    end.
Proof. reflexivity. Qed.

Lemma parseMembers_step (f : nat) (r : jsstring) (acc : list (jsstring * value)) :
  parseMembers (S f) (34%N :: r) acc
  = match scanString r [] with
    | Some (k, r1) =>
        match skipWs r1 with
        | c :: r2 =>
            if (c =? ch ":")%N then
              match parseValue f r2 with
              | Some (v, r3) =>
                  match skipWs r3 with
                  | d :: r4 =>
                      if (d =? ch ",")%N
                      then parseMembers f r4 (createDataProperty acc k v)
                      else if (d =? ch "}")%N
                      then Some (VObject (createDataProperty acc k v), r4)
                      else None
                  | [] => None
                  end
              | None => None
              end
            else None
        | [] => None
        end
    | None => None
    end.
Proof. reflexivity. Qed.

End StructuredTexts.

Section OwnPropertyOrder.

Import JsonText.

Context {A : Type}.
Implicit Types (props : list (jsstring * A)) (k : jsstring) (v : A).

Lemma hasProp_false props k : hasProp props k = false -> ~ In k (keys props).
Proof.
  unfold hasProp, keys. induction props as [|[k' v'] rest IH]; cbn; [tauto|].
  intros H. apply orb_false_elim in H as [Hne H].
  intros [Heq|Hin]; [|now apply IH].
  subst k'. now rewrite jseqb_refl in Hne.
Qed.

Lemma replaceProp_keys props k v : keys (replaceProp props k v) = keys props.
Proof.
  unfold keys. induction props as [|[k' v'] rest IH]; cbn; [reflexivity|].
  destruct (jseqb k' k); cbn; [reflexivity|]. now rewrite IH.
Qed.

Lemma replaceProp_Forall (P : A -> Prop) props k v :
  P v -> Forall (fun kv => P kv.2) props ->
  Forall (fun kv => P kv.2) (replaceProp props k v).
Proof.
  intros Hv Hall. induction Hall as [|[k' v'] rest Hkv Hrest IH]; cbn; [constructor|].
  destruct (jseqb k' k); constructor; assumption.
Qed.

Lemma insertProp_perm props k v : Permutation (insertProp props k v) ((k, v) :: props).
Proof.
  induction props as [|[k' v'] rest IH]; cbn [insertProp]; [reflexivity|].
  assert (Permutation ((k', v') :: insertProp rest k v) ((k, v) :: (k', v') :: rest))
    as Hrec.
  { rewrite IH. apply perm_swap. }
  destruct (propertyIndex k) as [i|], (propertyIndex k') as [i'|];
    try destruct (i' <=? i)%N; first [exact Hrec | reflexivity].
Qed.

(** A key that may come after all the keys of a list is placed last. *)
Lemma insertProp_last props k v :
  Forall (fun k' => keyBefore k' k) (keys props) -> insertProp props k v = props ++ [(k, v)].
Proof.
  unfold keys. induction props as [|[k' v'] rest IH]; intros Hall; [reflexivity|].
  cbn [List.map fst] in Hall. apply Forall_cons in Hall as [Hk' Hall].
  cbn [insertProp app]. rewrite (IH Hall). unfold keyBefore in Hk'.
  destruct (propertyIndex k) as [i|], (propertyIndex k') as [i'|];
    try reflexivity; try contradiction.
  apply N.leb_le in Hk'. now rewrite Hk'.
Qed.

Lemma createDataProperty_last props k v :
  ~ In k (keys props) -> Forall (fun k' => keyBefore k' k) (keys props) ->
  createDataProperty props k v = props ++ [(k, v)].
Proof.
  intros Hnew Hall. unfold createDataProperty.
  destruct (hasProp props k) eqn:Hhas; [|now apply insertProp_last].
  exfalso. apply Hnew. unfold hasProp in Hhas.
  apply existsb_exists in Hhas as ([k' v'] & Hin & Heq). apply jseqb_eq in Heq.
  cbn in Heq. subst k'. unfold keys. now apply (in_map fst) in Hin.
Qed.

(** What comes after a key comes after every key placed before it. *)
Lemma keyBefore_inserted k k' x :
  keyBefore k k' -> ~ keyBefore k' k -> keyBefore k' x -> keyBefore k x.
Proof.
  unfold keyBefore.
  destruct (propertyIndex k) as [i|], (propertyIndex k') as [i'|],
    (propertyIndex x) as [j|]; try tauto. lia.
Qed.

Lemma insertProp_sorted props k v :
  StronglySorted keyBefore (keys props) ->
  StronglySorted keyBefore (keys (insertProp props k v)).
Proof.
  unfold keys. induction props as [|[k' v'] rest IH]; intros Hsorted.
  { cbn. repeat constructor. }
  cbn [List.map fst] in Hsorted. apply StronglySorted_inv in Hsorted as [Hrest Hhead].
  assert (keyBefore k' k ->
          StronglySorted keyBefore (List.map fst ((k', v') :: insertProp rest k v)))
    as Hafter.
  { intros Hk. cbn [List.map fst]. constructor; [now apply IH|].
    apply (Permutation_Forall
             (Permutation_sym (Permutation_map fst (insertProp_perm rest k v)))).
    cbn [List.map fst]. now constructor. }
  assert (keyBefore k k' -> ~ keyBefore k' k ->
          StronglySorted keyBefore (List.map fst ((k, v) :: (k', v') :: rest)))
    as Hbefore.
  { intros Hk Hnot. cbn [List.map fst]. constructor.
    - now constructor.
    - constructor; [exact Hk|].
      eapply Forall_impl; [exact Hhead|]. intros x. now apply keyBefore_inserted. }
  cbn [insertProp]. unfold keyBefore in Hafter, Hbefore.
  destruct (propertyIndex k) as [i|], (propertyIndex k') as [i'|].
  - destruct (N.leb_spec i' i); [now apply Hafter|apply Hbefore; lia].
  - apply Hbefore; tauto.
  - now apply Hafter.
  - now apply Hafter.
Qed.

(** CreateDataProperty keeps the keys distinct and in order, and what
    holds of the values. *)
Lemma createDataProperty_keeps (P : A -> Prop) props k v :
  NoDup (keys props) -> StronglySorted keyBefore (keys props) ->
  Forall (fun kv => P kv.2) props -> P v ->
  NoDup (keys (createDataProperty props k v))
  /\ StronglySorted keyBefore (keys (createDataProperty props k v))
  /\ Forall (fun kv => P kv.2) (createDataProperty props k v).
Proof.
  intros Hnodup Hsorted Hall Hv. unfold createDataProperty.
  destruct (hasProp props k) eqn:Hhas.
  - rewrite replaceProp_keys. split; [exact Hnodup|]. split; [exact Hsorted|].
    now apply replaceProp_Forall.
  - apply hasProp_false in Hhas.
    pose proof (insertProp_perm props k v) as Hperm. unfold keys in *. split; [|split].
    + rewrite (Permutation_map fst Hperm). cbn [List.map fst].
      apply NoDup_cons. split; [now rewrite list_elem_of_In|exact Hnodup].
    + now apply insertProp_sorted.
    + apply (Permutation_Forall (Permutation_sym Hperm)). now constructor.
Qed.

Lemma ownOrder_keeps (P : A -> Prop) (members : list (jsstring * A)) :
  Forall (fun kv => P kv.2) members ->
  NoDup (keys (ownOrder members))
  /\ StronglySorted keyBefore (keys (ownOrder members))
  /\ Forall (fun kv => P kv.2) (ownOrder members).
Proof.
  unfold ownOrder.
  assert (forall props,
            NoDup (keys props) /\ StronglySorted keyBefore (keys props)
            /\ Forall (fun kv => P kv.2) props ->
            Forall (fun kv => P kv.2) members ->
            let r := fold_left (fun props kv => createDataProperty props kv.1 kv.2)
                       members props in
            NoDup (keys r) /\ StronglySorted keyBefore (keys r)
            /\ Forall (fun kv => P kv.2) r) as Hfold.
  { induction members as [|[k v] ms IH]; intros props Hprops Hall; [exact Hprops|].
    apply Forall_cons in Hall as [Hv Hall]. cbn [fold_left]. apply IH; [|exact Hall].
    destruct Hprops as (Hnodup & Hsorted & Hvalues).
    now apply createDataProperty_keeps. }
  intros Hall. apply Hfold; [|exact Hall].
  split; [constructor|]. split; constructor.
Qed.

(** In a sorted list, what precedes a key may come before it. *)
Lemma sorted_before (front back : list jsstring) k :
  StronglySorted keyBefore (front ++ k :: back) ->
  Forall (fun k' => keyBefore k' k) front.
Proof.
  induction front as [|x front IH]; intros Hsorted; [constructor|].
  cbn [app] in Hsorted. apply StronglySorted_inv in Hsorted as [Hrest Hhead].
  constructor; [|now apply IH].
  rewrite Forall_forall in Hhead. apply Hhead.
  apply elem_of_app. right. now left.
Qed.

End OwnPropertyOrder.

(** For a name that is not an array index, as [token] is, [setProp] is
    CreateDataProperty. *)
Lemma setProp_createDataProperty
  (props : list (jsstring * value)) (k : jsstring) (v : value) :
  propertyIndex k = None -> setProp props k v = createDataProperty props k v.
Proof.
  intros Hk. unfold createDataProperty, hasProp.
  induction props as [|[k' v'] rest IH]; cbn [setProp existsb replaceProp insertProp fst].
  - reflexivity.
  - rewrite Hk. destruct (jseqb k' k); cbn [orb]; [reflexivity|].
    rewrite IH. now destruct (existsb _ rest).
Qed.

Section ReadingBack.

Import Json JsonText.

Lemma skipWs_separator (c : jschar) (r : jsstring) :
  c = ch "," \/ c = ch "]" \/ c = ch "}" \/ c = ch ":" -> skipWs (c :: r) = c :: r.
Proof. intros [-> | [-> | [-> | ->]]]; reflexivity. Qed.

Lemma parseElements_joinComma (es : list json) :
  forall (e : json) (acc : list value) (rest : jsstring) (fuel : nat),
    Forall readsBack (e :: es) ->
    (list_sum (List.map (fun e => S (weight e)) (e :: es)) <= fuel)%nat ->
    parseElements fuel (joinComma (List.map stringify (e :: es)) ++ ch "]" :: rest) acc
    = Some (VArray (rev acc ++ List.map listedValue (e :: es)), rest).
Proof.
  induction es as [|e2 es IH]; intros e acc rest fuel Hall Hfuel;
    apply Forall_cons in Hall as [He Hall];
    unfold list_sum in *; cbn [List.map fold_right] in Hfuel;
    (destruct fuel as [|f]; [lia|]); rewrite parseElements_step.
  - cbn [List.map joinComma].
    rewrite (He (ch "]" :: rest) f); [|right; now left|lia].
    rewrite skipWs_separator by auto.
    change (ch "]" =? ch ",")%N with false. change (ch "]" =? ch "]")%N with true.
    reflexivity.
  - change (joinComma (List.map stringify (e :: e2 :: es)))
      with (stringify e ++ ch "," :: joinComma (List.map stringify (e2 :: es))).
    rewrite <- app_assoc. cbn [app].
    rewrite (He (ch "," :: _) f); [|now left|lia].
    rewrite skipWs_separator by auto.
    change (ch "," =? ch ",")%N with true. cbv iota.
    rewrite IH; [|assumption|cbn [List.map fold_right]; lia].
    cbn [rev List.map]. now rewrite <- app_assoc.
Qed.

Lemma memberText_shape (k : jsstring) (v : json) (tail : jsstring) :
  memberText (k, v) ++ tail
  = 34%N :: quoteCodeUnits k ++ 34%N :: ch ":" :: stringify v ++ tail.
Proof. unfold memberText, quote. cbn [app]. now rewrite <- !app_assoc. Qed.

(** The members of an object whose keys are distinct and in own-property
    order are read back one after the other, each placed last. *)
Lemma parseMembers_joinComma (ms : list (jsstring * json)) :
  forall (m : jsstring * json) (acc : list (jsstring * value)) (rest : jsstring) (fuel : nat),
    Forall (fun kv => readsBack kv.2) (m :: ms) ->
    NoDup (keys acc ++ keys (m :: ms)) ->
    StronglySorted keyBefore (keys acc ++ keys (m :: ms)) ->
    (list_sum (List.map (fun kv => match kv with (_, v) => S (weight v) end) (m :: ms))
     <= fuel)%nat ->
    parseMembers fuel (joinComma (List.map memberText (m :: ms)) ++ ch "}" :: rest) acc
    = Some (VObject (acc ++ List.map memberValue (m :: ms)), rest).
Proof.
  induction ms as [|m2 ms IH]; intros [k v] acc rest fuel Hall Hnodup Hsorted Hfuel;
    apply Forall_cons in Hall as [He Hall]; cbn [snd] in He;
    unfold list_sum in *; cbn [List.map fold_right] in Hfuel;
    (destruct fuel as [|f]; [lia|]);
    (assert (createDataProperty acc k (listedValue v) = acc ++ [(k, listedValue v)])
       as Hset;
     [apply createDataProperty_last;
      [intros Hin; unfold keys in Hnodup; cbn [List.map fst] in Hnodup;
       apply NoDup_app in Hnodup as (_ & Hdisj & _);
       apply list_elem_of_In in Hin; apply (Hdisj k Hin); now left
      |unfold keys in Hsorted; cbn [List.map fst] in Hsorted;
       exact (sorted_before _ _ _ Hsorted)]|]).
  - cbn [List.map joinComma]. rewrite memberText_shape, parseMembers_step.
    rewrite scanString_quoteCodeUnits. cbn [rev app].
    rewrite skipWs_separator by auto.
    change (ch ":" =? ch ":")%N with true. cbv iota.
    rewrite (He (ch "}" :: rest) f); [|right; now right|lia].
    rewrite skipWs_separator by auto.
    change (ch "}" =? ch ",")%N with false. change (ch "}" =? ch "}")%N with true.
    cbv iota. now rewrite Hset.
  - change (joinComma (List.map memberText ((k, v) :: m2 :: ms)))
      with (memberText (k, v) ++ ch "," :: joinComma (List.map memberText (m2 :: ms))).
    rewrite <- app_assoc. cbn [app].
    rewrite memberText_shape, parseMembers_step.
    rewrite scanString_quoteCodeUnits. cbn [rev app].
    rewrite skipWs_separator by auto.
    change (ch ":" =? ch ":")%N with true. cbv iota.
    rewrite (He (ch "," :: _) f); [|now left|lia].
    rewrite skipWs_separator by auto.
    change (ch "," =? ch ",")%N with true. cbv iota.
    rewrite Hset, IH; [|assumption| | |cbn [List.map fold_right]; lia].
    + cbn [List.map]. now rewrite <- app_assoc.
    + unfold keys in *. rewrite map_app, <- app_assoc. exact Hnodup.
    + unfold keys in *. rewrite map_app, <- app_assoc. exact Hsorted.
Qed.

Lemma joinComma_head (p : jsstring) (ps : list jsstring) (c : jschar) (t : jsstring) :
  p = c :: t -> exists t', forall tail, joinComma (p :: ps) ++ tail = c :: t' ++ tail.
Proof.
  intros ->. destruct ps as [|p2 ps].
  - exists t. reflexivity.
  - exists (t ++ ch "," :: joinComma (p2 :: ps)). intros tail.
    cbn [joinComma app]. reflexivity.
Qed.

End ReadingBack.

Section RoundTrip.

Import Json JsonText.

(** The text of data in own-property order is read back as its value. *)
Lemma readsBack_all (j : json) : readsBack (ownPropertyOrder j).
Proof.
  induction j as [|b|z|s|elems IH|members IH] using json_induction;
    intros rest fuel Hrest Hfuel;
    (destruct fuel as [|f]; [cbn in Hfuel; lia|]).
  - vm_compute. now destruct rest.
  - destruct b; vm_compute; now destruct rest.
  - now apply parseValue_integerText.
  - apply parseValue_quote.
  - cbn [ownPropertyOrder] in *.
    assert (Forall readsBack (List.map ownPropertyOrder elems)) as Hall.
    { apply Forall_map. exact IH. }
    destruct (List.map ownPropertyOrder elems) as [|e es]; [reflexivity|].
    cbn [stringify listedValue weight] in *.
    cbn [app]. rewrite <- app_assoc. cbn [app]. rewrite parseValue_open_bracket.
    destruct (stringify_head e) as (c & t & He & Hws & Hclose & _).
    destruct (joinComma_head (stringify e) (List.map stringify es) c t He) as (t' & Ht').
    change (stringify e :: List.map stringify es) with (List.map stringify (e :: es)) in Ht'.
    pose proof (parseElements_joinComma es e [] rest f Hall ltac:(lia)) as Hparse.
    rewrite Ht' in *. cbn [skipWs]. rewrite Hws.
    apply N.eqb_neq in Hclose. rewrite Hclose. exact Hparse.
  - cbn [ownPropertyOrder] in *.
    destruct (ownOrder_keeps readsBack
                (List.map (fun kv => match kv with (k, v) => (k, ownPropertyOrder v) end)
                   members))
      as (Hnodup & Hsorted & Hall).
    { apply Forall_map. eapply Forall_impl; [exact IH|]. now intros [k v]. }
    destruct (ownOrder _) as [|[k v] ms]; [reflexivity|].
    cbn [weight] in *.
    change (stringify (JObject ((k, v) :: ms)))
      with (ch "{" :: joinComma (List.map memberText ((k, v) :: ms)) ++ [ch "}"]).
    change (listedValue (JObject ((k, v) :: ms)))
      with (VObject ([] ++ List.map memberValue ((k, v) :: ms))).
    cbn [app]. rewrite <- app_assoc. cbn [app]. rewrite parseValue_open_brace.
    pose proof (parseMembers_joinComma ms (k, v) [] rest f Hall Hnodup Hsorted ltac:(lia))
      as Hparse.
    destruct (joinComma_head (memberText (k, v)) (List.map memberText ms) 34%N
                (quoteCodeUnits k ++ 34%N :: ch ":" :: stringify v))
      as (t' & Ht').
    { rewrite <- (app_nil_r (memberText (k, v))), memberText_shape. now rewrite app_nil_r. }
    change (memberText (k, v) :: List.map memberText ms)
      with (List.map memberText ((k, v) :: ms)) in Ht'.
    rewrite Ht' in *. exact Hparse.
Qed.

(** [JSON.parse] of the text [JSON.stringify] writes is the data. *)
Lemma JSON_parse_stringify (j : json) :
  JSON_parse (JSON_stringify j) = Return (toValue j).
Proof.
  pose proof (readsBack_all j [] (weight (ownPropertyOrder j)) I (le_n _)) as Hparse.
  rewrite app_nil_r in Hparse. apply fuelFor_enough in Hparse.
  unfold JSON_parse, JSON_stringify, toValue. now rewrite Hparse.
Qed.

Lemma stringify_not_empty (j : json) : toBoolean (VString (JSON_stringify j)) = true.
Proof.
  destruct (stringify_head (ownPropertyOrder j)) as (c & t & Heq & _).
  unfold JSON_stringify. now rewrite Heq.
Qed.

End RoundTrip.

Section UserRoundTrip.

Import Auth AuthService JsonText.

Lemma setUser_roundtrip (ls : localStorage) (user : json) :
  wellFormed user = true ->
  getUser (setUser ls user) = Return (toValue user)
  /\ getToken (setUser ls user) = getToken ls
  /\ getRefreshToken (setUser ls user) = getRefreshToken ls.
Proof.
  intros Hwf. split; [|split].
  - unfold getUser, setUser. rewrite getItem_setItem, stringify_not_empty.
    apply JSON_parse_stringify.
  - apply getItem_setItem_ne. intros H. symmetry in H. now apply token_key_ne_user in H.
  - apply getItem_setItem_ne. intros H. symmetry in H. now apply refresh_key_ne_user in H.
Qed.

End UserRoundTrip.

(** X29.  What [tokenStorage.setUser] stores, [getUser] reads back: for a
    user record whose integers are safe integers, [getUser] after
    [setUser] returns the record as a value and never throws, whatever the
    strings of the record hold (quotes, backslashes, control characters,
    lone surrogates).  [setUser] leaves the tokens alone, a second
    [setUser] replaces the first, and after [clearAll] the user reads as
    [null]. *)
Theorem setUser_getUser (ls : gmap jsstring jsstring) (user : JsonText.json) :
  wellFormed user = true ->
  Auth.getUser (JsonText.setUser ls user) = Return (JsonText.toValue user)
  /\ JSON_parse (JsonText.JSON_stringify user) = Return (JsonText.toValue user)
  /\ Auth.getToken (JsonText.setUser ls user) = Auth.getToken ls
  /\ AuthService.getRefreshToken (JsonText.setUser ls user)
     = AuthService.getRefreshToken ls
  /\ (forall other,
        JsonText.setUser (JsonText.setUser ls other) user = JsonText.setUser ls user)
  /\ Auth.getUser (Auth.clearAll (JsonText.setUser ls user)) = Return VNull.
Proof.
  intros Hwf. destruct (setUser_roundtrip ls user Hwf) as (Huser & Htoken & Hrefresh).
  split; [exact Huser|]. split; [apply JSON_parse_stringify|].
  split; [exact Htoken|]. split; [exact Hrefresh|]. split.
  - intros other. unfold JsonText.setUser, Auth.setItem. apply insert_insert_eq.
  - apply getUser_clearAll.
Qed.

(** The sample user record is stored as the text of the sample storage
    and read back as its value. *)
Lemma setUser_getUser_witness :
  wellFormed annUser = true
  /\ JsonText.JSON_stringify annUser = storedUser
  /\ Auth.getUser (JsonText.setUser ∅ annUser) = Return (JsonText.toValue annUser).
Proof.
  split; [reflexivity|]. split; [reflexivity|].
  apply (setUser_getUser ∅ annUser). reflexivity.
Defined.

(** X30.  [login] of the context.  When the server answers with a user
    record and a token, the state is authenticated with that user carrying
    the token, not loading and without error; the storage holds the token
    and the user, nothing is rejected, and a reload while the token is not
    expired ([initializeAuth] on that storage) makes no request and ends
    in the very same state.  When the request fails, the storage is
    untouched, the state is logged out with the message of
    [formatAuthError] as its error, and the error is thrown again; when
    [formatAuthError] itself throws (an error that is [null] or
    [undefined]), only [LOGIN_START] was dispatched and the state stays
    loading. *)
Theorem login_spec (ls : gmap jsstring jsstring) (s : AuthContext.AuthState) :
  (forall response,
     wellFormed (AuthLogin.user response) = true ->
     let user := JsonText.toValue (AuthLogin.user response) in
     let token := AuthLogin.access_token response in
     let o := AuthLogin.login (AuthApi.Resolved response) ls in
     let s' := AuthContext.dispatchAll s (AuthProvider.dispatched o) in
     AuthProvider.rejected o = None
     /\ s' = {| AuthContext.user := AuthUtils.createAuthenticatedUser user token;
                AuthContext.isAuthenticated := true;
                AuthContext.isLoading := false;
                AuthContext.error := VNull |}
     /\ getProp (AuthContext.user s') (str "token") = Return (VString token)
     /\ Auth.getToken (AuthProvider.storage o) = Some token
     /\ Auth.getUser (AuthProvider.storage o) = Return user
     /\ AuthService.getRefreshToken (AuthProvider.storage o)
        = AuthService.getRefreshToken ls
     /\ (forall dateNow post,
           token <> [] -> toBoolean user = true ->
           Auth.isTokenExpired dateNow token = false ->
           let r := AuthProvider.initializeAuth dateNow post (AuthProvider.storage o) in
           AuthProvider.storage r = AuthProvider.storage o
           /\ AuthProvider.rejected r = None
           /\ stateAfter (AuthProvider.dispatched r) = s'))
  /\ (forall error message,
        Auth.formatAuthError error = Return message ->
        let o := AuthLogin.login (AuthApi.Rejected error) ls in
        let s' := AuthContext.dispatchAll s (AuthProvider.dispatched o) in
        AuthProvider.rejected o = Some error
        /\ AuthProvider.storage o = ls
        /\ s' = {| AuthContext.user := VNull;
                   AuthContext.isAuthenticated := false;
                   AuthContext.isLoading := false;
                   AuthContext.error := message |})
  /\ (forall error e,
        Auth.formatAuthError error = Throw e ->
        let o := AuthLogin.login (AuthApi.Rejected error) ls in
        let s' := AuthContext.dispatchAll s (AuthProvider.dispatched o) in
        AuthProvider.rejected o = Some (AuthProvider.errorValue e)
        /\ AuthProvider.storage o = ls
        /\ AuthProvider.dispatched o = [AuthContext.LOGIN_START]
        /\ AuthContext.isLoading s' = true
        /\ AuthContext.isAuthenticated s' = AuthContext.isAuthenticated s).
Proof.
  split; [|split].
  - intros response Hwf user token o s'.
    destruct (setUser_roundtrip (AuthService.setToken ls token) (AuthLogin.user response) Hwf)
      as (Huser & Htoken & Hrefresh).
    assert (Auth.getToken (AuthProvider.storage o) = Some token) as Hstored.
    { unfold o. cbn [AuthLogin.login AuthProvider.storage]. fold token.
      rewrite Htoken. apply getToken_setToken. }
    split; [reflexivity|]. split; [reflexivity|]. split.
    { apply token_of_authenticated_user. }
    split; [exact Hstored|]. split; [exact Huser|]. split.
    { unfold o. cbn [AuthLogin.login AuthProvider.storage]. fold token.
      rewrite Hrefresh. apply getRefreshToken_setToken. }
    intros dateNow post Hne Htruthy Hexp r.
    unfold r, AuthProvider.initializeAuth.
    rewrite Hstored. fold o. replace (Auth.getUser (AuthProvider.storage o)) with (Return user).
    assert (toBoolean (VString token) = true) as ->.
    { cbn [toBoolean]. now rewrite bool_decide_eq_false_2. }
    rewrite Htruthy, Hexp. cbn [andb]. repeat split.
  - intros error message Hmsg o s'. unfold s', o, AuthLogin.login. rewrite Hmsg.
    repeat split.
  - intros error e He o s'. unfold s', o, AuthLogin.login. rewrite He.
    repeat split.
Qed.

(** After the sample login an hour before the token expires, a reload
    restores the state the login left. *)
Lemma login_spec_witness :
  let o := AuthLogin.login (AuthApi.Resolved annResponse) ∅ in
  let r := AuthProvider.initializeAuth (Num.of_Z 1699996400000) unreachable
             (AuthProvider.storage o) in
  wellFormed annUser = true
  /\ Auth.isTokenExpired (Num.of_Z 1699996400000) tokenExp1700000000 = false
  /\ stateAfter (AuthProvider.dispatched r)
     = AuthContext.dispatchAll AuthContext.initialState (AuthProvider.dispatched o)
  /\ AuthContext.isAuthenticated (stateAfter (AuthProvider.dispatched r)) = true.
Proof.
  intros o r. split; [reflexivity|]. split; [vm_compute; reflexivity|].
  destruct (login_spec ∅ AuthContext.initialState) as [Hok _].
  destruct (Hok annResponse eq_refl) as (_ & Hstate & _ & _ & _ & _ & Hreload).
  destruct (Hreload (Num.of_Z 1699996400000) unreachable) as (_ & _ & Hsame).
  - discriminate.
  - reflexivity.
  - vm_compute. reflexivity.
  - split; [exact Hsame|]. vm_compute. reflexivity.
Defined.
